(** * The OLED display subsystem of the air-quality board package

    A shallow embedding of the display part of [src/main.ts]
    (namespace [kitronik_air_quality], section "OLED" and "Plotting
    blocks"): the page-organised framebuffer, the pixel and shape
    primitives, the text renderer with its word-wrap, the graph plotter
    and the lazy controller initialisation, followed by the properties
    the specification states about them.

    Conventions of the embedding.
    - Module-level [let] variables of the namespace are the fields of
      [state]; every function takes the state and returns the new one.
    - Pixel coordinates, buffer indices and recorded samples are
      integers ([Z]).  The argument of [plot] is a finite number, an
      exact rational ([Q]).  The rows produced by [pins.map] are exact
      rationals wrapped in [num], whose second constructor is the
      not-a-number value that arithmetic on [undefined] yields.
      Rounding of binary floating point is not modelled.
    - The I2C bus is a log of the buffers written, in order.  The only
      result the source reads back is the status of the presence probe
      in [initDisplay]; it is supplied by the parameter [ack]. *)

From Stdlib Require Import ZArith QArith Qround Lia Lqa Bool Ascii String.
From stdpp Require Import base list strings.

Close Scope Q_scope.
Open Scope Z_scope.

(** ** Numbers *)

(** Conversion to a signed 32-bit integer, as done by the bitwise
    operators. *)
Definition wrap32 (z : Z) : Z := (z + 2 ^ 31) mod 2 ^ 32 - 2 ^ 31.

(** [a << b]: the shift count is taken modulo 32. *)
Definition jsShl (a b : Z) : Z := wrap32 (Z.shiftl a (Z.land b 31)).

(** A number that may be fractional or not-a-number. *)
Inductive num : Type :=
| Fin (q : Q)
| NaN.

Definition ofZ (z : Z) : num := Fin (inject_Z z).

Definition Qltb (a b : Q) : bool := negb (Qle_bool b a).

(** [a < b] and [a > b]; false as soon as one side is not a number. *)
Definition nlt (a b : num) : bool :=
  match a, b with
  | Fin x, Fin y => Qltb x y
  | _, _ => false
  end.

Definition ngt (a b : num) : bool := nlt b a.

Definition nadd (a b : num) : num :=
  match a, b with
  | Fin x, Fin y => Fin (x + y)%Q
  | _, _ => NaN
  end.

Definition nsub (a b : num) : num :=
  match a, b with
  | Fin x, Fin y => Fin (x - y)%Q
  | _, _ => NaN
  end.

Definition nmul (a b : num) : num :=
  match a, b with
  | Fin x, Fin y => Fin (x * y)%Q
  | _, _ => NaN
  end.

(** Division.  A zero divisor gives an infinity or not-a-number in the
    source; no infinity is modelled, so it is mapped to [NaN] here.  The
    plotter never divides by zero ([graph_range_positive] below). *)
Definition ndiv (a b : num) : num :=
  match a, b with
  | Fin x, Fin y => if Qeq_bool y 0 then NaN else Fin (x / y)%Q
  | _, _ => NaN
  end.

(** Truncation toward zero. *)
Definition Qtrunc (q : Q) : Z :=
  if Qltb q 0 then Qceiling q else Qfloor q.

(** The integer a bitwise operator sees: truncation, and 0 for [NaN]. *)
Definition toInt (a : num) : Z :=
  match a with
  | Fin q => wrap32 (Qtrunc q)
  | NaN => 0
  end.

(** [a % b] on numbers (remainder with the sign of the dividend). *)
Definition nrem (a b : num) : num :=
  match a, b with
  | Fin x, Fin y =>
      if Qeq_bool y 0 then NaN
      else Fin (x - y * inject_Z (Qtrunc (x / y)))%Q
  | _, _ => NaN
  end.

(** [Math.round]: the nearest integer, ties toward plus infinity. *)
Definition Math_round (q : Q) : Z := Qfloor (q + (1 # 2))%Q.

(** [pins.map] of the platform library:
    [((value - fromLow) * (toHigh - toLow)) / (fromHigh - fromLow) + toLow]. *)
Definition pins_map (value fromLow fromHigh toLow toHigh : num) : num :=
  nadd (ndiv (nmul (nsub value fromLow) (nsub toHigh toLow))
             (nsub fromHigh fromLow))
       toLow.

(** ** Buffers *)

(** A buffer is a list of bytes.  Reading outside the buffer gives 0 and
    writing outside it does nothing; a stored value keeps its low eight
    bits. *)
Abbreviation buffer := (list Z).

Definition getByte (buf : buffer) (i : Z) : Z :=
  if 0 <=? i then default 0 (buf !! Z.to_nat i) else 0.

Definition setByte (buf : buffer) (i v : Z) : buffer :=
  if 0 <=? i then <[Z.to_nat i := Z.land v 255]> buf else buf.

(** [Buffer.slice(offset, length)] of the platform library: a copy of
    [length] bytes from [offset], cut at the end of the buffer; a
    negative [length] means up to the end.  [show] calls it with
    non-negative offsets as long as its row is not negative; a negative
    offset is read as 0 here. *)
Definition bufSlice (buf : buffer) (offset len : Z) : buffer :=
  let rest := drop (Z.to_nat offset) buf in
  if len <? 0 then rest else take (Z.to_nat len) rest.

(** [Buffer.fill(0)]. *)
Definition bufFill0 (buf : buffer) : buffer := replicate (length buf) 0.

(** ** Constants and state *)

Definition NUMBER_OF_CHAR_PER_LINE : Z := 26.
Definition DISPLAY_ADDR_1 : Z := 60.
Definition DISPLAY_ADDR_2 : Z := 10.
Definition GRAPH_Y_MIN_LOCATION : Z := 63.
Definition GRAPH_Y_MAX_LOCATION : Z := 20.

Inductive ShowAlign : Type := Left | Centre | Right.

Inductive LineDirectionSelection : Type := horizontal | vertical.

(** What leaves the board: a buffer written to an I2C address, or a
    message scrolled on the LED matrix by [basic.showString]. *)
Inductive event : Type :=
| I2CWrite (addr : Z) (payload : list Z)
| ShowString (msg : string).

Record state : Type := mkState {
  displayAddress : Z;
  initialised : Z;
  screenBuf : buffer;
  plotArray : list Z;
  graphYMin : Z;
  graphYMax : Z;
  previousYPlot : num;
  bus : list event
}.

(** The state when the program starts. *)
Definition initState : state :=
  {| displayAddress := DISPLAY_ADDR_1;
     initialised := 0;
     screenBuf := replicate 1025 0;
     plotArray := [];
     graphYMin := 0;
     graphYMax := 100;
     previousYPlot := ofZ 0;
     bus := [] |}.

Definition withAddress (a : Z) (s : state) : state :=
  mkState a (initialised s) (screenBuf s) (plotArray s)
          (graphYMin s) (graphYMax s) (previousYPlot s) (bus s).

Definition withInitialised (i : Z) (s : state) : state :=
  mkState (displayAddress s) i (screenBuf s) (plotArray s)
          (graphYMin s) (graphYMax s) (previousYPlot s) (bus s).

Definition withScreenBuf (b : buffer) (s : state) : state :=
  mkState (displayAddress s) (initialised s) b (plotArray s)
          (graphYMin s) (graphYMax s) (previousYPlot s) (bus s).

Definition withPlot (a : list Z) (lo hi : Z) (s : state) : state :=
  mkState (displayAddress s) (initialised s) (screenBuf s) a
          lo hi (previousYPlot s) (bus s).

Definition withPreviousYPlot (p : num) (s : state) : state :=
  mkState (displayAddress s) (initialised s) (screenBuf s) (plotArray s)
          (graphYMin s) (graphYMax s) p (bus s).

Definition emit (e : event) (s : state) : state :=
  mkState (displayAddress s) (initialised s) (screenBuf s) (plotArray s)
          (graphYMin s) (graphYMax s) (previousYPlot s) (bus s ++ [e]).

(** [pins.i2cWriteBuffer(displayAddress, buf)]. *)
Definition i2cWrite (payload : list Z) (s : state) : state :=
  emit (I2CWrite (displayAddress s) payload) s.

(** ** Bus command layer *)

Definition writeOneByte (regValue : Z) (s : state) : state :=
  i2cWrite [0; Z.land regValue 255] s.

Definition writeTwoByte (regValue1 regValue2 : Z) (s : state) : state :=
  i2cWrite [0; Z.land regValue1 255; Z.land regValue2 255] s.

Definition writeThreeByte (regValue1 regValue2 regValue3 : Z) (s : state)
  : state :=
  i2cWrite [0; Z.land regValue1 255; Z.land regValue2 255;
            Z.land regValue3 255] s.

Definition set_pos (col page : Z) (s : state) : state :=
  let s := writeOneByte (Z.lor 0xb0 page) s in
  let s := writeOneByte (Z.lor 0x00 (Z.rem col 16)) s in
  writeOneByte (Z.lor 0x10 (Z.shiftr col 4)) s.

Definition clearBit (d b : Z) : Z :=
  if Z.land d (jsShl 1 b) =? 0 then d else d - jsShl 1 b.

(** The [screen] argument is optional: [None] is [undefined]. *)
Definition setScreenAddr (selection : option Z) : Z :=
  match selection with
  | Some 1 => DISPLAY_ADDR_1
  | Some 2 => DISPLAY_ADDR_2
  | _ => DISPLAY_ADDR_1
  end.

(** ** Framebuffer addressing *)

(** The four statements shared by [setPixel] and the drawing loop of
    [plot]: page, bit, index, OR the bit in and store the byte. *)
Definition bufIndex (x y : Z) : Z := x + Z.shiftr y 3 * 128 + 1.

Definition bufSetBit (buf : buffer) (x y : Z) : buffer :=
  let page := Z.shiftr y 3 in
  let shift_page := Z.rem y 8 in
  let ind := x + page * 128 + 1 in
  let screenPixel := Z.lor (getByte buf ind) (jsShl 1 shift_page) in
  setByte buf ind screenPixel.

(** The same for [clearPixel] and the clearing loop of [plot]. *)
Definition bufClearBit (buf : buffer) (x y : Z) : buffer :=
  let page2 := Z.shiftr y 3 in
  let shift_page2 := Z.rem y 8 in
  let ind2 := x + page2 * 128 + 1 in
  let screenPixel2 := clearBit (getByte buf ind2) shift_page2 in
  setByte buf ind2 screenPixel2.

(** ** Glyph table *)

(** [font]: entries 0 to 31 are filled by the loop at the top of the
    table, the others are assigned one by one. *)
Definition font : list Z :=
  [0x0022d422; 0x0022d422; 0x0022d422; 0x0022d422;
   0x0022d422; 0x0022d422; 0x0022d422; 0x0022d422;
   0x0022d422; 0x0022d422; 0x0022d422; 0x0022d422;
   0x0022d422; 0x0022d422; 0x0022d422; 0x0022d422;
   0x0022d422; 0x0022d422; 0x0022d422; 0x0022d422;
   0x0022d422; 0x0022d422; 0x0022d422; 0x0022d422;
   0x0022d422; 0x0022d422; 0x0022d422; 0x0022d422;
   0x0022d422; 0x0022d422; 0x0022d422; 0x0022d422;
   0x00000000; 0x000002e0; 0x00018060; 0x00afabea;
   0x00aed6ea; 0x01991133; 0x010556aa; 0x00000060;
   0x000045c0; 0x00003a20; 0x00051140; 0x00023880;
   0x00002200; 0x00021080; 0x00000100; 0x00111110;
   0x0007462e; 0x00087e40; 0x000956b9; 0x0005d629;
   0x008fa54c; 0x009ad6b7; 0x008ada88; 0x00119531;
   0x00aad6aa; 0x0022b6a2; 0x00000140; 0x00002a00;
   0x0008a880; 0x00052940; 0x00022a20; 0x0022d422;
   0x00e4d62e; 0x000f14be; 0x000556bf; 0x0008c62e;
   0x0007463f; 0x0008d6bf; 0x000094bf; 0x00cac62e;
   0x000f909f; 0x000047f1; 0x0017c629; 0x0008a89f;
   0x0008421f; 0x01f1105f; 0x01f4105f; 0x0007462e;
   0x000114bf; 0x000b6526; 0x010514bf; 0x0004d6b2;
   0x0010fc21; 0x0007c20f; 0x00744107; 0x01f4111f;
   0x000d909b; 0x00117041; 0x0008ceb9; 0x0008c7e0;
   0x01041041; 0x000fc620; 0x00010440; 0x01084210;
   0x00000820; 0x010f4a4c; 0x0004529f; 0x00094a4c;
   0x000fd288; 0x000956ae; 0x000097c4; 0x0007d6a2;
   0x000c109f; 0x000003a0; 0x0006c200; 0x0008289f;
   0x000841e0; 0x01e1105e; 0x000e085e; 0x00064a4c;
   0x0002295e; 0x000f2944; 0x0001085c; 0x00012a90;
   0x010a51e0; 0x010f420e; 0x00644106; 0x01e8221e;
   0x00093192; 0x00222292; 0x00095b52; 0x0008fc80;
   0x000003e0; 0x000013f1; 0x00841080; 0x0022d422].

(** [font[code]] as the bitwise operators use it: a code without an
    entry reads as [undefined], which they treat as 0. *)
Definition fontAt (code : Z) : Z :=
  if 0 <=? code then default 0 (font !! Z.to_nat code) else 0.

(** ** Strings *)

Definition strLen (s : string) : Z := Z.of_nat (String.length s).

(** [s.substr(start, length)] for a non-negative [start]: at most
    [length] characters from [start]; empty when [length] is not
    positive. *)
Definition substr (s : string) (start len : Z) : string :=
  String.substring (Z.to_nat start) (Z.to_nat len) s.

(** [s.charAt(i)]; [None] stands for the empty string returned outside
    the string. *)
Definition charAt (s : string) (i : Z) : option ascii :=
  if 0 <=? i then String.get (Z.to_nat i) s else None.

Definition isSpace (c : option ascii) : bool :=
  match c with
  | Some c => Ascii.eqb c " "%char
  | None => false
  end.

Definition charCode (c : ascii) : Z := Z.of_N (N_of_ascii c).

(** ** Word-wrap of [show] *)

(** The variables of the line-splitting loop.  [stringArray] is always
    written at index [numberOfStrings], its length, so the assignment is
    an append; [spacePoint] is the loop counter whenever it is read. *)
Record wrapState : Type := mkWrap {
  previousSpacePoint : Z;
  startOfString : Z;
  stringArray : list string
}.

Definition wrapStep (inputString : string) (w : wrapState) (spaceFinder : Z)
  : wrapState :=
  if isSpace (charAt inputString spaceFinder) then
    let spacePoint := spaceFinder in
    if spacePoint - startOfString w <? NUMBER_OF_CHAR_PER_LINE then
      let previousSpacePoint := spacePoint in
      if spaceFinder =? strLen inputString - 1 then
        let saveString := substr inputString (startOfString w) spacePoint in
        mkWrap previousSpacePoint (startOfString w)
               (stringArray w ++ [saveString])
      else mkWrap previousSpacePoint (startOfString w) (stringArray w)
    else if spacePoint - startOfString w >? NUMBER_OF_CHAR_PER_LINE then
      let saveString :=
        substr inputString (startOfString w) (previousSpacePoint w) in
      mkWrap (previousSpacePoint w) (previousSpacePoint w + 1)
             (stringArray w ++ [saveString])
    else if spacePoint - startOfString w =? NUMBER_OF_CHAR_PER_LINE then
      let saveString := substr inputString (startOfString w) spacePoint in
      mkWrap spacePoint (spacePoint + 1) (stringArray w ++ [saveString])
    else w
  else w.

(** The lines [show] renders for the space-appended text [inputString]
    when the first one goes to row [y]. *)
Definition showLines (inputString : string) (y : Z) : list string :=
  if strLen inputString >? NUMBER_OF_CHAR_PER_LINE then
    if y =? 7 then
      [substr inputString 0 (NUMBER_OF_CHAR_PER_LINE - 1)]
    else
      stringArray
        (fold_left (wrapStep inputString)
                   (seqZ 0 (strLen inputString + 1))
                   (mkWrap 0 0 []))
  else [inputString].

(** ** Alignment and rasterisation *)

(** The start column of a line, in character cells; [x] is the value
    left by the line before (0 for the first). *)
Definition alignColumn (inputString : string) (displayShowAlign : ShowAlign)
    (textLine : Z) (displayString : string) (x : Z) : Z :=
  if strLen inputString <? NUMBER_OF_CHAR_PER_LINE - 1 then
    match displayShowAlign with
    | Left => 0
    | Centre =>
        Math_round (inject_Z (NUMBER_OF_CHAR_PER_LINE - strLen displayString)
                    / inject_Z 2)%Q
    | Right =>
        (NUMBER_OF_CHAR_PER_LINE - strLen displayString - 1) + textLine
    end
  else x.

(** One column byte of a glyph: bit [5 * k + l] of the constant becomes
    bit [l + 1] of the byte. *)
Definition glyphColumn (charDisplayBytes k : Z) : Z :=
  fold_left
    (fun col l =>
       if Z.land charDisplayBytes (jsShl 1 (5 * k + l)) =? 0 then col
       else Z.lor col (jsShl 1 (l + 1)))
    (seqZ 0 5) 0.

(** The five columns of the character at position [charOfString]; the
    pair is the last index written and the buffer. *)
Definition rasterGlyph (charDisplayBytes charOfString x y : Z)
    (st : Z * buffer) : Z * buffer :=
  fold_left
    (fun st k =>
       let col := glyphColumn charDisplayBytes k in
       let ind := (x + charOfString) * 5 + y * 128 + k + 1 in
       (ind, setByte (snd st) ind col))
    (seqZ 0 5) st.

Fixpoint rasterChars (cs : list ascii) (charOfString x y : Z)
    (st : Z * buffer) : Z * buffer :=
  match cs with
  | [] => st
  | c :: cs' =>
      rasterChars cs' (charOfString + 1) x y
        (rasterGlyph (fontAt (charCode c)) charOfString x y st)
  end.

(** The variables that live across the iterations of the rendering
    loop of [show]. *)
Record renderState : Type := mkRender {
  r_x : Z;
  r_y : Z;
  r_ind : Z;
  r_state : state
}.

(** One iteration of the rendering loop: align, rasterise, position the
    controller and send the bytes of the line. *)
Definition renderLine (inputString : string) (displayShowAlign : ShowAlign)
    (r : renderState) (textLine : Z) (displayString : string)
  : renderState :=
  let x := alignColumn inputString displayShowAlign textLine displayString
             (r_x r) in
  let y := r_y r in
  let s := r_state r in
  let '(ind, buf) :=
    rasterChars (String.list_ascii_of_string displayString) 0 x y
                (r_ind r, screenBuf s) in
  let s := withScreenBuf buf s in
  let s := set_pos (x * 5) y s in
  let ind02 := x * 5 + y * 128 in
  let buf2 := bufSlice (screenBuf s) ind02 (ind + 1) in
  let buf2 := setByte buf2 0 0x40 in
  let s := i2cWrite buf2 s in
  mkRender x (y + 1) ind s.

Fixpoint renderLines (inputString : string) (displayShowAlign : ShowAlign)
    (lines : list string) (textLine : Z) (r : renderState) : renderState :=
  match lines with
  | [] => r
  | displayString :: rest =>
      renderLines inputString displayShowAlign rest (textLine + 1)
        (renderLine inputString displayShowAlign r textLine displayString)
  end.

(** The start columns used for the lines, in order: the values of [x]
    that [renderLines] passes to [set_pos] and to the index computation
    ([renderLines_bus] below). *)
Fixpoint startColumns (inputString : string) (displayShowAlign : ShowAlign)
    (lines : list string) (textLine : Z) (x : Z) : list Z :=
  match lines with
  | [] => []
  | displayString :: rest =>
      let x := alignColumn inputString displayShowAlign textLine
                 displayString x in
      x :: startColumns inputString displayShowAlign rest (textLine + 1) x
  end.

(** Row of the first line: [line] is optional and 1-based; [undefined]
    and 0 both mean the top row. *)
Definition startRow (line : option Z) : Z :=
  match line with
  | None => 0
  | Some l => if l =? 0 then 0 else l - 1
  end.

(** ** Graph plotter: one column *)

(** The drawing statements of [plot] for a row held in a fractional
    variable: the bitwise operators truncate it. *)
Definition bufSetBitNum (buf : buffer) (x3 : Z) (pixel : num) : buffer :=
  let page3 := Z.shiftr (toInt pixel) 3 in
  let shift_page4 := nrem pixel (ofZ 8) in
  let ind6 := x3 + page3 * 128 + 1 in
  let screenPixel4 :=
    Z.lor (getByte buf ind6) (jsShl 1 (toInt shift_page4)) in
  setByte buf ind6 screenPixel4.

(** Number of iterations of [for (pixel = y3; pixel < y3 + len; pixel++)]
    ([segmentCount_guard] below); the test fails at once when a side is
    not a number. *)
Definition segmentCount (y3 len : num) : nat :=
  match y3, len with
  | Fin _, Fin l => Z.to_nat (Qceiling l)
  | _, _ => 0%nat
  end.

(** Start row and length of the segment between the previous and the
    current mapped row. *)
Definition segmentOf (previousYPlot yPlot : num) : num * num :=
  if nlt yPlot previousYPlot then (yPlot, nsub previousYPlot yPlot)
  else if ngt yPlot previousYPlot then
    (previousYPlot, nsub yPlot previousYPlot)
  else (yPlot, ofZ 1).

(** The rows the drawing loop visits, as the values of [pixel]. *)
Definition segmentPixels (y3 len : num) : list num :=
  map (fun i => nadd y3 (ofZ (Z.of_nat i))) (seq 0 (segmentCount y3 len)).

(** The two inner loops of [plot] for column [x3]: clear the graph band
    of the column, then draw the segment. *)
Definition drawSegment (x3 : Z) (y3 len : num) (buf : buffer) : buffer :=
  let buf :=
    fold_left (fun buf pixel => bufClearBit buf x3 pixel)
      (seqZ GRAPH_Y_MAX_LOCATION
            (GRAPH_Y_MIN_LOCATION - GRAPH_Y_MAX_LOCATION + 1))
      buf in
  fold_left (fun buf pixel => bufSetBitNum buf x3 pixel)
    (segmentPixels y3 len) buf.

(** The row [pins.map] gives for the sample at [arrayPosition]; an index
    past the end of [plotArray] reads [undefined]. *)
Definition mappedRow (s : state) (arrayPosition : Z) : num :=
  let yPlot :=
    match plotArray s !! Z.to_nat arrayPosition with
    | Some v => ofZ v
    | None => NaN
    end in
  pins_map yPlot (ofZ (graphYMin s)) (ofZ (graphYMax s))
           (ofZ GRAPH_Y_MIN_LOCATION) (ofZ GRAPH_Y_MAX_LOCATION).

(** Body of the column loop of [plot]. *)
Definition plotColumn (s : state) (arrayPosition : Z) : state :=
  let x3 := arrayPosition in
  let yPlot := mappedRow s arrayPosition in
  let s := if arrayPosition =? 0 then withPreviousYPlot yPlot s else s in
  let '(y3, len) := segmentOf (previousYPlot s) yPlot in
  let buf := drawSegment x3 y3 len (screenBuf s) in
  withPreviousYPlot yPlot (withScreenBuf buf s).

Section Display.

(** Status returned by the presence probe of [initDisplay], given the
    number of bus events so far and the address probed; the source
    compares it with -1010 ("no device"). *)
Variable ack : nat -> Z -> Z.

(** ** Controller lifecycle *)

(** The part of [clear] after its lazy-initialisation test. *)
Definition clearBody (s : state) : state :=
  let buf := bufFill0 (screenBuf s) in
  let buf := setByte buf 0 0x40 in
  let s := withScreenBuf buf s in
  let s := set_pos 0 0 s in
  i2cWrite (screenBuf s) s.

(** [initDisplay] ends with a call of [clear()] made after [initialised]
    has been set, so that call skips its own initialisation test; it is
    unfolded here ([initDisplay_calls_clear] below). *)
Definition initDisplay (screen : option Z) (s : state) : state :=
  let s := withAddress (setScreenAddr screen) s in
  let status := ack (length (bus s)) (displayAddress s) in
  let s := i2cWrite [0; 0xAF] s in
  if status =? -1010 then
    emit (ShowString "ERROR - no display") s
  else
    let s := writeOneByte 0xAE s in
    let s := writeOneByte 0xA4 s in
    let s := writeTwoByte 0xD5 0xF0 s in
    let s := writeTwoByte 0xA8 0x3F s in
    let s := writeTwoByte 0xD3 0x00 s in
    let s := writeOneByte (Z.lor 0 0x0) s in
    let s := writeTwoByte 0x8D 0x14 s in
    let s := writeTwoByte 0x20 0x00 s in
    let s := writeThreeByte 0x21 0 127 s in
    let s := writeThreeByte 0x22 0 63 s in
    let s := writeOneByte (Z.lor 0xa0 0x1) s in
    let s := writeOneByte 0xc8 s in
    let s := writeTwoByte 0xDA 0x12 s in
    let s := writeTwoByte 0x81 0xCF s in
    let s := writeTwoByte 0xd9 0xF1 s in
    let s := writeTwoByte 0xDB 0x40 s in
    let s := writeOneByte 0xA6 s in
    let s := writeTwoByte 0xD6 0 s in
    let s := writeOneByte 0xAF s in
    let s := withInitialised 1 s in
    clearBody (withAddress (setScreenAddr None) s).

(** The test every entry point starts with. *)
Definition lazyInit (screen : option Z) (s : state) : state :=
  if initialised s =? 0 then initDisplay screen s else s.

Definition clear (screen : option Z) (s : state) : state :=
  let s := withAddress (setScreenAddr screen) s in
  let s := lazyInit (Some 1) s in
  clearBody s.

(** ** Pixel primitives *)

Definition setPixel (x y : Z) (screen : option Z) (s : state) : state :=
  let s := withAddress (setScreenAddr screen) s in
  let s := lazyInit None s in
  let page := Z.shiftr y 3 in
  let shift_page := Z.rem y 8 in
  let ind := x + page * 128 + 1 in
  let screenPixel :=
    Z.lor (getByte (screenBuf s) ind) (jsShl 1 shift_page) in
  let s := withScreenBuf (setByte (screenBuf s) ind screenPixel) s in
  let s := set_pos x page s in
  i2cWrite [0x40; Z.land screenPixel 255] s.

Definition clearPixel (x y : Z) (screen : option Z) (s : state) : state :=
  let s := withAddress (setScreenAddr screen) s in
  let s := lazyInit (Some 1) s in
  let page2 := Z.shiftr y 3 in
  let shift_page2 := Z.rem y 8 in
  let ind2 := x + page2 * 128 + 1 in
  let screenPixel2 := clearBit (getByte (screenBuf s) ind2) shift_page2 in
  let s := withScreenBuf (setByte (screenBuf s) ind2 screenPixel2) s in
  let s := set_pos x page2 s in
  i2cWrite [0x40; Z.land screenPixel2 255] s.

(** ** Text renderer *)

Definition show (inputData : string) (line : option Z)
    (displayShowAlign : option ShowAlign) (screen : option Z) (s : state)
  : state :=
  let inputString := String.append inputData " " in
  let s := withAddress (setScreenAddr screen) s in
  let s := lazyInit (Some 1) s in
  let displayShowAlign := default Left displayShowAlign in
  let y := startRow line in
  let stringArray := showLines inputString y in
  r_state
    (renderLines inputString displayShowAlign stringArray 0
                 (mkRender 0 y 0 s)).

Definition clearLine (line : Z) (screen : option Z) (s : state) : state :=
  let s := withAddress (setScreenAddr screen) s in
  let s := lazyInit (Some 1) s in
  show "                          " (Some line) None None s.

(** ** Shape primitives *)

Definition drawLine (lineDirection : LineDirectionSelection)
    (len x y : Z) (screen : option Z) (s : state) : state :=
  match lineDirection with
  | horizontal =>
      fold_left (fun s hPixel => setPixel hPixel y screen s) (seqZ x len) s
  | vertical =>
      let len := if len >=? 64 then 63 else len in
      fold_left (fun s vPixel => setPixel x vPixel screen s) (seqZ y len) s
  end.

Definition drawRect (width height x y : Z) (screen : option Z) (s : state)
  : state :=
  let s := drawLine horizontal width x y screen s in
  let s := drawLine horizontal width x (y + height - 1) screen s in
  let s := drawLine vertical height x y screen s in
  drawLine vertical height (x + width - 1) y screen s.

(** ** Remaining controller operations *)

Definition controlDisplayOnOff (displayOutput : bool) (screen : option Z)
    (s : state) : state :=
  let s := withAddress (setScreenAddr screen) s in
  let s := lazyInit (Some 1) s in
  if displayOutput then writeOneByte 0xAF s else writeOneByte 0xAE s.

Definition refresh (screen : option Z) (s : state) : state :=
  let s := withAddress (setScreenAddr screen) s in
  let s := lazyInit (Some 1) s in
  let s := set_pos 0 0 s in
  i2cWrite (screenBuf s) s.

Definition invert (output : bool) (screen : option Z) (s : state) : state :=
  let s := withAddress (setScreenAddr screen) s in
  let s := lazyInit (Some 1) s in
  let invertRegisterValue := if output then 0xA7 else 0xA6 in
  writeOneByte invertRegisterValue s.

(** ** Graph plotter *)

(** The sample window and the scale after recording [plotVariable]. *)
Definition recordSample (plotVariable : Q) (s : state) : state :=
  let plotLength := Z.of_nat (length (plotArray s)) in
  let arr := if plotLength =? 127 then tail (plotArray s) else plotArray s in
  let plotVariable := Math_round plotVariable in
  let arr := arr ++ [plotVariable] in
  let hi := if plotVariable >? graphYMax s then plotVariable
            else graphYMax s in
  let lo := if plotVariable <? graphYMin s then plotVariable
            else graphYMin s in
  withPlot arr lo hi s.

(** The redraw loop, for [arrayPosition] from 0 to [plotLength]
    inclusive. *)
Definition redraw (plotLength : Z) (s : state) : state :=
  fold_left plotColumn (seqZ 0 (plotLength + 1)) s.

Definition plot (plotVariable : Q) (screen : option Z) (s : state) : state :=
  let s := withAddress (setScreenAddr screen) s in
  let s := lazyInit (Some 1) s in
  let plotLength := Z.of_nat (length (plotArray s)) in
  let s := recordSample plotVariable s in
  let s := redraw plotLength s in
  refresh None s.

(** ** Public surface *)

Inductive call : Type :=
| InitDisplay (screen : option Z)
| SetPixel (x y : Z) (screen : option Z)
| ClearPixel (x y : Z) (screen : option Z)
| Show (inputData : string) (line : option Z)
       (displayShowAlign : option ShowAlign) (screen : option Z)
| ClearLine (line : Z) (screen : option Z)
| DrawLine (lineDirection : LineDirectionSelection) (len x y : Z)
           (screen : option Z)
| DrawRect (width height x y : Z) (screen : option Z)
| Clear (screen : option Z)
| ControlDisplayOnOff (displayOutput : bool) (screen : option Z)
| Plot (plotVariable : Q) (screen : option Z)
| Refresh (screen : option Z)
| Invert (output : bool) (screen : option Z).

Definition exec (c : call) (s : state) : state :=
  match c with
  | InitDisplay screen => initDisplay screen s
  | SetPixel x y screen => setPixel x y screen s
  | ClearPixel x y screen => clearPixel x y screen s
  | Show d l a screen => show d l a screen s
  | ClearLine l screen => clearLine l screen s
  | DrawLine d len x y screen => drawLine d len x y screen s
  | DrawRect w h x y screen => drawRect w h x y screen s
  | Clear screen => clear screen s
  | ControlDisplayOnOff b screen => controlDisplayOnOff b screen s
  | Plot v screen => plot v screen s
  | Refresh screen => refresh screen s
  | Invert b screen => invert b screen s
  end.

(** A program: calls executed in order. *)
Definition run (cs : list call) (s : state) : state :=
  fold_left (fun s c => exec c s) cs s.

End Display.

(** ** Predicates used in the statements *)

Definition isByte (b : Z) : bool := (0 <=? b) && (b <? 256).

(** The framebuffer has its 1025 bytes. *)
Definition wfBuf (buf : buffer) : bool :=
  (length buf =? 1025)%nat && forallb isByte buf.

(** Pixel [(x, y)] of a framebuffer: bit [y mod 8] of the byte at
    [x + (y >> 3) * 128 + 1]. *)
Definition pixelOn (buf : buffer) (x y : Z) : bool :=
  Z.testbit (getByte buf (bufIndex x y)) (y mod 8).

(** The scale of the graph contains every recorded sample, and the
    window holds at most 127 of them. *)
Definition plotOk (s : state) : bool :=
  (graphYMin s <? graphYMax s)
  && forallb (fun v => (graphYMin s <=? v) && (v <=? graphYMax s))
             (plotArray s)
  && (length (plotArray s) <=? 127)%nat.

(** The sample window after one more sample, in the words of the
    specification: drop the oldest entry when 127 are held, then
    append. *)
Definition slideWindow (window : list Z) (sample : Z) : list Z :=
  (if decide (length window = 127%nat) then drop 1 window else window)
  ++ [sample].

Definition plotCall (p : Q * option Z) : call := Plot (fst p) (snd p).

(** The fields [plot] records samples in. *)
Definition plotPart (s : state) : list Z * Z * Z :=
  (plotArray s, graphYMin s, graphYMax s).

(** The start column of line [textLine] in the words of the
    specification. *)
Definition specStartColumn (align : ShowAlign) (textLine : Z)
    (displayString : string) : Z :=
  match align with
  | Left => 0
  | Centre =>
      Math_round (inject_Z (26 - strLen displayString) / inject_Z 2)%Q
  | Right => (26 - strLen displayString - 1) + textLine
  end.

(** The events a call added to the bus log of [s]. *)
Definition newEvents (s s' : state) : list event :=
  drop (length (bus s)) (bus s').

(** Payloads of the bulk data writes among some events: the buffers that
    start with the data marker 0x40. *)
Definition bulkWrites (evs : list event) : list (list Z) :=
  flat_map (fun e =>
              match e with
              | I2CWrite _ (0x40 :: payload) => [0x40 :: payload]
              | _ => []
              end) evs.

(** A bulk payload carries exactly the framebuffer bytes of columns
    [c0] to [c1] of [page]. *)
Definition coversColumns (payload : list Z) (buf : buffer)
    (page c0 c1 : Z) : Prop :=
  payload = 0x40 :: bufSlice buf (c0 + page * 128 + 1) (c1 - c0 + 1).

(** The column bytes of the glyphs of "HELLO " (the text with the space
    [show] appends), five per glyph. *)
Definition helloColumns : list Z :=
  [62; 8; 8; 62; 0;  62; 42; 42; 34; 0;  62; 32; 32; 32; 0;
   62; 32; 32; 32; 0;  28; 34; 34; 28; 0;  0; 0; 0; 0; 0].

(** A 60-character text of words no wider than 26. *)
Definition sixtyChars : string :=
  "the quick brown fox jumps over the lazy dog and runs far off".

(** The three commands [set_pos] sends. *)
Definition posEvents (addr col page : Z) : list event :=
  [I2CWrite addr [0; Z.land (Z.lor 0xb0 page) 255];
   I2CWrite addr [0; Z.land (Z.lor 0x00 (Z.rem col 16)) 255];
   I2CWrite addr [0; Z.land (Z.lor 0x10 (Z.shiftr col 4)) 255]].

(** What the rendering loop sends for lines starting at the character
    columns [columns], the first on row [y]: per line, the position
    commands and one buffer. *)
Fixpoint lineEvents (addr : Z) (columns : list Z) (y : Z)
    (payloads : list (list Z)) : list event :=
  match columns, payloads with
  | x :: columns', p :: payloads' =>
      posEvents addr (x * 5) y
      ++ I2CWrite addr p :: lineEvents addr columns' (y + 1) payloads'
  | _, _ => []
  end.

(** A bus on which every probe is acknowledged, and the state once
    [initDisplay()] has run on it at program start. *)
Definition alwaysPresent : nat -> Z -> Z := fun _ _ => 0.

Definition readyState : state := initDisplay alwaysPresent None initState.

(** A command write that sets a register with one or two operands
    (three or four bytes, the first being the command marker 0).  The
    source sends such writes through [writeTwoByte] and [writeThreeByte],
    which only the init sequence of [initDisplay] calls. *)
Definition isConfigWrite (e : event) : bool :=
  match e with
  | I2CWrite _ [0; _; _] => true
  | I2CWrite _ [0; _; _; _] => true
  | _ => false
  end.

(** The init sequence of the controller: the payloads [initDisplay]
    writes between its presence probe and its call of [clear], in
    order. *)
Definition initSequence : list (list Z) :=
  [[0; 0xAE]; [0; 0xA4]; [0; 0xD5; 0xF0]; [0; 0xA8; 0x3F]; [0; 0xD3; 0x00];
   [0; 0x00]; [0; 0x8D; 0x14]; [0; 0x20; 0x00]; [0; 0x21; 0; 127];
   [0; 0x22; 0; 63]; [0; 0xA1]; [0; 0xC8]; [0; 0xDA; 0x12];
   [0; 0x81; 0xCF]; [0; 0xD9; 0xF1]; [0; 0xDB; 0x40]; [0; 0xA6];
   [0; 0xD6; 0]; [0; 0xAF]].

Definition isInitDisplay (c : call) : bool :=
  match c with
  | InitDisplay _ => true
  | _ => false
  end.

(** The display has been initialised and the framebuffer has its size. *)
Definition ready (s : state) : Prop :=
  initialised s <> 0 /\ length (screenBuf s) = 1025%nat.

(** From [s] to [s'] the flag and the size of the framebuffer are kept
    and nothing of the init sequence is sent. *)
Definition quiet (s s' : state) : Prop :=
  initialised s' = initialised s
  /\ length (screenBuf s') = length (screenBuf s)
  /\ exists evs,
       bus s' = bus s ++ evs
       /\ Forall (fun e => isConfigWrite e = false) evs.

(** The mapped row of the column before [arrayPosition], as the loop of
    [plot] holds it in [previousYPlot]: column 0 is its own
    predecessor. *)
Definition previousRow (s : state) (arrayPosition : Z) : num :=
  if arrayPosition =? 0 then mappedRow s 0
  else mappedRow s (arrayPosition - 1).

(** The run of rows drawn between two mapped rows, as first row and
    number of rows: from the upper of the two (rounded down), as many
    rows as they differ (rounded up); one row when they are equal or
    there is no previous row; none when the column has no sample. *)
Definition segmentRows (previous current : num) : Z * Z :=
  match previous, current with
  | Fin p, Fin c =>
      if Qltb c p then (Qfloor c, Qceiling (p - c))
      else if Qltb p c then (Qfloor p, Qceiling (c - p))
      else (Qfloor c, 1)
  | NaN, Fin c => (Qfloor c, 1)
  | _, NaN => (0, 0)
  end.


(** A mapped row inside the graph band, or no row at all. *)
Definition inBand (row : num) : Prop :=
  match row with
  | Fin q => (20 <= q)%Q /\ (q <= 63)%Q
  | NaN => True
  end.

(** Every recorded sample lies within the scale. *)
Definition inScale (s : state) : Prop :=
  Forall (fun v => graphYMin s <= v <= graphYMax s) (plotArray s).

(** ** The sample window when a sample is not a number *)

(** [Math.round] of a number that may be not-a-number. *)
Definition Math_roundNum (a : num) : num :=
  match a with
  | Fin q => ofZ (Math_round q)
  | NaN => NaN
  end.

(** [a <= b]; false as soon as one side is not a number. *)
Definition nle (a b : num) : bool :=
  match a, b with
  | Fin x, Fin y => Qle_bool x y
  | _, _ => false
  end.

(** The sample window and the scale, as numbers that may be
    not-a-number. *)
Record plotVars : Type := mkPlotVars {
  plotArrayNum : list num;
  graphYMinNum : num;
  graphYMaxNum : num
}.

Definition plotVarsOf (s : state) : plotVars :=
  mkPlotVars (map ofZ (plotArray s)) (ofZ (graphYMin s))
             (ofZ (graphYMax s)).

(** The statements of [plot] that record the sample, as [recordSample]
    has them, for an argument that may be not-a-number: both comparisons
    with the scale are false for it. *)
Definition recordSampleNum (plotVariable : num) (p : plotVars) : plotVars :=
  let plotLength := Z.of_nat (length (plotArrayNum p)) in
  let arr :=
    if plotLength =? 127 then tail (plotArrayNum p) else plotArrayNum p in
  let plotVariable := Math_roundNum plotVariable in
  let arr := arr ++ [plotVariable] in
  let hi := if ngt plotVariable (graphYMaxNum p) then plotVariable
            else graphYMaxNum p in
  let lo := if nlt plotVariable (graphYMinNum p) then plotVariable
            else graphYMinNum p in
  mkPlotVars arr lo hi.

(** ** Windows on which the arithmetic of the plotter is exact *)



(** A bus on which the display answers only from the seventh event on:
    absent at first, attached later. *)
Definition lateDisplay : nat -> Z -> Z :=
  fun n _ => if (n <? 6)%nat then -1010 else 0.

(** ** Statements about the drawing primitives *)

(** The pixels [drawLine] sets, in the order it sets them: [len] along
    the row, or down the column with the length cut to 63. *)
Definition linePoints (d : LineDirectionSelection) (len x y : Z)
  : list (Z * Z) :=
  match d with
  | horizontal => map (fun h => (h, y)) (seqZ x len)
  | vertical => map (fun v => (x, v)) (seqZ y (Z.min len 63))
  end.

(** The pixel [(x', y')] lies on the border of the rectangle of
    [width] by [height] pixels whose top left corner is [(x, y)]. *)
Definition onBorder (width height x y x' y' : Z) : Prop :=
  x <= x' <= x + width - 1 /\ y <= y' <= y + height - 1
  /\ (x' = x \/ x' = x + width - 1 \/ y' = y \/ y' = y + height - 1).

(** The framebuffer with every pixel off: the data marker and 1024
    zero bytes. *)
Definition blankScreen : list Z := 0x40 :: replicate 1024 0.

(** An event that, if it is a bus write, goes to address [a]. *)
Definition toAddress (a : Z) (e : event) : Prop :=
  match e with
  | I2CWrite a' _ => a' = a
  | ShowString _ => True
  end.

(** From [s] to [s'] the bus log grows by writes to address [a]
    only. *)
Definition sendsTo (a : Z) (s s' : state) : Prop :=
  exists evs, bus s' = bus s ++ evs /\ Forall (toAddress a) evs.

(** The bus log has grown by writes to [a], and [a] is the address in
    use. *)
Definition sendsAt (a : Z) (s0 s : state) : Prop :=
  sendsTo a s0 s /\ displayAddress s = a.

(** The number of columns [clearLine] blanks: 26 character cells, but
    25 on the last row, where [show] cuts the text. *)
Definition clearedColumns (line : Z) : Z := if line =? 8 then 125 else 130.

(** A bus on which no display ever answers. *)
Definition neverPresent : nat -> Z -> Z := fun _ _ => -1010.

(** An uninitialised display with its framebuffer. *)
Definition dark (s : state) : Prop :=
  initialised s = 0 /\ length (screenBuf s) = 1025%nat.

(** * ZIP LEDs *)

(** [Math.clamp(min, max, value)] of the platform library:
    [Math.min(max, Math.max(min, value))]. *)
Definition Math_clamp (min max value : Z) : Z := Z.min max (Z.max min value).

(** [Buffer.fill(value, offset, length)] of the platform library: nothing
    when [offset] is negative or past the end; a negative [length] means
    the whole buffer; the run is cut at the end of the buffer. *)
Definition bufFill (buf : buffer) (value offset len : Z) : buffer :=
  let size := Z.of_nat (length buf) in
  if (offset <? 0) || (offset >? size) then buf
  else
    let len := if len <? 0 then size else len in
    let len := Z.min len (size - offset) in
    take (Z.to_nat offset) buf
    ++ replicate (Z.to_nat len) (Z.land value 255)
    ++ drop (Z.to_nat (offset + len)) buf.

(** ** Colours *)

(** The operands of the bitwise operators are numbers; [toInt] is the
    integer the operator sees.  The colour to unpack is a whole
    number. *)
Definition packRGB (a b c : num) : Z :=
  Z.lor (Z.lor (jsShl (Z.land (toInt a) 0xFF) 16)
               (jsShl (Z.land (toInt b) 0xFF) 8))
        (Z.land (toInt c) 0xFF).

Definition unpackR (rgb : Z) : Z := Z.land (Z.shiftr (wrap32 rgb) 16) 0xFF.

Definition unpackG (rgb : Z) : Z := Z.land (Z.shiftr (wrap32 rgb) 8) 0xFF.

Definition unpackB (rgb : Z) : Z := Z.land (wrap32 rgb) 0xFF.

Definition rgb (red green blue : num) : Z := packRGB red green blue.

(** [wavelength] for a whole number of nanometres.  The quotients of
    [pins.map] are then multiples of 1/55 or of 1/100, which the
    truncation of [packRGB] cuts in the same way whether they are held
    exactly or as floating-point numbers. *)
Definition wavelength (wavelength : Z) : Z :=
  let w := ofZ wavelength in
  let '(r, g, b) :=
    if (wavelength >=? 470) && (wavelength <? 525) then
      (ofZ 0,
       pins_map w (ofZ 470) (ofZ 525) (ofZ 0) (ofZ 255),
       pins_map w (ofZ 470) (ofZ 525) (ofZ 255) (ofZ 0))
    else if (wavelength >=? 525) && (wavelength <=? 625) then
      (pins_map w (ofZ 525) (ofZ 625) (ofZ 0) (ofZ 255),
       pins_map w (ofZ 525) (ofZ 625) (ofZ 255) (ofZ 0),
       ofZ 0)
    else (ofZ 0, ofZ 0, ofZ 0) in
  packRGB r g b.

(** [hueStep], 2.125. *)
Definition hueStep : Q := 17 # 8.

(** [hueToRGB] for a whole number of degrees, for which the products
    with [hueStep] are exact. *)
Definition hueToRGB (hue : Z) : Z :=
  let '(redVal, greenVal, blueVal) :=
    if (hue >=? 0) && (hue <? 120) then
      let greenVal := Qfloor (inject_Z hue * hueStep) in
      (255 - greenVal, greenVal, 0)
    else if (hue >=? 120) && (hue <? 240) then
      let blueVal := Qfloor (inject_Z (hue - 120) * hueStep) in
      (0, 255 - blueVal, blueVal)
    else if (hue >=? 240) && (hue <? 360) then
      let redVal := Qfloor (inject_Z (hue - 240) * hueStep) in
      (redVal, 0, 255 - redVal)
    else (0, 0, 0) in
  Z.lor (Z.lor (jsShl (Z.land (wrap32 redVal) 0xFF) 16)
               (jsShl (Z.land (wrap32 greenVal) 0xFF) 8))
        (Z.land (wrap32 blueVal) 0xFF).

(** ** The strip *)

(** The class [airQualityZIPLEDs]: a range of LEDs.  The ranges made by
    [range] share the buffer of the strip they come from (the same
    object, not a copy), so the buffer is kept apart and passed to the
    operations that write it.  Arguments are whole numbers. *)
Module ZIP.

Record airQualityZIPLEDs : Type := mkZIP {
  brightness : Z;
  start : Z;
  _length : Z
}.

Definition range (this : airQualityZIPLEDs) (start0 length0 : Z)
  : airQualityZIPLEDs :=
  let start0 := wrap32 start0 in
  let length0 := wrap32 length0 in
  let zstart := start this + Math_clamp 0 (_length this - 1) start0 in
  let zlength :=
    Math_clamp 0 (_length this - (zstart - start this)) length0 in
  mkZIP (brightness this) zstart zlength.

Definition setBufferRGB (buf : buffer) (offset red green blue : Z) : buffer :=
  let buf := setByte buf (offset + 0) green in
  let buf := setByte buf (offset + 1) red in
  setByte buf (offset + 2) blue.

Definition setAllRGB (this : airQualityZIPLEDs) (rgb : Z) (buf : buffer)
  : buffer :=
  let red := unpackR rgb in
  let green := unpackG rgb in
  let blue := unpackB rgb in
  let end_ := start this + _length this in
  fold_left (fun buf i => setBufferRGB buf (i * 3) red green blue)
            (seqZ (start this) (end_ - start this)) buf.

Definition setPixelRGB (this : airQualityZIPLEDs) (pixeloffset rgb : Z)
    (buf : buffer) : buffer :=
  if (pixeloffset <? 0) || (pixeloffset >=? _length this) then buf
  else
    let pixeloffset := (pixeloffset + start this) * 3 in
    let red := unpackR rgb in
    let green := unpackG rgb in
    let blue := unpackB rgb in
    setBufferRGB buf pixeloffset red green blue.

Definition setColor (this : airQualityZIPLEDs) (rgb : Z) (buf : buffer)
  : buffer :=
  setAllRGB this (wrap32 rgb) buf.

Definition setZipLedColor (this : airQualityZIPLEDs) (zipLedNum rgb : Z)
    (buf : buffer) : buffer :=
  setPixelRGB this (wrap32 zipLedNum) (wrap32 rgb) buf.

Definition clear (this : airQualityZIPLEDs) (buf : buffer) : buffer :=
  bufFill buf 0 (start this * 3) (_length this * 3).

Definition setBrightness (this : airQualityZIPLEDs) (brightness0 : Z)
  : airQualityZIPLEDs :=
  let brightness0 :=
    if brightness0 <? 0 then 0
    else if brightness0 >? 255 then 255 else brightness0 in
  mkZIP (Z.land (wrap32 brightness0) 0xff) (start this) (_length this).

(** The strip of the board and its buffer of nine bytes. *)
Definition createAirQualityZIPDisplay : airQualityZIPLEDs * buffer :=
  (setBrightness (mkZIP 0 0 3) 128, replicate 9 0).

End ZIP.

(** The bytes of LED [led] in a buffer, in the order they are stored:
    green, red, blue. *)
Definition ledBytes (buf : buffer) (led : Z) : Z * Z * Z :=
  (getByte buf (led * 3), getByte buf (led * 3 + 1),
   getByte buf (led * 3 + 2)).

(** The three channels of a packed colour. *)
Definition channels (rgb : Z) : Z * Z * Z :=
  (unpackR rgb, unpackG rgb, unpackB rgb).

(** The channels of [hueToRGB] in integer arithmetic: a ramp of
    [17 / 8] per degree within each third of the circle. *)
Definition hueChannels (hue : Z) : Z * Z * Z :=
  if (0 <=? hue) && (hue <? 120) then
    (255 - hue * 17 / 8, hue * 17 / 8, 0)
  else if (120 <=? hue) && (hue <? 240) then
    (0, 255 - (hue - 120) * 17 / 8, (hue - 120) * 17 / 8)
  else if (240 <=? hue) && (hue <? 360) then
    ((hue - 240) * 17 / 8, 0, 255 - (hue - 240) * 17 / 8)
  else (0, 0, 0).

(** The channels of [wavelength] in integer arithmetic: the rising
    channel is rounded down, the falling one is 255 less the rising
    ramp rounded up. *)
Definition wavelengthChannels (w : Z) : Z * Z * Z :=
  if (470 <=? w) && (w <? 525) then
    (0, (w - 470) * 255 / 55, 255 - ((w - 470) * 255 + 54) / 55)
  else if (525 <=? w) && (w <=? 625) then
    ((w - 525) * 255 / 100, 255 - ((w - 525) * 255 + 99) / 100, 0)
  else (0, 0, 0).

Definition sameChannels (a b : Z * Z * Z) : bool :=
  let '(r, g, b0) := a in
  let '(r', g', b') := b in
  (r =? r') && (g =? g') && (b0 =? b').

(** * Clock *)

(** The day [setDate] passes on to the clock chip: the two checks at
    the top of its body, on whole numbers. *)
Definition setDate_day (setDay setMonth setYear : Z) : Z :=
  let setDay :=
    if (setMonth =? 4) || (setMonth =? 6) || (setMonth =? 9)
       || (setMonth =? 11)
    then (if setDay =? 31 then 30 else setDay)
    else setDay in
  if (setMonth =? 2) && (setDay >=? 29) then
    let leapYearCheck := Z.rem setYear 4 in
    if leapYearCheck =? 0 then 29 else 28
  else setDay.

(** * Data logging *)

(** The memory chip and the serial port belong to other packages: the
    logger is followed through the requests it makes of them, and what
    the memory returns is given from outside. *)

Definition CRLF : string :=
  String (ascii_of_nat 13) (String (ascii_of_nat 10) EmptyString).

Definition TAB : string := String (ascii_of_nat 9) EmptyString.

Definition NONE : Z := 0.
Definition USB : Z := 1.
Definition firstDataBlock : Z := 24.

Inductive Separator : Type := tab | semicolon | comma | space.

(** What the logger asks of the memory chip and of the serial port. *)
Inductive logEvent : Type :=
| WriteBlock (data : string) (block : Z)
| WriteByte (data addr : Z)
| ReadBlock (block : Z)
| ReadByte (addr : Z)
| SerialWrite (text : string)
| RedirectToUSB.

(** The variables of the logger that the entry points below use, and the
    requests made so far. *)
Record logger : Type := mkLogger {
  delimiter : string;
  incDate : bool;
  incTime : bool;
  incTemp : bool;
  incPress : bool;
  incHumid : bool;
  incIAQ : bool;
  incCO2 : bool;
  incLight : bool;
  dataEntry : string;
  entryNum : Z;
  writeTitles : bool;
  dataFull : bool;
  comms : Z;
  requests : list logEvent
}.

Definition initLogger : logger :=
  mkLogger " " false false false false false false false false
           "" 0 false false NONE [].

(** The readings one call of [logData] takes from the clock and the
    sensor, as the text each is appended as. *)
Record readings : Type := mkReadings {
  logDate : string;
  logTime : string;
  logTemp : string;
  logPress : string;
  logHumid : string;
  logIAQ : string;
  logCO2 : string;
  logLight : string
}.

Definition request (e : logEvent) (s : logger) : logger :=
  mkLogger (delimiter s) (incDate s) (incTime s) (incTemp s) (incPress s)
           (incHumid s) (incIAQ s) (incCO2 s) (incLight s) (dataEntry s)
           (entryNum s) (writeTitles s) (dataFull s) (comms s)
           (requests s ++ [e]).

Definition withDelimiter (d : string) (s : logger) : logger :=
  mkLogger d (incDate s) (incTime s) (incTemp s) (incPress s)
           (incHumid s) (incIAQ s) (incCO2 s) (incLight s) (dataEntry s)
           (entryNum s) (writeTitles s) (dataFull s) (comms s) (requests s).

Definition withDataEntry (d : string) (s : logger) : logger :=
  mkLogger (delimiter s) (incDate s) (incTime s) (incTemp s) (incPress s)
           (incHumid s) (incIAQ s) (incCO2 s) (incLight s) d
           (entryNum s) (writeTitles s) (dataFull s) (comms s) (requests s).

Definition withEntryNum (n : Z) (full : bool) (s : logger) : logger :=
  mkLogger (delimiter s) (incDate s) (incTime s) (incTemp s) (incPress s)
           (incHumid s) (incIAQ s) (incCO2 s) (incLight s) (dataEntry s)
           n (writeTitles s) full (comms s) (requests s).

Definition withWriteTitles (w : bool) (s : logger) : logger :=
  mkLogger (delimiter s) (incDate s) (incTime s) (incTemp s) (incPress s)
           (incHumid s) (incIAQ s) (incCO2 s) (incLight s) (dataEntry s)
           (entryNum s) w (dataFull s) (comms s) (requests s).

Definition withComms (c : Z) (s : logger) : logger :=
  mkLogger (delimiter s) (incDate s) (incTime s) (incTemp s) (incPress s)
           (incHumid s) (incIAQ s) (incCO2 s) (incLight s) (dataEntry s)
           (entryNum s) (writeTitles s) (dataFull s) c (requests s).

Definition setDataForUSB (s : logger) : logger :=
  request RedirectToUSB (withComms USB s).

Definition selectSeparator (charSelect : Separator) (s : logger) : logger :=
  match charSelect with
  | tab => withDelimiter TAB s
  | semicolon => withDelimiter ";" s
  | comma => withDelimiter "," s
  | space => withDelimiter " " s
  end.

(** [text + field + delimiter] when the field is included. *)
Definition addField (inc : bool) (field : string) (s : logger)
    (text : string) : string :=
  if inc then String.append (String.append text field) (delimiter s)
  else text.

(** Stores the header in block 21 and the column headings in block
    23. *)
Definition storeTitles (s : logger) : logger :=
  let kitronikHeader :=
    String.append
      "Kitronik Data Logger - Air Quality & Environmental Board - www.kitronik.co.uk"
      CRLF in
  let s := request (WriteBlock kitronikHeader 21) s in
  let headings := ""%string in
  let headings := addField (incDate s) "Date" s headings in
  let headings := addField (incTime s) "Time" s headings in
  let headings := addField (incTemp s) "Temperature" s headings in
  let headings := addField (incPress s) "Pressure" s headings in
  let headings := addField (incHumid s) "Humidity" s headings in
  let headings := addField (incIAQ s) "IAQ Score" s headings in
  let headings := addField (incCO2 s) "eCO2" s headings in
  let headings := addField (incLight s) "Light" s headings in
  let headings := String.append headings CRLF in
  let s := request (WriteBlock headings 23) s in
  withWriteTitles true s.

(** [dataEntry] is extended, never emptied; its text goes to the block
    of the entry and the entry number to the two index bytes. *)
Definition logData (r : readings) (s : logger) : logger :=
  let s := if writeTitles s then s else storeTitles s in
  let entry := dataEntry s in
  let entry := addField (incDate s) (logDate r) s entry in
  let entry := addField (incTime s) (logTime r) s entry in
  let entry := addField (incTemp s) (logTemp r) s entry in
  let entry := addField (incPress s) (logPress r) s entry in
  let entry := addField (incHumid s) (logHumid r) s entry in
  let entry := addField (incIAQ s) (logIAQ r) s entry in
  let entry := addField (incCO2 s) (logCO2 r) s entry in
  let entry := addField (incLight s) (logLight r) s entry in
  let s := withDataEntry entry s in
  let s :=
    request (WriteBlock (String.append (dataEntry s) CRLF)
                        (firstDataBlock + entryNum s)) s in
  let entryNum_H := Z.shiftr (wrap32 (entryNum s)) 8 in
  let entryNum_L := Z.land (wrap32 (entryNum s)) 0xFF in
  let s := request (WriteByte entryNum_H (12 * 128)) s in
  let s := request (WriteByte entryNum_L (12 * 128 + 1)) s in
  if entryNum s =? 999 then withEntryNum 0 true s
  else withEntryNum (entryNum s + 1) (dataFull s) s.

Section Transfer.

(** What the memory chip returns for a block and for a byte. *)
Variable readBlock : Z -> string.
Variable readByte : Z -> Z.

(** [data = EEPROM.readBlock(block); serial.writeString(data)]. *)
Definition sendBlock (s : logger) (block : Z) : logger :=
  request (SerialWrite (readBlock block)) (request (ReadBlock block) s).

Definition sendAllData (s : logger) : logger :=
  let s := if comms s =? NONE then setDataForUSB s else s in
  let s := sendBlock s 21 in
  let s := sendBlock s 22 in
  let s := sendBlock s 23 in
  if dataFull s then
    fold_left sendBlock (seqZ firstDataBlock (1024 - firstDataBlock)) s
  else
    let s := request (ReadByte (12 * 128)) s in
    let hi := readByte (12 * 128) in
    let s := request (ReadByte (12 * 128 + 1)) s in
    let lo := readByte (12 * 128 + 1) in
    let lastEntry := Z.lor (jsShl hi 8) (wrap32 lo) in
    fold_left sendBlock (seqZ firstDataBlock lastEntry) s.

End Transfer.

(** ** Statements about the clock and the logger *)

(** Days of a month of the Gregorian calendar. *)
Definition leapYear (year : Z) : bool :=
  ((year mod 4 =? 0) && negb (year mod 100 =? 0)) || (year mod 400 =? 0).

Definition daysInMonth (month year : Z) : Z :=
  if month =? 2 then (if leapYear year then 29 else 28)
  else if (month =? 4) || (month =? 6) || (month =? 9) || (month =? 11)
       then 30
  else 31.

(** A logger set to log date, time and temperature, separated by
    commas, and one set of readings. *)
Definition sampleLogger : logger :=
  mkLogger "," true true true false false false false false
           "" 0 false false NONE [].

Definition sampleReadings : readings :=
  mkReadings "01/01/24" "12:00:00" "21" "1013" "40" "25" "400" "100".

(** Calls of [logData], one per set of readings. *)
Definition logAll (rs : list readings) (s : logger) : logger :=
  fold_left (fun s r => logData r s) rs s.

(** The text one call of [logData] appends to [dataEntry]. *)
Definition entryText (s : logger) (r : readings) : string :=
  addField (incLight s) (logLight r) s
    (addField (incCO2 s) (logCO2 r) s
       (addField (incIAQ s) (logIAQ r) s
          (addField (incHumid s) (logHumid r) s
             (addField (incPress s) (logPress r) s
                (addField (incTemp s) (logTemp r) s
                   (addField (incTime s) (logTime r) s
                      (addField (incDate s) (logDate r) s ""))))))).

(** The data blocks written, in order. *)
Definition blocksWritten (evs : list logEvent) : list Z :=
  flat_map (fun e => match e with WriteBlock _ b => [b] | _ => [] end) evs.

(** The blocks read, in order. *)
Definition blocksRead (evs : list logEvent) : list Z :=
  flat_map (fun e => match e with ReadBlock b => [b] | _ => [] end) evs.

(** The byte last written to an address of the memory chip. *)
Definition storedByte (addr : Z) (evs : list logEvent) : option Z :=
  fold_left (fun v e =>
               match e with
               | WriteByte d a => if a =? addr then Some d else v
               | _ => v
               end) evs None.

(** The requests a call added. *)
Definition newRequests (s s' : logger) : list logEvent :=
  drop (length (requests s)) (requests s').

(** The text of [dataEntry] after entries for [rs] have been added to
    [text]. *)
Definition entriesText (s : logger) (rs : list readings) (text : string)
  : string :=
  fold_left (fun text r => String.append text (entryText s r)) rs text.

(** The requests of [storeTitles], when [logData] makes them. *)
Definition titleBlocks (s : logger) (rs : list readings) : list Z :=
  match rs with
  | [] => []
  | _ :: _ => if writeTitles s then [] else [21; 23]
  end.

(** The same settings. *)
Definition sameSettings (s s' : logger) : Prop :=
  delimiter s' = delimiter s /\ incDate s' = incDate s
  /\ incTime s' = incTime s /\ incTemp s' = incTemp s
  /\ incPress s' = incPress s /\ incHumid s' = incHumid s
  /\ incIAQ s' = incIAQ s /\ incCO2 s' = incCO2 s
  /\ incLight s' = incLight s.

(** * Properties *)

Lemma run_nil ack s : run ack [] s = s.
Proof. reflexivity. Qed.

Lemma run_cons ack c cs s : run ack (c :: cs) s = run ack cs (exec ack c s).
Proof. reflexivity. Qed.

Lemma plotPart_eq s s' :
  plotPart s = plotPart s' ->
  plotArray s = plotArray s' /\ graphYMin s = graphYMin s'
  /\ graphYMax s = graphYMax s'.
Proof. unfold plotPart. intros H. injection H. auto. Qed.

(** ** Generic facts on loops *)

Lemma fold_left_proj {A B : Type} (proj : state -> B)
    (f : state -> A -> state) (l : list A) :
  (forall s a, proj (f s a) = proj s) ->
  forall s, proj (fold_left f l s) = proj s.
Proof.
  intros Hf. induction l as [|a l IH]; intros s; simpl; [reflexivity|].
  rewrite IH. apply Hf.
Qed.

(** ** The plot fields are touched by [plot] only *)

Section PlotFrame.

Variable ack : nat -> Z -> Z.

Ltac frame_tac :=
  repeat match goal with
         | |- context [if ?b then _ else _] => destruct b
         end;
  reflexivity.

Lemma plotPart_clearBody s : plotPart (clearBody s) = plotPart s.
Proof. reflexivity. Qed.

Lemma plotPart_initDisplay screen s :
  plotPart (initDisplay ack screen s) = plotPart s.
Proof. unfold initDisplay. frame_tac. Qed.

Lemma plotPart_lazyInit screen s :
  plotPart (lazyInit ack screen s) = plotPart s.
Proof.
  unfold lazyInit. destruct (initialised s =? 0); [|reflexivity].
  apply plotPart_initDisplay.
Qed.

Lemma plotPart_setPixel x y screen s :
  plotPart (setPixel ack x y screen s) = plotPart s.
Proof.
  unfold setPixel.
  change (plotPart (lazyInit ack None (withAddress (setScreenAddr screen) s))
          = plotPart s).
  now rewrite plotPart_lazyInit.
Qed.

Lemma plotPart_clearPixel x y screen s :
  plotPart (clearPixel ack x y screen s) = plotPart s.
Proof.
  unfold clearPixel.
  change (plotPart (lazyInit ack (Some 1)
                      (withAddress (setScreenAddr screen) s))
          = plotPart s).
  now rewrite plotPart_lazyInit.
Qed.

Lemma plotPart_renderLine inputString align r textLine displayString :
  plotPart (r_state (renderLine inputString align r textLine displayString))
  = plotPart (r_state r).
Proof.
  unfold renderLine.
  destruct (rasterChars _ _ _ _ _) as [ind buf]. reflexivity.
Qed.

Lemma plotPart_renderLines inputString align lines :
  forall textLine r,
    plotPart (r_state (renderLines inputString align lines textLine r))
    = plotPart (r_state r).
Proof.
  induction lines as [|d rest IH]; intros textLine r; simpl;
    [reflexivity|].
  rewrite IH. apply plotPart_renderLine.
Qed.

Lemma plotPart_show inputData line align screen s :
  plotPart (show ack inputData line align screen s) = plotPart s.
Proof.
  unfold show. rewrite plotPart_renderLines. simpl.
  now rewrite plotPart_lazyInit.
Qed.

Lemma plotPart_clearLine line screen s :
  plotPart (clearLine ack line screen s) = plotPart s.
Proof.
  unfold clearLine. rewrite plotPart_show. now rewrite plotPart_lazyInit.
Qed.

Lemma plotPart_drawLine d len x y screen s :
  plotPart (drawLine ack d len x y screen s) = plotPart s.
Proof.
  destruct d; simpl; apply fold_left_proj; intros;
    apply plotPart_setPixel.
Qed.

Lemma plotPart_drawRect w h x y screen s :
  plotPart (drawRect ack w h x y screen s) = plotPart s.
Proof. unfold drawRect. now rewrite !plotPart_drawLine. Qed.

Lemma plotPart_clear screen s : plotPart (clear ack screen s) = plotPart s.
Proof.
  unfold clear. rewrite plotPart_clearBody. now rewrite plotPart_lazyInit.
Qed.

Lemma plotPart_controlDisplayOnOff b screen s :
  plotPart (controlDisplayOnOff ack b screen s) = plotPart s.
Proof.
  unfold controlDisplayOnOff. destruct b;
    change (plotPart (lazyInit ack (Some 1)
                        (withAddress (setScreenAddr screen) s))
            = plotPart s);
    now rewrite plotPart_lazyInit.
Qed.

Lemma plotPart_refresh screen s :
  plotPart (refresh ack screen s) = plotPart s.
Proof.
  unfold refresh.
  change (plotPart (lazyInit ack (Some 1)
                      (withAddress (setScreenAddr screen) s))
          = plotPart s).
  now rewrite plotPart_lazyInit.
Qed.

Lemma plotPart_invert b screen s :
  plotPart (invert ack b screen s) = plotPart s.
Proof.
  unfold invert.
  change (plotPart (lazyInit ack (Some 1)
                      (withAddress (setScreenAddr screen) s))
          = plotPart s).
  now rewrite plotPart_lazyInit.
Qed.

Lemma plotPart_plotColumn s arrayPosition :
  plotPart (plotColumn s arrayPosition) = plotPart s.
Proof.
  unfold plotColumn.
  destruct (arrayPosition =? 0);
    destruct (segmentOf _ _) as [y3 len]; reflexivity.
Qed.

Lemma plotPart_redraw plotLength s :
  plotPart (redraw plotLength s) = plotPart s.
Proof. apply fold_left_proj. apply plotPart_plotColumn. Qed.

(** What [plot] leaves in the plot fields. *)
Lemma plotPart_plot v screen s :
  plotPart (plot ack v screen s) = plotPart (recordSample v s).
Proof.
  unfold plot. rewrite plotPart_refresh, plotPart_redraw.
  set (s1 := lazyInit ack (Some 1) (withAddress (setScreenAddr screen) s)).
  assert (H : plotPart s1 = plotPart s)
    by (unfold s1; now rewrite plotPart_lazyInit).
  apply plotPart_eq in H. destruct H as (Ha & Hlo & Hhi).
  unfold plotPart, recordSample. simpl. now rewrite Ha, Hlo, Hhi.
Qed.

(** Every call but [plot] leaves them alone. *)
Lemma plotPart_exec c s :
  plotPart (exec ack c s)
  = match c with
    | Plot v _ => plotPart (recordSample v s)
    | _ => plotPart s
    end.
Proof.
  destruct c; simpl;
    auto using plotPart_initDisplay, plotPart_setPixel, plotPart_clearPixel,
      plotPart_show, plotPart_clearLine, plotPart_drawLine,
      plotPart_drawRect, plotPart_clear, plotPart_controlDisplayOnOff,
      plotPart_plot, plotPart_refresh, plotPart_invert.
Qed.

End PlotFrame.

(** ** The sample window and the scale *)

Section PlotWindow.

Variable ack : nat -> Z -> Z.

Lemma plotArray_recordSample v s :
  plotArray (recordSample v s) = slideWindow (plotArray s) (Math_round v).
Proof.
  unfold recordSample, slideWindow. simpl.
  destruct (decide (length (plotArray s) = 127%nat)) as [E|E].
  - rewrite E. simpl. now destruct (plotArray s).
  - destruct (Z.eqb_spec (Z.of_nat (length (plotArray s))) 127) as [E'|E'];
      [lia|reflexivity].
Qed.

Lemma graphYMin_recordSample v s :
  graphYMin (recordSample v s) = Z.min (Math_round v) (graphYMin s).
Proof.
  unfold recordSample. simpl.
  destruct (Z.ltb_spec (Math_round v) (graphYMin s)); lia.
Qed.

Lemma graphYMax_recordSample v s :
  graphYMax (recordSample v s) = Z.max (Math_round v) (graphYMax s).
Proof.
  unfold recordSample. simpl.
  destruct (Z.gtb_spec (Math_round v) (graphYMax s)); lia.
Qed.

Lemma plotArray_plot v screen s :
  plotArray (plot ack v screen s) = slideWindow (plotArray s) (Math_round v).
Proof.
  destruct (plotPart_eq _ _ (plotPart_plot ack v screen s)) as (Ha & _).
  rewrite Ha. apply plotArray_recordSample.
Qed.

Lemma length_slideWindow w x :
  (length w <= 127)%nat -> (length (slideWindow w x) <= 127)%nat.
Proof.
  intros H. unfold slideWindow.
  destruct (decide (length w = 127%nat));
    rewrite length_app; [rewrite length_drop|]; simpl; lia.
Qed.

(** Sliding keeps the last 127 entries of everything recorded. *)
Lemma slideWindow_drop w x rest :
  (length w <= 127)%nat ->
  drop (length (slideWindow w x ++ rest) - 127) (slideWindow w x ++ rest)
  = drop (length (w ++ x :: rest) - 127) (w ++ x :: rest).
Proof.
  intros H. unfold slideWindow.
  destruct (decide (length w = 127%nat)) as [E|E].
  - destruct w as [|a w]; [discriminate|]. simpl in E.
    change (drop 1 (a :: w)) with w.
    rewrite <- !app_assoc. simpl app. simpl length.
    assert (L : (127 <= length (w ++ x :: rest))%nat)
      by (rewrite length_app; simpl; lia).
    replace (S (length (w ++ x :: rest)) - 127)%nat
      with (S (length (w ++ x :: rest) - 127))%nat by lia.
    reflexivity.
  - now rewrite <- app_assoc.
Qed.

Lemma plotArray_run_plots ps :
  forall s,
    (length (plotArray s) <= 127)%nat ->
    plotArray (run ack (map plotCall ps) s)
    = drop (length (plotArray s ++ map (fun p => Math_round (fst p)) ps)
            - 127)
           (plotArray s ++ map (fun p => Math_round (fst p)) ps).
Proof.
  induction ps as [|p ps IH]; intros s Hlen.
  - simpl. rewrite app_nil_r.
    replace (length (plotArray s) - 127)%nat with 0%nat by lia.
    reflexivity.
  - rewrite map_cons, run_cons. change (exec ack (plotCall p) s)
      with (plot ack (fst p) (snd p) s).
    rewrite IH.
    + rewrite plotArray_plot. simpl map. now apply slideWindow_drop.
    + rewrite plotArray_plot. now apply length_slideWindow.
Qed.

Lemma plotArray_exec_length c s :
  (length (plotArray s) <= 127)%nat ->
  (length (plotArray (exec ack c s)) <= 127)%nat.
Proof.
  intros H. pose proof (plotPart_exec ack c s) as E.
  destruct c; apply plotPart_eq in E; destruct E as (Ha & _);
    rewrite Ha; try assumption.
  rewrite plotArray_recordSample. now apply length_slideWindow.
Qed.

Lemma plotArray_run_length cs :
  forall s,
    (length (plotArray s) <= 127)%nat ->
    (length (plotArray (run ack cs s)) <= 127)%nat.
Proof.
  induction cs as [|c cs IH]; intros s H; [assumption|].
  rewrite run_cons. apply IH. now apply plotArray_exec_length.
Qed.

(** The scale only widens. *)
Lemma scale_exec c s :
  graphYMin (exec ack c s) <= graphYMin s
  /\ graphYMax s <= graphYMax (exec ack c s).
Proof.
  pose proof (plotPart_exec ack c s) as E.
  destruct c; apply plotPart_eq in E; destruct E as (_ & Hlo & Hhi);
    rewrite Hlo, Hhi; try lia.
  rewrite graphYMin_recordSample, graphYMax_recordSample. lia.
Qed.

Lemma scale_run cs :
  forall s,
    graphYMin (run ack cs s) <= graphYMin s
    /\ graphYMax s <= graphYMax (run ack cs s).
Proof.
  induction cs as [|c cs IH]; intros s; [rewrite run_nil; lia|].
  rewrite run_cons. specialize (IH (exec ack c s)).
  pose proof (scale_exec c s). lia.
Qed.

Lemma inScale_recordSample v s : inScale s -> inScale (recordSample v s).
Proof.
  unfold inScale. intros H.
  rewrite plotArray_recordSample, graphYMin_recordSample,
    graphYMax_recordSample.
  unfold slideWindow. apply Forall_app. split.
  - assert (H' : Forall (fun v0 => Z.min (Math_round v) (graphYMin s) <= v0
                                   <= Z.max (Math_round v) (graphYMax s))
                        (plotArray s))
      by (eapply Forall_impl; [exact H|]; simpl; intros; lia).
    destruct (decide _); [now apply Forall_drop|exact H'].
  - constructor; [lia|constructor].
Qed.

Lemma inScale_exec c s : inScale s -> inScale (exec ack c s).
Proof.
  intros H. pose proof (plotPart_exec ack c s) as E.
  unfold inScale.
  destruct c; apply plotPart_eq in E; destruct E as (Ha & Hlo & Hhi);
    rewrite Ha, Hlo, Hhi; try exact H.
  now apply inScale_recordSample.
Qed.

Lemma inScale_run cs : forall s, inScale s -> inScale (run ack cs s).
Proof.
  induction cs as [|c cs IH]; intros s H; [assumption|].
  rewrite run_cons. apply IH. now apply inScale_exec.
Qed.

Lemma plotOk_spec s :
  plotOk s = true
  <-> graphYMin s < graphYMax s /\ inScale s
      /\ (length (plotArray s) <= 127)%nat.
Proof.
  unfold plotOk, inScale.
  rewrite !andb_true_iff, Z.ltb_lt, Nat.leb_le, forallb_forall,
    Forall_forall.
  split.
  - intros [[H1 H2] H3]. split; [assumption|split; [|assumption]].
    intros x Hx. apply list_elem_of_In, H2 in Hx. lia.
  - intros (H1 & H2 & H3). split; [split|]; try assumption.
    intros x Hx. apply list_elem_of_In, H2 in Hx. lia.
Qed.

Lemma plotOk_recordSample v s :
  plotOk s = true -> plotOk (recordSample v s) = true.
Proof.
  rewrite !plotOk_spec. intros (H1 & H2 & H3). split; [|split].
  - rewrite graphYMin_recordSample, graphYMax_recordSample. lia.
  - now apply inScale_recordSample.
  - rewrite plotArray_recordSample. now apply length_slideWindow.
Qed.

(** The divisor of [pins.map] in [plot] is never zero: from the start
    of the program the scale spans at least 0 to 100. *)
Lemma graph_range_positive cs :
  graphYMax (run ack cs initState) - graphYMin (run ack cs initState) >= 100.
Proof. pose proof (scale_run cs initState) as H. simpl in H. lia. Qed.

Lemma plotOk_run cs : plotOk (run ack cs initState) = true.
Proof.
  apply plotOk_spec. split; [|split].
  - pose proof (graph_range_positive cs). lia.
  - apply inScale_run. constructor.
  - apply plotArray_run_length. simpl. lia.
Qed.

(** C2.  Starting from an empty sample buffer, 130 calls of [plot] leave
    exactly 127 samples, the rounded arguments of calls 4 to 130 in
    order; each call turns the window into [slideWindow] of it (the
    oldest entry dropped when 127 are held, the rounded sample
    appended); and the window never holds more than 127 entries. *)
Theorem plot_sliding_window (s : state) (ps : list (Q * option Z)) :
  plotArray s = [] ->
  length ps = 130%nat ->
  let s' := run ack (map plotCall ps) s in
  length (plotArray s') = 127%nat
  /\ plotArray s' = map (fun p => Math_round (fst p)) (drop 3 ps)
  /\ (forall s0 v screen,
         plotArray (plot ack v screen s0)
         = slideWindow (plotArray s0) (Math_round v))
  /\ (forall cs s0,
         (length (plotArray s0) <= 127)%nat ->
         (length (plotArray (run ack cs s0)) <= 127)%nat).
Proof.
  intros Hs Hps s'.
  assert (E : plotArray s' = map (fun p => Math_round (fst p)) (drop 3 ps)).
  { unfold s'. rewrite plotArray_run_plots by (rewrite Hs; simpl; lia).
    rewrite Hs. simpl. rewrite length_map, Hps.
    change (130 - 127)%nat with 3%nat. apply skipn_map. }
  split; [|split; [exact E|split]].
  - rewrite E, length_map, length_drop, Hps. reflexivity.
  - intros. apply plotArray_plot.
  - intros. now apply plotArray_run_length.
Qed.

(** C3, for finite arguments.  In every state the program can reach
    by calls whose [plot] arguments are finite numbers, every recorded
    sample lies between [graphYMin] and [graphYMax]; and whatever is
    called with such arguments, in whatever state, [graphYMin] does not
    increase and [graphYMax] does not decrease. *)
Theorem graph_scale_invariant :
  (forall cs,
      let s := run ack cs initState in
      Forall (fun v => graphYMin s <= v <= graphYMax s) (plotArray s))
  /\ (forall cs s,
         graphYMin (run ack cs s) <= graphYMin s
         /\ graphYMax s <= graphYMax (run ack cs s)).
Proof.
  split.
  - intros cs. apply (inScale_run cs initState). constructor.
  - intros cs s. apply scale_run.
Qed.

End PlotWindow.

(** On a finite argument [recordSampleNum] is [recordSample]. *)
Lemma recordSampleNum_finite (v : Q) (s : state) :
  recordSampleNum (Fin v) (plotVarsOf s) = plotVarsOf (recordSample v s).
Proof.
  assert (L : forall a b : Z, Qltb (inject_Z a) (inject_Z b) = (a <? b)).
  { intros a b. unfold Qltb. rewrite Z.ltb_antisym. f_equal.
    destruct (Z.leb_spec b a) as [H|H].
    - apply Qle_bool_iff. now rewrite <- Zle_Qle.
    - destruct (Qle_bool _ _) eqn:E; [|reflexivity].
      apply Qle_bool_iff in E. rewrite <- Zle_Qle in E. lia. }
  unfold recordSampleNum, recordSample, plotVarsOf. cbn.
  rewrite length_map.
  f_equal.
  - rewrite map_app. cbn. f_equal.
    destruct (_ =? 127); [|reflexivity].
    now destruct (plotArray s).
  - rewrite L. now destruct (_ <? _).
  - rewrite L, Z.gtb_ltb. now destruct (_ <? _).
Qed.

(** The claim of C3 fails for an argument that is not a number: the
    first [plot(NaN)] of a program stores NaN and leaves the scale at 0
    to 100, and NaN is neither at least [graphYMin] nor at most
    [graphYMax], both comparisons being false. *)
Lemma graph_scale_invariant_counterexample :
  let p := recordSampleNum NaN (plotVarsOf initState) in
  plotArrayNum p = [NaN]
  /\ graphYMinNum p = ofZ 0 /\ graphYMaxNum p = ofZ 100
  /\ Exists (fun v => nle (graphYMinNum p) v = false) (plotArrayNum p)
  /\ Exists (fun v => nle v (graphYMaxNum p) = false) (plotArrayNum p).
Proof.
  cbv zeta. split; [reflexivity|]. split; [reflexivity|].
  split; [reflexivity|].
  split; apply Exists_cons_hd; reflexivity.
Qed.

(** The statement of C2 at work on the inputs 1/2, 3/2, ..., 259/2. *)
Lemma plot_sliding_window_witness :
  let ps := map (fun k => (Qmake (2 * Z.of_nat k + 1) 2, @None Z))
                (seq 0 130) in
  plotArray initState = []
  /\ length ps = 130%nat
  /\ plotArray (run alwaysPresent (map plotCall ps) initState)
     = map (fun p => Math_round (fst p)) (drop 3 ps).
Proof.
  intros ps. split; [reflexivity|split; [reflexivity|]].
  exact (proj1 (proj2 (plot_sliding_window alwaysPresent initState ps
                         eq_refl eq_refl))).
Defined.

(** ** Text renderer *)

Lemma length_substring_0 (n : nat) (s : string) :
  String.length (String.substring 0 n s) = Nat.min n (String.length s).
Proof.
  revert s. induction n as [|n IH]; intros [|c s]; simpl; try reflexivity.
  now rewrite IH.
Qed.

Lemma substring_0_prefix (n : nat) (s : string) :
  exists rest, s = String.append (String.substring 0 n s) rest.
Proof.
  revert s. induction n as [|n IH]; intros [|c s]; simpl.
  - now exists ""%string.
  - now exists (String c s).
  - now exists ""%string.
  - destruct (IH s) as [rest E]. exists rest.
    change (String c s
            = String c (String.append (String.substring 0 n s) rest)).
    now rewrite <- E.
Qed.

Lemma Math_round_half (k : Z) :
  Math_round (inject_Z k / inject_Z 2)%Q = (k + 1) / 2.
Proof.
  unfold Math_round. rewrite Zdiv_Qdiv. apply Qfloor_comp.
  rewrite inject_Z_plus. field.
Qed.

(** The centred start column in integer arithmetic. *)
Lemma specStartColumn_centre (textLine : Z) (displayString : string) :
  specStartColumn Centre textLine displayString
  = (27 - strLen displayString) / 2.
Proof.
  unfold specStartColumn. rewrite Math_round_half. f_equal. lia.
Qed.

Section Text.

Variable ack : nat -> Z -> Z.

Lemma lazyInit_done screen s :
  initialised s <> 0 -> lazyInit ack screen s = s.
Proof.
  intros H. unfold lazyInit.
  now destruct (Z.eqb_spec (initialised s) 0).
Qed.

Lemma bus_set_pos col page s :
  bus (set_pos col page s) = bus s ++ posEvents (displayAddress s) col page.
Proof.
  unfold set_pos, writeOneByte, i2cWrite, posEvents. simpl.
  now rewrite <- !app_assoc.
Qed.

Lemma renderLine_bus inputString align r textLine displayString :
  let r' := renderLine inputString align r textLine displayString in
  exists payload,
    bus (r_state r')
    = bus (r_state r)
      ++ posEvents (displayAddress (r_state r)) (r_x r' * 5) (r_y r)
      ++ [I2CWrite (displayAddress (r_state r)) payload]
    /\ (payload = [] \/ exists rest, payload = 0x40 :: rest)
    /\ displayAddress (r_state r') = displayAddress (r_state r)
    /\ r_y r' = r_y r + 1
    /\ r_x r'
       = alignColumn inputString align textLine displayString (r_x r).
Proof.
  unfold renderLine.
  destruct (rasterChars _ _ _ _ _) as [ind buf] eqn:E. simpl.
  eexists. split; [|split; [|auto]].
  - rewrite <- !app_assoc. reflexivity.
  - unfold setByte. simpl.
    destruct (bufSlice buf _ _) as [|b rest]; [now left|right].
    now exists rest.
Qed.

(** The rendering loop positions the controller at the columns
    [startColumns] lists, one row further down for each line, and sends
    one buffer per line. *)
Lemma renderLines_bus inputString align lines :
  forall textLine r,
    let r' := renderLines inputString align lines textLine r in
    exists payloads,
      length payloads = length lines
      /\ Forall (fun p => p = [] \/ exists rest, p = 0x40 :: rest) payloads
      /\ bus (r_state r')
         = bus (r_state r)
           ++ lineEvents (displayAddress (r_state r))
                (startColumns inputString align lines textLine (r_x r))
                (r_y r) payloads.
Proof.
  induction lines as [|d rest IH]; intros textLine r.
  - exists []. simpl. rewrite app_nil_r. auto.
  - simpl.
    destruct (renderLine_bus inputString align r textLine d)
      as (p & Hb & Hp & Ha & Hy & Hx).
    destruct (IH (textLine + 1)
                 (renderLine inputString align r textLine d))
      as (ps & Hlen & Hps & Hbus).
    exists (p :: ps). split; [simpl; now rewrite Hlen|].
    split; [now constructor|].
    rewrite Hbus, Hb, Ha, Hy, Hx. simpl.
    rewrite <- !app_assoc. reflexivity.
Qed.

(** The last statement of [initDisplay]: with the flag set, [clear()] is
    the body that [initDisplay] is defined with. *)
Lemma initDisplay_calls_clear s :
  initialised s <> 0 ->
  clear ack None s = clearBody (withAddress (setScreenAddr None) s).
Proof. intros H. unfold clear. now rewrite lazyInit_done. Qed.

(** C5.  When the space-appended text is longer than 26 characters and
    [show] is called with line 8, the text is not wrapped: the only line
    is the first 25 characters of the space-appended text, and the
    rendering loop runs once, on that line, at row 7. *)
Theorem show_last_row (inputData : string) (align : option ShowAlign)
    (screen : option Z) (s : state) :
  let inputString := String.append inputData " " in
  let line := substr inputString 0 25 in
  strLen inputString > 26 ->
  showLines inputString (startRow (Some 8)) = [line]
  /\ strLen line = 25
  /\ (exists rest, inputString = String.append line rest)
  /\ show ack inputData (Some 8) align screen s
     = r_state
         (renderLine inputString (default Left align)
            (mkRender 0 7 0
               (lazyInit ack (Some 1)
                  (withAddress (setScreenAddr screen) s)))
            0 line).
Proof.
  intros inputString line H.
  assert (E : showLines inputString (startRow (Some 8)) = [line]).
  { unfold showLines. simpl startRow.
    destruct (Z.gtb_spec (strLen inputString) NUMBER_OF_CHAR_PER_LINE)
      as [_|Hn]; [reflexivity|].
    unfold NUMBER_OF_CHAR_PER_LINE in Hn. lia. }
  split; [exact E|split; [|split]].
  - unfold line, substr, strLen in *. simpl Z.to_nat.
    rewrite length_substring_0. lia.
  - apply substring_0_prefix.
  - unfold show. fold inputString. rewrite E. reflexivity.
Qed.

(** The start column does not depend on the line when the text is not
    short. *)
Lemma startColumns_long inputString align lines :
  25 <= strLen inputString ->
  forall textLine x,
    startColumns inputString align lines textLine x
    = replicate (length lines) x.
Proof.
  intros H. induction lines as [|d rest IH]; intros textLine x; simpl;
    [reflexivity|].
  unfold alignColumn.
  destruct (Z.ltb_spec (strLen inputString) (NUMBER_OF_CHAR_PER_LINE - 1))
    as [Hn|_]; [unfold NUMBER_OF_CHAR_PER_LINE in Hn; lia|].
  now rewrite IH.
Qed.

(** C6, as the code has it.  When the space-appended text is shorter
    than 25 characters it is rendered as one line (index 0) whose start
    column is 0 for Left, round((26 - length) / 2) for Centre and
    26 - length - 1 for Right, the length counting the appended space.
    For every longer text each line starts at column 0 whatever the
    alignment. *)
Theorem show_start_columns (inputData : string) (line : option Z)
    (align : option ShowAlign) :
  let inputString := String.append inputData " " in
  let lines := showLines inputString (startRow line) in
  let columns :=
    startColumns inputString (default Left align) lines 0 0 in
  (strLen inputString < 25 ->
   lines = [inputString]
   /\ columns = [specStartColumn (default Left align) 0 inputString])
  /\ (25 <= strLen inputString ->
      columns = replicate (length lines) 0).
Proof.
  intros inputString lines columns. split.
  - intros H.
    assert (E : lines = [inputString]).
    { unfold lines, showLines.
      destruct (Z.gtb_spec (strLen inputString) NUMBER_OF_CHAR_PER_LINE)
        as [Hn|_]; [unfold NUMBER_OF_CHAR_PER_LINE in Hn; lia|reflexivity]. }
    split; [exact E|].
    unfold columns. rewrite E. simpl. unfold alignColumn.
    destruct (Z.ltb_spec (strLen inputString) (NUMBER_OF_CHAR_PER_LINE - 1))
      as [_|Hn]; [|unfold NUMBER_OF_CHAR_PER_LINE in Hn; lia].
    destruct (default Left align); reflexivity.
  - intros H. unfold columns. now apply startColumns_long.
Qed.

Lemma show_start_columns_witness :
  (strLen "abc " < 25
   /\ startColumns "abc " Right (showLines "abc " 0) 0 0 = [21])
  /\ (25 <= strLen (String.append sixtyChars " ")
      /\ startColumns (String.append sixtyChars " ") Right
           (showLines (String.append sixtyChars " ") 0) 0 0
         = [0; 0; 0]).
Proof.
  split; split.
  - reflexivity.
  - destruct (show_start_columns "abc" (Some 1) (Some Right)) as [H _].
    destruct (H ltac:(reflexivity)) as [_ E]. exact E.
  - discriminate.
  - destruct (show_start_columns sixtyChars (Some 1) (Some Right))
      as [_ H].
    exact (H ltac:(discriminate)).
Defined.

(** The claim of C6 fails for a centred text of 24 characters: the code
    starts the line at column 0, the formula gives 1. *)
Lemma show_start_columns_counterexample :
  let inputString := String.append "aaaaaaaaaaaaaaaaaaaaaaaa" " " in
  let lines := showLines inputString (startRow (Some 1)) in
  lines = [inputString]
  /\ startColumns inputString Centre lines 0 0 = [0]
  /\ specStartColumn Centre 0 inputString = 1
  /\ startColumns inputString Centre lines 0 0
     <> [specStartColumn Centre 0 inputString].
Proof. repeat split; [reflexivity..|discriminate]. Qed.

(** C4 fails on the code: the second line cut from [sixtyChars] has 35
    characters and repeats the end of the text, which then appears once
    more as a third line. *)
Theorem show_wrap_overlong_line :
  let lines :=
    showLines (String.append sixtyChars " ") (startRow (Some 1)) in
  strLen sixtyChars = 60
  /\ lines = ["the quick brown fox jumps"%string;
              "over the lazy dog and runs far off "%string;
              "far off "%string]
  /\ strLen "over the lazy dog and runs far off " = 35
  /\ ~ Forall (fun l => strLen l <= 26) lines.
Proof.
  split; [reflexivity|split; [reflexivity|split; [reflexivity|]]].
  intros H. apply Forall_cons in H. destruct H as [_ H].
  apply Forall_cons in H. destruct H as [H _].
  vm_compute in H. now apply H.
Qed.

End Text.

(** The text of C5 at work on a 30-character input. *)
Lemma show_last_row_witness :
  let inputString :=
    String.append "abcdefghij klmnopqrs tuvwxyz.." " " in
  strLen inputString > 26
  /\ showLines inputString (startRow (Some 8))
     = ["abcdefghij klmnopqrs tuvw"%string].
Proof.
  split; [reflexivity|].
  exact (proj1 (show_last_row alwaysPresent
                  "abcdefghij klmnopqrs tuvwxyz.." None None initState
                  eq_refl)).
Defined.

(** ** The bus traffic of [show "HELLO"] *)

Section Hello.

Variable ack : nat -> Z -> Z.

Lemma newEvents_app s s' evs : bus s' = bus s ++ evs -> newEvents s s' = evs.
Proof. intros E. unfold newEvents. rewrite E. apply drop_app_length. Qed.

(** What one iteration of the rendering loop sends and stores. *)
Lemma renderLine_effect inputString align r textLine displayString :
  let x := alignColumn inputString align textLine displayString (r_x r) in
  let st := rasterChars (String.list_ascii_of_string displayString) 0 x
              (r_y r) (r_ind r, screenBuf (r_state r)) in
  let r' := renderLine inputString align r textLine displayString in
  bus (r_state r')
  = bus (r_state r)
    ++ posEvents (displayAddress (r_state r)) (x * 5) (r_y r)
    ++ [I2CWrite (displayAddress (r_state r))
          (setByte (bufSlice (snd st) (x * 5 + r_y r * 128) (fst st + 1))
                   0 0x40)]
  /\ screenBuf (r_state r') = snd st.
Proof.
  unfold renderLine.
  destruct (rasterChars _ _ _ _ _) as [ind buf]. simpl.
  split; [|reflexivity].
  rewrite <- !app_assoc. reflexivity.
Qed.

(** On an initialised display, [show "HELLO"] on line 1 rasterises six
    glyphs into bytes 1 to 30 of the framebuffer and sends them after
    the position commands. *)
Lemma show_hello_effect (s : state) (screen : option Z) :
  initialised s <> 0 ->
  length (screenBuf s) = 1025%nat ->
  let s' := show ack "HELLO" (Some 1) (Some Left) screen s in
  bus s' = bus s ++ posEvents (setScreenAddr screen) 0 0
                 ++ [I2CWrite (setScreenAddr screen) (0x40 :: helloColumns)]
  /\ screenBuf s'
     = take 1 (screenBuf s) ++ helloColumns ++ drop 31 (screenBuf s).
Proof.
  intros Hinit Hlen s'. unfold s', show.
  rewrite lazyInit_done by exact Hinit.
  change (showLines (String.append "HELLO" " ") (startRow (Some 1)))
    with [String.append "HELLO" " "].
  change (default Left (Some Left)) with Left.
  cbn [renderLines].
  match goal with
  | |- context [renderLine ?i ?a ?r ?t ?d] =>
      destruct (renderLine_effect i a r t d) as [Hbus Hbuf]
  end.
  rewrite Hbus, Hbuf. clear Hbus Hbuf.
  cbn [r_state r_x r_y r_ind].
  change (alignColumn (String.append "HELLO" " ") Left 0
            (String.append "HELLO" " ") 0) with 0.
  change (startRow (Some 1)) with 0.
  change (bus (withAddress (setScreenAddr screen) s)) with (bus s).
  change (screenBuf (withAddress (setScreenAddr screen) s))
    with (screenBuf s).
  change (displayAddress (withAddress (setScreenAddr screen) s))
    with (setScreenAddr screen).
  destruct (screenBuf s) as [|b0 buf] eqn:Eb; [discriminate Hlen|].
  do 30 (destruct buf as [|? buf]; [discriminate Hlen|]).
  match goal with
  | |- context [rasterChars ?cs ?c ?x ?y ?st] =>
      assert (E : rasterChars cs c x y st = (30, b0 :: helloColumns ++ buf))
        by (vm_compute; reflexivity)
  end.
  rewrite E. split; reflexivity.
Qed.

(** C7, as the code has it.  On an initialised display
    [show("HELLO", 1, Left)] performs exactly one bulk bus write, and
    its payload is the data marker followed by framebuffer columns 0 to
    29 of page 0: six glyphs of five columns, the glyph of the appended
    space included. *)
Theorem show_hello_bulk_write (s : state) (screen : option Z) :
  initialised s <> 0 ->
  length (screenBuf s) = 1025%nat ->
  let s' := show ack "HELLO" (Some 1) (Some Left) screen s in
  exists payload,
    bulkWrites (newEvents s s') = [payload]
    /\ coversColumns payload (screenBuf s') 0 0 29
    /\ payload = 0x40 :: helloColumns
    /\ newEvents s s'
       = posEvents (setScreenAddr screen) 0 0
         ++ [I2CWrite (setScreenAddr screen) payload].
Proof.
  intros Hinit Hlen s'.
  destruct (show_hello_effect s screen Hinit Hlen) as [Hbus Hbuf].
  fold s' in Hbus, Hbuf.
  exists (0x40 :: helloColumns).
  rewrite (newEvents_app _ _ _ Hbus).
  split; [reflexivity|split; [|split; reflexivity]].
  unfold coversColumns. f_equal. rewrite Hbuf.
  destruct (screenBuf s) as [|b0 buf]; [discriminate Hlen|].
  reflexivity.
Qed.

End Hello.

Lemma show_hello_bulk_write_witness :
  initialised readyState <> 0
  /\ length (screenBuf readyState) = 1025%nat
  /\ exists payload,
       bulkWrites
         (newEvents readyState
            (show alwaysPresent "HELLO" (Some 1) (Some Left) None
                  readyState))
       = [payload]
       /\ length payload = 31%nat.
Proof.
  assert (H1 : initialised readyState <> 0) by (vm_compute; discriminate).
  assert (H2 : length (screenBuf readyState) = 1025%nat)
    by (vm_compute; reflexivity).
  split; [exact H1|split; [exact H2|]].
  destruct (show_hello_bulk_write alwaysPresent readyState None H1 H2)
    as (payload & Hb & _ & Hp & _).
  exists payload. split; [exact Hb|]. rewrite Hp. reflexivity.
Defined.

(** The claim of C7 fails: the one bulk write of [show "HELLO"] does not
    carry columns 0 to 24 only. *)
Lemma show_hello_counterexample :
  let s' := show alwaysPresent "HELLO" (Some 1) (Some Left) None
              readyState in
  ~ exists payload,
      bulkWrites (newEvents readyState s') = [payload]
      /\ coversColumns payload (screenBuf s') 0 0 24.
Proof.
  intros s' (payload & Hb & Hc).
  vm_compute in Hb. injection Hb as <-.
  unfold coversColumns in Hc. vm_compute in Hc. discriminate Hc.
Qed.

(** ** Bytes and bits of the framebuffer *)

Lemma jsShl_1 (b : Z) : 0 <= b <= 7 -> jsShl 1 b = 2 ^ b.
Proof.
  intros H.
  assert (E : b = 0 \/ b = 1 \/ b = 2 \/ b = 3 \/ b = 4 \/ b = 5 \/ b = 6
              \/ b = 7) by lia.
  repeat (destruct E as [->|E]; [reflexivity|]). subst b. reflexivity.
Qed.

Lemma rem_8 (y : Z) : 0 <= y -> Z.rem y 8 = y mod 8.
Proof. intros H. apply Z.rem_mod_nonneg; lia. Qed.

Lemma clearBit_clearbit (d b : Z) :
  0 <= b <= 7 -> clearBit d b = Z.clearbit d b.
Proof.
  intros Hb. unfold clearBit. rewrite jsShl_1 by exact Hb.
  rewrite Z.clearbit_spec'.
  assert (Hbit : Z.testbit (Z.land d (2 ^ b)) b = Z.testbit d b).
  { rewrite Z.land_spec, Z.pow2_bits_eqb, Z.eqb_refl by lia.
    apply andb_true_r. }
  destruct (Z.eqb_spec (Z.land d (2 ^ b)) 0) as [E|E].
  - rewrite E, Z.bits_0 in Hbit.
    symmetry. apply Z.bits_inj'. intros i Hi.
    rewrite Z.ldiff_spec, Z.pow2_bits_eqb by lia.
    destruct (Z.eqb_spec b i) as [<-|_];
      [rewrite <- Hbit; reflexivity | apply andb_true_r].
  - apply Z.sub_nocarry_ldiff.
    apply Z.bits_inj'. intros i Hi.
    rewrite Z.ldiff_spec, Z.pow2_bits_eqb, Z.bits_0 by lia.
    destruct (Z.eqb_spec b i) as [<-|_]; [|reflexivity].
    destruct (Z.testbit d b) eqn:Ed; [reflexivity|].
    exfalso. apply E. apply Z.bits_inj'. intros j Hj.
    rewrite Z.land_spec, Z.pow2_bits_eqb, Z.bits_0 by lia.
    destruct (Z.eqb_spec b j) as [<-|_];
      [rewrite Ed; reflexivity | apply andb_false_r].
Qed.

Lemma length_setByte (buf : buffer) (i v : Z) :
  length (setByte buf i v) = length buf.
Proof.
  unfold setByte. destruct (0 <=? i); [apply length_insert|reflexivity].
Qed.

Lemma getByte_setByte_eq (buf : buffer) (i v : Z) :
  0 <= i < Z.of_nat (length buf) ->
  getByte (setByte buf i v) i = Z.land v 255.
Proof.
  intros H. unfold getByte, setByte.
  destruct (Z.leb_spec 0 i); [|lia].
  rewrite list_lookup_insert_eq by lia. reflexivity.
Qed.

Lemma getByte_setByte_ne (buf : buffer) (i j v : Z) :
  i <> j -> getByte (setByte buf i v) j = getByte buf j.
Proof.
  intros H. unfold getByte, setByte.
  destruct (Z.leb_spec 0 i); [|reflexivity].
  destruct (Z.leb_spec 0 j); [|reflexivity].
  rewrite list_lookup_insert_ne by lia. reflexivity.
Qed.

Lemma wfBuf_length (buf : buffer) :
  wfBuf buf = true -> length buf = 1025%nat.
Proof.
  unfold wfBuf. rewrite andb_true_iff, Nat.eqb_eq. tauto.
Qed.

Lemma wfBuf_getByte (buf : buffer) (i : Z) :
  wfBuf buf = true -> 0 <= getByte buf i < 256.
Proof.
  unfold wfBuf. rewrite andb_true_iff, forallb_forall. intros [_ H].
  unfold getByte. destruct (0 <=? i); [|lia].
  destruct (buf !! Z.to_nat i) as [b|] eqn:E; simpl; [|lia].
  apply list_elem_of_lookup_2, list_elem_of_In, H in E.
  unfold isByte in E. lia.
Qed.

Lemma testbit_255 (i : Z) : 0 <= i -> Z.testbit 255 i = (i <? 8).
Proof.
  intros H. change 255 with (Z.ones 8).
  destruct (Z.ltb_spec i 8).
  - apply Z.ones_spec_low. lia.
  - apply Z.ones_spec_high. lia.
Qed.

Lemma testbit_byte_high (b i : Z) :
  0 <= b < 256 -> 8 <= i -> Z.testbit b i = false.
Proof.
  intros Hb Hi. destruct (Z.eq_dec b 0) as [->|Hn]; [apply Z.bits_0|].
  apply Z.bits_above_log2; [lia|].
  assert (Z.log2 b < 8) by (apply Z.log2_lt_pow2; lia). lia.
Qed.

(** Setting then clearing bit [k] of a byte clears bit [k] and keeps
    the other bits. *)
Lemma set_clear_byte (b k : Z) :
  0 <= b < 256 -> 0 <= k <= 7 ->
  Z.land (Z.clearbit (Z.land (Z.lor b (2 ^ k)) 255) k) 255 = Z.clearbit b k.
Proof.
  intros Hb Hk. apply Z.bits_inj'. intros i Hi.
  rewrite Z.land_spec, !Z.clearbit_eqb, Z.land_spec, Z.lor_spec,
    Z.pow2_bits_eqb, testbit_255 by lia.
  destruct (Z.eqb_spec k i) as [->|Hne]; simpl.
  - now rewrite !andb_false_r.
  - rewrite orb_false_r, !andb_true_r.
    destruct (Z.ltb_spec i 8); [now rewrite !andb_true_r|].
    rewrite testbit_byte_high by lia. reflexivity.
Qed.

Lemma clearbit_same (b k : Z) :
  0 <= k -> (Z.clearbit b k = b <-> Z.testbit b k = false).
Proof.
  intros Hk. split.
  - intros E. rewrite <- E. apply Z.clearbit_eq.
  - intros E. apply Z.bits_inj'. intros i Hi. rewrite Z.clearbit_eqb.
    destruct (Z.eqb_spec k i) as [<-|_]; simpl;
      [now rewrite E | apply andb_true_r].
Qed.

(** ** Pixel round trip *)

Section PixelRoundTrip.

Variable ack : nat -> Z -> Z.

Lemma setPixel_ready (x y : Z) (screen : option Z) (s : state) :
  initialised s <> 0 ->
  initialised (setPixel ack x y screen s) = initialised s
  /\ screenBuf (setPixel ack x y screen s) = bufSetBit (screenBuf s) x y.
Proof.
  intros H. unfold setPixel. rewrite lazyInit_done by exact H.
  split; reflexivity.
Qed.

Lemma clearPixel_ready (x y : Z) (screen : option Z) (s : state) :
  initialised s <> 0 ->
  initialised (clearPixel ack x y screen s) = initialised s
  /\ screenBuf (clearPixel ack x y screen s)
     = bufClearBit (screenBuf s) x y.
Proof.
  intros H. unfold clearPixel. rewrite lazyInit_done by exact H.
  split; reflexivity.
Qed.

(** C1, as the code has it.  On an initialised display, for [x] in
    0..127 and [y] in 0..63, [setPixel(x, y)] followed by
    [clearPixel(x, y)] leaves the byte at [x + (y >> 3) * 128 + 1] equal
    to its value before [setPixel] with bit [y mod 8] cleared; it is
    the value before exactly when the pixel was off. *)
Theorem setPixel_clearPixel_byte (s : state) (x y : Z)
    (screen1 screen2 : option Z) :
  initialised s <> 0 ->
  wfBuf (screenBuf s) = true ->
  0 <= x <= 127 ->
  0 <= y <= 63 ->
  let ind := x + Z.shiftr y 3 * 128 + 1 in
  let before := getByte (screenBuf s) ind in
  let after :=
    getByte (screenBuf (clearPixel ack x y screen2
                          (setPixel ack x y screen1 s))) ind in
  after = Z.clearbit before (y mod 8)
  /\ (after = before <-> pixelOn (screenBuf s) x y = false).
Proof.
  intros Hinit Hwf Hx Hy ind before after.
  destruct (setPixel_ready x y screen1 s Hinit) as [Hi1 Hb1].
  assert (Hinit1 : initialised (setPixel ack x y screen1 s) <> 0)
    by (now rewrite Hi1).
  destruct (clearPixel_ready x y screen2 _ Hinit1) as [_ Hb2].
  assert (Hk : 0 <= y mod 8 <= 7) by (pose proof (Z.mod_pos_bound y 8); lia).
  assert (Hind : 0 <= ind < Z.of_nat (length (screenBuf s))).
  { rewrite (wfBuf_length _ Hwf). unfold ind.
    rewrite Z.shiftr_div_pow2 by lia. change (2 ^ 3) with 8.
    pose proof (Z.div_pos y 8 ltac:(lia) ltac:(lia)).
    pose proof (Z.div_lt_upper_bound y 8 8 ltac:(lia) ltac:(lia)).
    lia. }
  assert (E : after = Z.clearbit before (y mod 8)).
  { unfold after. rewrite Hb2, Hb1. unfold bufClearBit, bufSetBit.
    fold ind. rewrite rem_8 by lia.
    rewrite !getByte_setByte_eq by (rewrite ?length_setByte; exact Hind).
    fold before. rewrite jsShl_1, clearBit_clearbit by exact Hk.
    apply set_clear_byte; [apply wfBuf_getByte; exact Hwf | exact Hk]. }
  split; [exact E|].
  rewrite E. unfold pixelOn, bufIndex. fold ind. fold before.
  apply clearbit_same. lia.
Qed.

End PixelRoundTrip.

Lemma setPixel_clearPixel_byte_witness :
  let s := setPixel alwaysPresent 5 9 None readyState in
  (initialised s <> 0 /\ wfBuf (screenBuf s) = true)
  /\ getByte (screenBuf (clearPixel alwaysPresent 5 10 None
                           (setPixel alwaysPresent 5 10 None s)))
             (5 + Z.shiftr 10 3 * 128 + 1)
     = getByte (screenBuf s) (5 + Z.shiftr 10 3 * 128 + 1).
Proof.
  intros s.
  assert (H1 : initialised s <> 0) by (vm_compute; discriminate).
  assert (H2 : wfBuf (screenBuf s) = true) by (vm_compute; reflexivity).
  split; [split; assumption|].
  apply (setPixel_clearPixel_byte alwaysPresent s 5 10 None None H1 H2);
    [lia | lia | vm_compute; reflexivity].
Defined.

(** The claim of C1 fails when the pixel is already on: byte 1 holds 1
    before [setPixel(0, 0)] and 0 after [clearPixel(0, 0)]. *)
Lemma setPixel_clearPixel_counterexample :
  let s := setPixel alwaysPresent 0 0 None readyState in
  getByte (screenBuf (clearPixel alwaysPresent 0 0 None
                        (setPixel alwaysPresent 0 0 None s)))
          (0 + Z.shiftr 0 3 * 128 + 1)
  <> getByte (screenBuf s) (0 + Z.shiftr 0 3 * 128 + 1).
Proof. vm_compute. discriminate. Qed.

(** Why C1 needs an initialised display: with no display attached,
    [setPixel(0, 1)] leaves the flag at 0 and 2 in byte 1; once the
    display answers, the next [setPixel] initialises it, which clears
    the framebuffer, and the byte ends at 0 although pixel (0, 0) was
    off. *)
Lemma setPixel_clearPixel_lazy_init :
  let s := setPixel lateDisplay 0 1 None initState in
  initialised s = 0
  /\ pixelOn (screenBuf s) 0 0 = false
  /\ getByte (screenBuf s) 1 = 2
  /\ getByte (screenBuf (clearPixel lateDisplay 0 0 None
                           (setPixel lateDisplay 0 0 None s))) 1
     = 0.
Proof. vm_compute. repeat split. Qed.

(** ** Lazy initialisation happens once *)

Lemma quiet_refl s : quiet s s.
Proof.
  repeat split. exists []. split; [now rewrite app_nil_r|constructor].
Qed.

Lemma quiet_trans s1 s2 s3 : quiet s1 s2 -> quiet s2 s3 -> quiet s1 s3.
Proof.
  intros (Hi & Hl & e1 & Hb & He) (Hi' & Hl' & e2 & Hb' & He').
  split; [congruence|split; [congruence|]].
  exists (e1 ++ e2). split.
  - rewrite Hb', Hb. now rewrite app_assoc.
  - now apply Forall_app.
Qed.

Lemma quiet_ready s s' : ready s -> quiet s s' -> ready s'.
Proof. intros [Hi Hl] (Hi' & Hl' & _). split; congruence. Qed.

Lemma quiet_newEvents s s' :
  quiet s s' -> Forall (fun e => isConfigWrite e = false) (newEvents s s').
Proof.
  intros (_ & _ & evs & Hb & He). unfold newEvents.
  rewrite Hb, drop_app_length. exact He.
Qed.

Lemma quiet_same s s' :
  initialised s' = initialised s ->
  length (screenBuf s') = length (screenBuf s) ->
  bus s' = bus s ->
  quiet s s'.
Proof.
  intros Hi Hl Hb. split; [exact Hi|split; [exact Hl|]].
  exists []. split; [now rewrite app_nil_r|constructor].
Qed.

Lemma quiet_withAddress s0 s a : quiet s0 s -> quiet s0 (withAddress a s).
Proof. intros H. apply (quiet_trans _ _ _ H). now apply quiet_same. Qed.

Lemma quiet_withPlot s0 s a lo hi :
  quiet s0 s -> quiet s0 (withPlot a lo hi s).
Proof. intros H. apply (quiet_trans _ _ _ H). now apply quiet_same. Qed.

Lemma quiet_withPreviousYPlot s0 s p :
  quiet s0 s -> quiet s0 (withPreviousYPlot p s).
Proof. intros H. apply (quiet_trans _ _ _ H). now apply quiet_same. Qed.

Lemma quiet_withScreenBuf s0 s b :
  length b = length (screenBuf s) ->
  quiet s0 s -> quiet s0 (withScreenBuf b s).
Proof.
  intros Hb H. apply (quiet_trans _ _ _ H). now apply quiet_same.
Qed.

Lemma quiet_i2cWrite s0 s payload :
  isConfigWrite (I2CWrite 0 payload) = false ->
  quiet s0 s -> quiet s0 (i2cWrite payload s).
Proof.
  intros Hp H. apply (quiet_trans _ _ _ H).
  split; [reflexivity|split; [reflexivity|]].
  exists [I2CWrite (displayAddress s) payload].
  split; [reflexivity|]. constructor; [exact Hp|constructor].
Qed.

Lemma quiet_writeOneByte s0 s v :
  quiet s0 s -> quiet s0 (writeOneByte v s).
Proof. intros H. now apply quiet_i2cWrite. Qed.

Lemma quiet_set_pos s0 s col page :
  quiet s0 s -> quiet s0 (set_pos col page s).
Proof. intros H. unfold set_pos. now do 3 apply quiet_writeOneByte. Qed.

Lemma long_payload_quiet (payload : list Z) :
  (4 < length payload)%nat -> isConfigWrite (I2CWrite 0 payload) = false.
Proof.
  intros H. do 5 (destruct payload as [|? payload]; [simpl in H; lia|]).
  simpl. now destruct z.
Qed.

Lemma marked_payload_quiet (buf : list Z) :
  isConfigWrite (I2CWrite 0 (setByte buf 0 0x40)) = false.
Proof. destruct buf as [|b buf]; reflexivity. Qed.

Lemma quiet_fold {A : Type} (f : state -> A -> state) (l : list A) :
  (forall s a, ready s -> quiet s (f s a)) ->
  forall s, ready s -> quiet s (fold_left f l s).
Proof.
  intros Hf. induction l as [|a l IH]; intros s Hs; simpl;
    [apply quiet_refl|].
  apply (quiet_trans _ (f s a)); [now apply Hf|].
  apply IH. eapply quiet_ready; [exact Hs|now apply Hf].
Qed.

Lemma length_bufSetBit buf x y : length (bufSetBit buf x y) = length buf.
Proof. apply length_setByte. Qed.

Lemma length_bufClearBit buf x y : length (bufClearBit buf x y) = length buf.
Proof. apply length_setByte. Qed.

Lemma length_bufSetBitNum buf x p :
  length (bufSetBitNum buf x p) = length buf.
Proof. apply length_setByte. Qed.

Lemma length_fold_buf {A : Type} (f : list Z -> A -> list Z) (l : list A) :
  (forall buf a, length (f buf a) = length buf) ->
  forall buf, length (fold_left f l buf) = length buf.
Proof.
  intros Hf. induction l as [|a l IH]; intros buf; simpl; [reflexivity|].
  now rewrite IH.
Qed.

Lemma length_drawSegment x3 y3 len buf :
  length (drawSegment x3 y3 len buf) = length buf.
Proof.
  unfold drawSegment.
  rewrite !length_fold_buf; [reflexivity|..]; intros;
    [apply length_bufClearBit | apply length_bufSetBitNum].
Qed.

Lemma length_rasterGlyph g c x y st :
  length (snd (rasterGlyph g c x y st)) = length (snd st).
Proof.
  unfold rasterGlyph. generalize (seqZ 0 5). intros l. revert st.
  induction l as [|k l IH]; intros st; simpl; [reflexivity|].
  rewrite IH. simpl. apply length_setByte.
Qed.

Lemma length_rasterChars cs :
  forall c x y st,
    length (snd (rasterChars cs c x y st)) = length (snd st).
Proof.
  induction cs as [|ch cs IH]; intros c x y st; simpl; [reflexivity|].
  rewrite IH. apply length_rasterGlyph.
Qed.

Section LazyInit.

Variable ack : nat -> Z -> Z.

(** Opens an entry point: the address is stored and the lazy
    initialisation test passes. *)
Lemma enter s screen screen' :
  ready s ->
  lazyInit ack screen' (withAddress (setScreenAddr screen) s)
  = withAddress (setScreenAddr screen) s.
Proof. intros [Hi _]. now apply lazyInit_done. Qed.

Lemma quiet_clearBody s0 s : ready s -> quiet s0 s -> quiet s0 (clearBody s).
Proof.
  intros [_ Hl] H. unfold clearBody.
  apply quiet_i2cWrite.
  - simpl. apply long_payload_quiet.
    rewrite length_setByte. unfold bufFill0. rewrite length_replicate. lia.
  - apply quiet_set_pos, quiet_withScreenBuf; [|exact H].
    rewrite length_setByte. unfold bufFill0. apply length_replicate.
Qed.

Lemma quiet_setPixel x y screen s :
  ready s -> quiet s (setPixel ack x y screen s).
Proof.
  intros Hs. unfold setPixel. rewrite enter by exact Hs.
  apply quiet_i2cWrite; [reflexivity|].
  apply quiet_set_pos, quiet_withScreenBuf; [apply length_setByte|].
  apply quiet_withAddress, quiet_refl.
Qed.

Lemma quiet_clearPixel x y screen s :
  ready s -> quiet s (clearPixel ack x y screen s).
Proof.
  intros Hs. unfold clearPixel. rewrite enter by exact Hs.
  apply quiet_i2cWrite; [reflexivity|].
  apply quiet_set_pos, quiet_withScreenBuf; [apply length_setByte|].
  apply quiet_withAddress, quiet_refl.
Qed.

Lemma quiet_renderLine inputString align r textLine d :
  quiet (r_state r)
        (r_state (renderLine inputString align r textLine d)).
Proof.
  unfold renderLine.
  pose proof (length_rasterChars (String.list_ascii_of_string d) 0
                (alignColumn inputString align textLine d (r_x r)) (r_y r)
                (r_ind r, screenBuf (r_state r))) as Hlen.
  destruct (rasterChars _ _ _ _ _) as [ind buf]. simpl in Hlen |- *.
  apply quiet_i2cWrite; [apply marked_payload_quiet|].
  apply quiet_set_pos, quiet_withScreenBuf; [exact Hlen|apply quiet_refl].
Qed.

Lemma quiet_renderLines inputString align lines :
  forall textLine r,
    quiet (r_state r)
          (r_state (renderLines inputString align lines textLine r)).
Proof.
  induction lines as [|d rest IH]; intros textLine r; simpl;
    [apply quiet_refl|].
  eapply quiet_trans; [apply quiet_renderLine|apply IH].
Qed.

Lemma quiet_show inputData line align screen s :
  ready s -> quiet s (show ack inputData line align screen s).
Proof.
  intros Hs. unfold show. rewrite enter by exact Hs.
  eapply quiet_trans; [|apply quiet_renderLines]. simpl.
  apply quiet_withAddress, quiet_refl.
Qed.

Lemma quiet_clearLine line screen s :
  ready s -> quiet s (clearLine ack line screen s).
Proof.
  intros Hs. unfold clearLine. rewrite enter by exact Hs.
  eapply quiet_trans; [apply quiet_withAddress, quiet_refl|].
  apply quiet_show. exact Hs.
Qed.

Lemma quiet_drawLine d len x y screen s :
  ready s -> quiet s (drawLine ack d len x y screen s).
Proof.
  intros Hs. destruct d; simpl; apply quiet_fold; try exact Hs;
    intros; now apply quiet_setPixel.
Qed.

Lemma quiet_drawRect w h x y screen s :
  ready s -> quiet s (drawRect ack w h x y screen s).
Proof.
  intros Hs. unfold drawRect.
  pose proof (quiet_drawLine horizontal w x y screen s Hs) as H1.
  pose proof (quiet_ready _ _ Hs H1) as R1.
  pose proof (quiet_drawLine horizontal w x (y + h - 1) screen _ R1) as H2.
  pose proof (quiet_ready _ _ R1 H2) as R2.
  pose proof (quiet_drawLine vertical h x y screen _ R2) as H3.
  pose proof (quiet_ready _ _ R2 H3) as R3.
  pose proof (quiet_drawLine vertical h (x + w - 1) y screen _ R3) as H4.
  eauto using quiet_trans.
Qed.

Lemma quiet_clear screen s : ready s -> quiet s (clear ack screen s).
Proof.
  intros Hs. unfold clear. rewrite enter by exact Hs.
  apply quiet_clearBody; [exact Hs|]. apply quiet_withAddress, quiet_refl.
Qed.

Lemma quiet_controlDisplayOnOff b screen s :
  ready s -> quiet s (controlDisplayOnOff ack b screen s).
Proof.
  intros Hs. unfold controlDisplayOnOff. rewrite enter by exact Hs.
  destruct b; apply quiet_writeOneByte, quiet_withAddress, quiet_refl.
Qed.

Lemma quiet_refresh screen s : ready s -> quiet s (refresh ack screen s).
Proof.
  intros Hs. unfold refresh. rewrite enter by exact Hs.
  apply quiet_i2cWrite.
  - apply long_payload_quiet. simpl. destruct Hs as [_ ->]. lia.
  - apply quiet_set_pos, quiet_withAddress, quiet_refl.
Qed.

Lemma quiet_invert b screen s : ready s -> quiet s (invert ack b screen s).
Proof.
  intros Hs. unfold invert. rewrite enter by exact Hs.
  apply quiet_writeOneByte, quiet_withAddress, quiet_refl.
Qed.

Lemma quiet_plotColumn s arrayPosition : quiet s (plotColumn s arrayPosition).
Proof.
  unfold plotColumn.
  set (s1 := if arrayPosition =? 0 then _ else s).
  assert (H1 : quiet s s1)
    by (unfold s1; destruct (arrayPosition =? 0);
        [apply quiet_withPreviousYPlot|]; apply quiet_refl).
  destruct (segmentOf _ _) as [y3 len].
  apply quiet_withPreviousYPlot, quiet_withScreenBuf; [|exact H1].
  apply length_drawSegment.
Qed.

Lemma quiet_plot v screen s : ready s -> quiet s (plot ack v screen s).
Proof.
  intros Hs. unfold plot. rewrite enter by exact Hs.
  assert (H1 : quiet s (recordSample v (withAddress (setScreenAddr screen) s)))
    by (unfold recordSample; apply quiet_withPlot, quiet_withAddress,
        quiet_refl).
  assert (H2 : quiet s (redraw
                          (Z.of_nat (length (plotArray
                             (withAddress (setScreenAddr screen) s))))
                          (recordSample v
                             (withAddress (setScreenAddr screen) s)))).
  { apply (quiet_trans _ _ _ H1). unfold redraw.
    apply quiet_fold; [intros; apply quiet_plotColumn|].
    apply (quiet_ready _ _ Hs H1). }
  apply (quiet_trans _ _ _ H2), quiet_refresh, (quiet_ready _ _ Hs H2).
Qed.

Lemma quiet_exec c s :
  isInitDisplay c = false -> ready s -> quiet s (exec ack c s).
Proof.
  intros Hc Hs. destruct c; try discriminate Hc; simpl;
    auto using quiet_setPixel, quiet_clearPixel, quiet_show,
      quiet_clearLine, quiet_drawLine, quiet_drawRect, quiet_clear,
      quiet_controlDisplayOnOff, quiet_plot, quiet_refresh, quiet_invert.
Qed.

Lemma quiet_run cs :
  Forall (fun c => isInitDisplay c = false) cs ->
  forall s, ready s -> quiet s (run ack cs s).
Proof.
  induction 1 as [|c cs Hc Hcs IH]; intros s Hs; [apply quiet_refl|].
  rewrite run_cons.
  pose proof (quiet_exec c s Hc Hs) as H1.
  apply (quiet_trans _ _ _ H1), IH, (quiet_ready _ _ Hs H1).
Qed.

End LazyInit.

(** On a ready display no entry point but [initDisplay] probes the bus:
    what it does is the same whatever the bus would answer. *)
Section NoProbe.

Variables ack ack' : nat -> Z -> Z.

Lemma same_setPixel x y screen s :
  ready s -> setPixel ack x y screen s = setPixel ack' x y screen s.
Proof.
  intros Hs. unfold setPixel.
  now rewrite (enter ack), (enter ack') by exact Hs.
Qed.

Lemma same_clearPixel x y screen s :
  ready s -> clearPixel ack x y screen s = clearPixel ack' x y screen s.
Proof.
  intros Hs. unfold clearPixel.
  now rewrite (enter ack), (enter ack') by exact Hs.
Qed.

Lemma same_show inputData line align screen s :
  ready s ->
  show ack inputData line align screen s
  = show ack' inputData line align screen s.
Proof.
  intros Hs. unfold show.
  now rewrite (enter ack), (enter ack') by exact Hs.
Qed.

Lemma same_clearLine line screen s :
  ready s -> clearLine ack line screen s = clearLine ack' line screen s.
Proof.
  intros Hs. unfold clearLine.
  rewrite (enter ack), (enter ack') by exact Hs.
  now apply same_show.
Qed.

Lemma same_fold_setPixel (f : Z -> Z * Z) screen (l : list Z) :
  forall s,
    ready s ->
    fold_left (fun s p => setPixel ack (fst (f p)) (snd (f p)) screen s) l s
    = fold_left (fun s p => setPixel ack' (fst (f p)) (snd (f p)) screen s)
        l s.
Proof.
  induction l as [|p l IH]; intros s Hs; simpl; [reflexivity|].
  rewrite same_setPixel by exact Hs. apply IH.
  eapply quiet_ready; [exact Hs|now apply quiet_setPixel].
Qed.

Lemma same_drawLine d len x y screen s :
  ready s ->
  drawLine ack d len x y screen s = drawLine ack' d len x y screen s.
Proof.
  intros Hs. destruct d; simpl.
  - exact (same_fold_setPixel (fun p => (p, y)) screen _ s Hs).
  - exact (same_fold_setPixel (fun p => (x, p)) screen _ s Hs).
Qed.

Lemma same_drawRect w h x y screen s :
  ready s ->
  drawRect ack w h x y screen s = drawRect ack' w h x y screen s.
Proof.
  intros Hs. unfold drawRect.
  pose proof (quiet_drawLine ack' horizontal w x y screen s Hs) as H1.
  pose proof (quiet_ready _ _ Hs H1) as R1.
  pose proof (quiet_drawLine ack' horizontal w x (y + h - 1) screen _ R1)
    as H2.
  pose proof (quiet_ready _ _ R1 H2) as R2.
  pose proof (quiet_drawLine ack' vertical h x y screen _ R2) as H3.
  pose proof (quiet_ready _ _ R2 H3) as R3.
  rewrite (same_drawLine horizontal w x y screen s Hs).
  rewrite (same_drawLine horizontal w x (y + h - 1) screen _ R1).
  rewrite (same_drawLine vertical h x y screen _ R2).
  now rewrite (same_drawLine vertical h (x + w - 1) y screen _ R3).
Qed.

Lemma same_refresh screen s :
  ready s -> refresh ack screen s = refresh ack' screen s.
Proof.
  intros Hs. unfold refresh.
  now rewrite (enter ack), (enter ack') by exact Hs.
Qed.

Lemma same_plot v screen s :
  ready s -> plot ack v screen s = plot ack' v screen s.
Proof.
  intros Hs. unfold plot.
  rewrite (enter ack), (enter ack') by exact Hs.
  apply same_refresh.
  assert (H1 : quiet s (recordSample v (withAddress (setScreenAddr screen) s)))
    by (unfold recordSample; apply quiet_withPlot, quiet_withAddress,
        quiet_refl).
  eapply quiet_ready; [exact (quiet_ready _ _ Hs H1)|].
  unfold redraw. apply quiet_fold; [intros; apply quiet_plotColumn|].
  exact (quiet_ready _ _ Hs H1).
Qed.

Lemma same_exec c s :
  isInitDisplay c = false -> ready s -> exec ack c s = exec ack' c s.
Proof.
  intros Hc Hs. destruct c; try discriminate Hc; simpl;
    auto using same_setPixel, same_clearPixel, same_show, same_clearLine,
      same_drawLine, same_drawRect, same_plot, same_refresh.
  - unfold clear. now rewrite (enter ack), (enter ack') by exact Hs.
  - unfold controlDisplayOnOff.
    now rewrite (enter ack), (enter ack') by exact Hs.
  - unfold invert. now rewrite (enter ack), (enter ack') by exact Hs.
Qed.

Lemma same_run cs :
  Forall (fun c => isInitDisplay c = false) cs ->
  forall s, ready s -> run ack cs s = run ack' cs s.
Proof.
  induction 1 as [|c cs Hc Hcs IH]; intros s Hs; [reflexivity|].
  rewrite !run_cons, (same_exec c s Hc Hs). apply IH.
  eapply quiet_ready; [exact Hs|]. now apply quiet_exec.
Qed.

(** C9, as the code has it.  Once the display is initialised, no
    sequence of public calls other than an explicit [initDisplay]
    changes the flag; none of the writes it sends is a register-setting
    command with operands (a write of three or four bytes, as twelve
    commands of the init sequence are), so the init sequence is not
    among what it sends, to whatever address; and it does not probe the
    bus (its effect is the same whatever the bus would answer).  This
    holds whatever screen selectors are passed.  The one-byte commands
    of the init sequence are not excluded: [controlDisplayOnOff],
    [invert] and [set_pos] send such commands as their own work. *)
Theorem lazy_init_once (s : state) (cs : list call) :
  initialised s <> 0 ->
  length (screenBuf s) = 1025%nat ->
  Forall (fun c => isInitDisplay c = false) cs ->
  initialised (run ack cs s) = initialised s
  /\ Forall (fun e => isConfigWrite e = false) (newEvents s (run ack cs s))
  /\ (forall a pre post,
        newEvents s (run ack cs s)
        <> pre ++ map (I2CWrite a) initSequence ++ post)
  /\ run ack cs s = run ack' cs s.
Proof.
  intros Hi Hl Hcs.
  pose proof (quiet_run ack cs Hcs s (conj Hi Hl)) as H.
  assert (Hq : Forall (fun e => isConfigWrite e = false)
                 (newEvents s (run ack cs s)))
    by (now apply quiet_newEvents).
  split; [apply H|split; [exact Hq|split]].
  - intros a pre post E. rewrite E in Hq.
    apply Forall_app in Hq as [_ Hq]. apply Forall_app in Hq as [Hq _].
    rewrite Forall_forall in Hq.
    specialize (Hq (I2CWrite a [0; 0xD5; 0xF0])).
    assert (Hin : I2CWrite a [0; 0xD5; 0xF0]
                  ∈ map (I2CWrite a) initSequence).
    { apply list_elem_of_fmap. exists [0; 0xD5; 0xF0].
      split; [reflexivity|]. unfold initSequence.
      do 2 apply list_elem_of_further. apply list_elem_of_here. }
    apply Hq in Hin. discriminate Hin.
  - now apply same_run.
Qed.

End NoProbe.

Lemma lazy_init_once_witness :
  let s := setPixel alwaysPresent 0 0 (Some 1) initState in
  let cs := [Clear (Some 2); Show "HELLO" (Some 2) (Some Centre) (Some 2);
             Plot (Qmake 7 2) (Some 2); DrawRect 10 5 0 0 (Some 2)] in
  (initialised s <> 0 /\ length (screenBuf s) = 1025%nat
   /\ Forall (fun c => isInitDisplay c = false) cs)
  /\ initialised (run alwaysPresent cs s) = initialised s.
Proof.
  intros s cs.
  assert (H1 : initialised s <> 0) by (vm_compute; discriminate).
  assert (H2 : length (screenBuf s) = 1025%nat) by (vm_compute; reflexivity).
  assert (H3 : Forall (fun c => isInitDisplay c = false) cs)
    by (repeat constructor).
  split; [auto|].
  exact (proj1 (lazy_init_once alwaysPresent lateDisplay s cs H1 H2 H3)).
Defined.

(** The claim of C9 fails for [initDisplay] itself: after [setPixel] on
    screen 1 has initialised the display, [initDisplay(2)] sends the
    probe and then the whole init sequence to the second address. *)
Lemma lazy_init_once_counterexample :
  let s := setPixel alwaysPresent 0 0 (Some 1) initState in
  initialised s = 1
  /\ isConfigWrite (I2CWrite DISPLAY_ADDR_2 [0; 0xD5; 0xF0]) = true
  /\ In (I2CWrite DISPLAY_ADDR_2 [0; 0xD5; 0xF0])
        (newEvents s (exec alwaysPresent (InitDisplay (Some 2)) s))
  /\ take 20 (newEvents s (exec alwaysPresent (InitDisplay (Some 2)) s))
     = I2CWrite DISPLAY_ADDR_2 [0; 0xAF]
       :: map (I2CWrite DISPLAY_ADDR_2) initSequence.
Proof.
  split; [reflexivity|split; [reflexivity|]].
  vm_compute. split; [tauto|reflexivity].
Qed.

(** ** The graph redraw *)

Lemma page_of_row (y : Z) :
  0 <= y <= 63 -> Z.shiftr y 3 = y / 8 /\ 0 <= y / 8 <= 7.
Proof.
  intros H. rewrite Z.shiftr_div_pow2 by lia. change (2 ^ 3) with 8.
  pose proof (Z.div_pos y 8 ltac:(lia) ltac:(lia)).
  pose proof (Z.div_lt_upper_bound y 8 8 ltac:(lia) ltac:(lia)).
  lia.
Qed.

Lemma bufIndex_range (x y : Z) :
  0 <= x <= 127 -> 0 <= y <= 63 -> 1 <= bufIndex x y < 1025.
Proof.
  intros Hx Hy. unfold bufIndex.
  destruct (page_of_row y Hy) as [-> ?]. lia.
Qed.

Lemma bufIndex_inj (x y x' y' : Z) :
  0 <= x <= 127 -> 0 <= y <= 63 -> 0 <= x' <= 127 -> 0 <= y' <= 63 ->
  bufIndex x y = bufIndex x' y' -> x = x' /\ y / 8 = y' / 8.
Proof.
  intros Hx Hy Hx' Hy'. unfold bufIndex.
  destruct (page_of_row y Hy) as [-> ?].
  destruct (page_of_row y' Hy') as [-> ?]. lia.
Qed.

Lemma same_row (y y' : Z) :
  y / 8 = y' / 8 -> y mod 8 = y' mod 8 -> y = y'.
Proof.
  intros H1 H2.
  rewrite (Z.div_mod y 8), (Z.div_mod y' 8) by lia. congruence.
Qed.

Lemma pixelOn_bufSetBit (buf : list Z) (x y x' y' : Z) :
  length buf = 1025%nat ->
  0 <= x <= 127 -> 0 <= y <= 63 -> 0 <= x' <= 127 -> 0 <= y' <= 63 ->
  pixelOn (bufSetBit buf x y) x' y' = true
  <-> (x = x' /\ y = y') \/ pixelOn buf x' y' = true.
Proof.
  intros Hl Hx Hy Hx' Hy'. unfold pixelOn, bufSetBit.
  change (x + Z.shiftr y 3 * 128 + 1) with (bufIndex x y).
  pose proof (bufIndex_range x y Hx Hy) as Hr.
  pose proof (Z.mod_pos_bound y 8 ltac:(lia)) as Hk.
  pose proof (Z.mod_pos_bound y' 8 ltac:(lia)) as Hk'.
  destruct (Z.eq_dec (bufIndex x y) (bufIndex x' y')) as [E|E].
  - destruct (bufIndex_inj _ _ _ _ Hx Hy Hx' Hy' E) as [-> Hp].
    rewrite <- E, getByte_setByte_eq by lia.
    rewrite rem_8, jsShl_1 by lia.
    rewrite Z.land_spec, Z.lor_spec, Z.pow2_bits_eqb, testbit_255 by lia.
    destruct (Z.ltb_spec (y' mod 8) 8) as [_|?]; [|lia].
    rewrite andb_true_r, orb_true_iff, Z.eqb_eq.
    split.
    + intros [H|H]; [right; exact H|left].
      split; [reflexivity|]. now apply same_row.
    + intros [[_ ->]|H]; [right; reflexivity|left; exact H].
  - rewrite getByte_setByte_ne by exact E.
    split; [auto|]. intros [[-> ->]|H]; [congruence|exact H].
Qed.

Lemma pixelOn_bufClearBit (buf : list Z) (x y x' y' : Z) :
  length buf = 1025%nat ->
  0 <= x <= 127 -> 0 <= y <= 63 -> 0 <= x' <= 127 -> 0 <= y' <= 63 ->
  pixelOn (bufClearBit buf x y) x' y' = true
  <-> ~ (x = x' /\ y = y') /\ pixelOn buf x' y' = true.
Proof.
  intros Hl Hx Hy Hx' Hy'. unfold pixelOn, bufClearBit.
  change (x + Z.shiftr y 3 * 128 + 1) with (bufIndex x y).
  pose proof (bufIndex_range x y Hx Hy) as Hr.
  pose proof (Z.mod_pos_bound y 8 ltac:(lia)) as Hk.
  pose proof (Z.mod_pos_bound y' 8 ltac:(lia)) as Hk'.
  destruct (Z.eq_dec (bufIndex x y) (bufIndex x' y')) as [E|E].
  - destruct (bufIndex_inj _ _ _ _ Hx Hy Hx' Hy' E) as [-> Hp].
    rewrite <- E, getByte_setByte_eq by lia.
    rewrite rem_8, clearBit_clearbit by lia.
    rewrite Z.land_spec, Z.clearbit_eqb, testbit_255 by lia.
    destruct (Z.ltb_spec (y' mod 8) 8) as [_|?]; [|lia].
    rewrite andb_true_r, andb_true_iff, negb_true_iff, Z.eqb_neq.
    split; intros [H1 H2].
    + split; [|exact H1]. intros [_ ->]. now apply H2.
    + split; [exact H2|]. intros Hm. apply H1. split; [reflexivity|].
      now apply same_row.
  - rewrite getByte_setByte_ne by exact E.
    split; [|tauto]. intros H. split; [|exact H].
    intros [-> ->]. now apply E.
Qed.
Lemma Qfloor_unique (x : Q) (z : Z) :
  (inject_Z z <= x)%Q -> (x < inject_Z (z + 1))%Q -> Qfloor x = z.
Proof.
  intros H1 H2.
  pose proof (Qfloor_le x) as F1. pose proof (Qlt_floor x) as F2.
  assert (A : (inject_Z z < inject_Z (Qfloor x + 1))%Q) by lra.
  assert (B : (inject_Z (Qfloor x) < inject_Z (z + 1))%Q) by lra.
  rewrite <- Zlt_Qlt in A, B. lia.
Qed.

Lemma Qltb_lt (a b : Q) : Qltb a b = true <-> (a < b)%Q.
Proof.
  unfold Qltb. rewrite negb_true_iff. split.
  - intros H. apply Qnot_le_lt. intros Hle.
    apply Qle_bool_iff in Hle. congruence.
  - intros H. destruct (Qle_bool b a) eqn:E; [|reflexivity].
    apply Qle_bool_iff in E. lra.
Qed.

Lemma mapped_band (v lo hi : Z) :
  lo <= v <= hi -> lo < hi ->
  exists q, pins_map (ofZ v) (ofZ lo) (ofZ hi) (ofZ 63) (ofZ 20) = Fin q
            /\ (20 <= q <= 63)%Q.
Proof.
  intros Hv Hlt. unfold pins_map, ofZ. simpl.
  assert (Hd : (0 < inject_Z hi - inject_Z lo)%Q).
  { rewrite Zlt_Qlt in Hlt. lra. }
  destruct (Qeq_bool (inject_Z hi - inject_Z lo) 0) eqn:E.
  { apply Qeq_bool_iff in E. lra. }
  eexists. split; [reflexivity|].
  assert (Ha : (0 <= inject_Z v - inject_Z lo)%Q).
  { destruct Hv as [Hv _]. rewrite Zle_Qle in Hv. lra. }
  assert (Hb : (inject_Z v - inject_Z lo <= inject_Z hi - inject_Z lo)%Q).
  { destruct Hv as [_ Hv]. rewrite Zle_Qle in Hv. lra. }
  set (a := (inject_Z v - inject_Z lo)%Q) in *.
  set (d := (inject_Z hi - inject_Z lo)%Q) in *.
  assert (Ht0 : (0 <= a / d)%Q) by (apply Qle_shift_div_l; lra).
  assert (Ht1 : (a / d <= 1)%Q) by (apply Qle_shift_div_r; lra).
  assert (Eq : (a * (inject_Z 20 - inject_Z 63) / d + inject_Z 63
                == 63 - 43 * (a / d))%Q).
  { change (inject_Z 20) with 20%Q. change (inject_Z 63) with 63%Q.
    field. lra. }
  rewrite Eq. lra.
Qed.

Lemma wrap32_small (z : Z) : 0 <= z < 2 ^ 31 -> wrap32 z = z.
Proof.
  intros H. unfold wrap32. rewrite Z.mod_small; lia.
Qed.

Lemma Qfloor_bounds (q : Q) (lo hi : Z) :
  (inject_Z lo <= q)%Q -> (q < inject_Z hi)%Q -> lo <= Qfloor q < hi.
Proof.
  intros H1 H2.
  pose proof (Qfloor_le q) as F1. pose proof (Qlt_floor q) as F2.
  assert (A : (inject_Z lo < inject_Z (Qfloor q + 1))%Q) by lra.
  assert (B : (inject_Z (Qfloor q) < inject_Z hi)%Q) by lra.
  rewrite <- Zlt_Qlt in A, B. lia.
Qed.

Lemma Qtrunc_nonneg (q : Q) : (0 <= q)%Q -> Qtrunc q = Qfloor q.
Proof.
  intros H. unfold Qtrunc.
  destruct (Qltb q 0) eqn:E; [|reflexivity].
  apply Qltb_lt in E. lra.
Qed.

Lemma toInt_row (q : Q) :
  (0 <= q)%Q -> (q < 64)%Q -> toInt (Fin q) = Qfloor q.
Proof.
  intros H0 H1. simpl. rewrite Qtrunc_nonneg by exact H0.
  apply wrap32_small.
  pose proof (Qfloor_bounds q 0 64 H0 H1). lia.
Qed.

Lemma toInt_nrem_8 (q : Q) :
  (0 <= q)%Q -> (q < 64)%Q ->
  toInt (nrem (Fin q) (ofZ 8)) = Qfloor q mod 8.
Proof.
  intros H0 H1. unfold nrem, ofZ.
  change (Qeq_bool (inject_Z 8) 0) with false. cbn [toInt].
  pose proof (Qfloor_bounds q 0 64 H0 H1) as Hn.
  pose proof (Qfloor_le q) as F1. pose proof (Qlt_floor q) as F2.
  set (n := Qfloor q) in *.
  pose proof (Z.div_mod n 8 ltac:(lia)) as Hdm.
  pose proof (Z.mod_pos_bound n 8 ltac:(lia)) as Hm.
  assert (Ediv : inject_Z n = (8 * inject_Z (n / 8) + inject_Z (n mod 8))%Q).
  { rewrite Hdm at 1. rewrite inject_Z_plus, inject_Z_mult. reflexivity. }
  assert (M0 : (0 <= inject_Z (n mod 8))%Q)
    by (change 0%Q with (inject_Z 0); rewrite <- Zle_Qle; lia).
  assert (M7 : (inject_Z (n mod 8) <= 7)%Q)
    by (change 7%Q with (inject_Z 7); rewrite <- Zle_Qle; lia).
  rewrite inject_Z_plus in F2. change (inject_Z 1) with 1%Q in F2.
  rewrite Ediv in F1, F2.
  assert (Hq8 : (q / inject_Z 8 == q * (1 # 8))%Q)
    by (change (inject_Z 8) with 8%Q; field).
  assert (Et : Qtrunc (q / inject_Z 8) = n / 8).
  { rewrite Qtrunc_nonneg by (rewrite Hq8; lra).
    apply Qfloor_unique; rewrite Hq8, ?inject_Z_plus;
      change (inject_Z 1) with 1%Q; lra. }
  rewrite Et.
  rewrite Qtrunc_nonneg
    by (change (inject_Z 8) with 8%Q; lra).
  rewrite wrap32_small.
  - apply Qfloor_unique; rewrite ?inject_Z_plus;
      change (inject_Z 8) with 8%Q; change (inject_Z 1) with 1%Q; lra.
  - assert (E : Qfloor (q - inject_Z 8 * inject_Z (n / 8)) = n mod 8).
    { apply Qfloor_unique; rewrite ?inject_Z_plus;
        change (inject_Z 8) with 8%Q; change (inject_Z 1) with 1%Q; lra. }
    rewrite E. lia.
Qed.

Lemma bufSetBitNum_row (buf : list Z) (x3 : Z) (q : Q) :
  (0 <= q)%Q -> (q < 64)%Q ->
  bufSetBitNum buf x3 (Fin q) = bufSetBit buf x3 (Qfloor q).
Proof.
  intros H0 H1. unfold bufSetBitNum, bufSetBit.
  pose proof (Qfloor_bounds q 0 64 H0 H1) as Hn.
  rewrite toInt_row, toInt_nrem_8 by assumption.
  rewrite Z.rem_mod_nonneg by lia. reflexivity.
Qed.



Lemma fold_left_fmap {A B C : Type} (f : A -> C -> A) (g : B -> C)
    (l : list B) (a : A) :
  fold_left f (map g l) a = fold_left (fun a b => f a (g b)) l a.
Proof. revert a. induction l as [|b l IH]; intros a; simpl; auto. Qed.

Lemma fold_left_ext_in {A B : Type} (f g : A -> B -> A) (l : list B) :
  (forall a b, b ∈ l -> f a b = g a b) ->
  forall a, fold_left f l a = fold_left g l a.
Proof.
  induction l as [|b l IH]; intros H a; simpl; [reflexivity|].
  rewrite H by apply list_elem_of_here.
  apply IH. intros. apply H. now apply list_elem_of_further.
Qed.

Lemma Qfloor_plus_nat (a : Q) (k : nat) :
  Qfloor (a + inject_Z (Z.of_nat k)) = Qfloor a + Z.of_nat k.
Proof.
  pose proof (Qfloor_le a) as F1. pose proof (Qlt_floor a) as F2.
  rewrite inject_Z_plus in F2. change (inject_Z 1) with 1%Q in F2.
  apply Qfloor_unique; rewrite !inject_Z_plus; change (inject_Z 1) with 1%Q;
    lra.
Qed.

(** The drawing loop on rows that stay on the panel is a loop of
    [bufSetBit] on consecutive integer rows. *)
Lemma draw_rows (a : Q) (n : nat) (x3 : Z) (buf : list Z) :
  (0 <= a)%Q ->
  (forall k : nat, (k < n)%nat -> (a + inject_Z (Z.of_nat k) < 64)%Q) ->
  fold_left (fun buf pixel => bufSetBitNum buf x3 pixel)
    (map (fun i => nadd (Fin a) (ofZ (Z.of_nat i))) (seq 0 n)) buf
  = fold_left (fun buf pixel => bufSetBit buf x3 pixel)
      (seqZ (Qfloor a) (Z.of_nat n)) buf.
Proof.
  intros Ha Hk. unfold seqZ. rewrite Nat2Z.id.
  change (fmap ?f ?l) with (map f l).
  rewrite !fold_left_fmap. apply fold_left_ext_in.
  intros b k Hin. apply elem_of_seq in Hin. simpl.
  rewrite bufSetBitNum_row.
  - rewrite Qfloor_plus_nat. f_equal. lia.
  - assert (0 <= inject_Z (Z.of_nat k))%Q
      by (change 0%Q with (inject_Z 0); rewrite <- Zle_Qle; lia).
    lra.
  - apply Hk. lia.
Qed.

Lemma Qceiling_pos (l : Q) : (0 < l)%Q -> 1 <= Qceiling l.
Proof.
  intros H. pose proof (Qle_ceiling l) as C.
  assert (A : (inject_Z 0 < inject_Z (Qceiling l))%Q)
    by (change (inject_Z 0) with 0%Q; lra).
  rewrite <- Zlt_Qlt in A. lia.
Qed.

Lemma below_ceiling (l : Q) (k : Z) :
  k < Qceiling l <-> (inject_Z k < l)%Q.
Proof.
  pose proof (Qle_ceiling l) as C1. pose proof (Qceiling_lt l) as C2.
  split; intros H.
  - assert (A : (inject_Z k <= inject_Z (Qceiling l - 1))%Q)
      by (rewrite <- Zle_Qle; lia).
    lra.
  - assert (A : (inject_Z k < inject_Z (Qceiling l))%Q) by lra.
    now rewrite <- Zlt_Qlt in A.
Qed.

(** The loop test [pixel < y3 + len] holds for exactly the first
    [segmentCount y3 len] values of [pixel]. *)
Lemma segmentCount_guard (a l : Q) (k : nat) :
  (k < segmentCount (Fin a) (Fin l))%nat
  <-> nlt (nadd (Fin a) (ofZ (Z.of_nat k))) (nadd (Fin a) (Fin l)) = true.
Proof.
  simpl. rewrite Qltb_lt. unfold ofZ.
  assert (E : (a + inject_Z (Z.of_nat k) < a + l)%Q
              <-> (inject_Z (Z.of_nat k) < l)%Q) by (split; intros; lra).
  rewrite E, <- below_ceiling. lia.
Qed.

Lemma run_rows (a l : Q) (x3 : Z) (buf : list Z) :
  (20 <= a)%Q -> (0 < l)%Q -> (a + l <= 64)%Q ->
  fold_left (fun buf pixel => bufSetBitNum buf x3 pixel)
    (segmentPixels (Fin a) (Fin l)) buf
  = fold_left (fun buf pixel => bufSetBit buf x3 pixel)
      (seqZ (Qfloor a) (Qceiling l)) buf
  /\ (forall r, Qfloor a <= r < Qfloor a + Qceiling l -> 20 <= r <= 63).
Proof.
  intros Ha Hl Hal. pose proof (Qceiling_pos l Hl) as Hc.
  assert (Hk : forall k : Z, 0 <= k < Qceiling l ->
                             (20 <= a + inject_Z k)%Q
                             /\ (a + inject_Z k < 64)%Q).
  { intros k [Hk0 Hk1]. apply below_ceiling in Hk1.
    assert (0 <= inject_Z k)%Q
      by (change 0%Q with (inject_Z 0); rewrite <- Zle_Qle; lia).
    split; lra. }
  split.
  - unfold segmentPixels, segmentCount.
    rewrite draw_rows.
    + now rewrite Z2Nat.id by lia.
    + lra.
    + intros k Hlt. apply Hk. lia.
  - intros r Hr.
    destruct (Hk (r - Qfloor a) ltac:(lia)) as [H1 H2].
    assert (E : Qfloor (a + inject_Z (r - Qfloor a)) = r).
    { replace (r - Qfloor a) with (Z.of_nat (Z.to_nat (r - Qfloor a)))
        by lia.
      rewrite Qfloor_plus_nat. lia. }
    pose proof (Qfloor_bounds _ 20 64 H1 H2). lia.
Qed.

Lemma segment_draw (prev cur : num) (x3 : Z) (buf : list Z) :
  inBand prev -> inBand cur ->
  fold_left (fun buf pixel => bufSetBitNum buf x3 pixel)
    (segmentPixels (fst (segmentOf prev cur)) (snd (segmentOf prev cur))) buf
  = fold_left (fun buf pixel => bufSetBit buf x3 pixel)
      (seqZ (fst (segmentRows prev cur)) (snd (segmentRows prev cur))) buf
  /\ (forall r,
         fst (segmentRows prev cur) <= r
         < fst (segmentRows prev cur) + snd (segmentRows prev cur) ->
         20 <= r <= 63).
Proof.
  intros Hp Hc. destruct cur as [c|].
  - assert (One : forall prev',
               segmentOf prev' (Fin c) = (Fin c, ofZ 1) ->
               segmentRows prev' (Fin c) = (Qfloor c, 1) ->
               fold_left (fun buf pixel => bufSetBitNum buf x3 pixel)
                 (segmentPixels (fst (segmentOf prev' (Fin c)))
                                (snd (segmentOf prev' (Fin c)))) buf
               = fold_left (fun buf pixel => bufSetBit buf x3 pixel)
                   (seqZ (fst (segmentRows prev' (Fin c)))
                         (snd (segmentRows prev' (Fin c)))) buf
               /\ (forall r,
                      fst (segmentRows prev' (Fin c)) <= r
                      < fst (segmentRows prev' (Fin c))
                        + snd (segmentRows prev' (Fin c)) ->
                      20 <= r <= 63)).
    { intros prev' E1 E2. rewrite E1, E2. simpl fst. simpl snd.
      destruct Hc as [Hc1 Hc2].
      apply (run_rows c (inject_Z 1) x3 buf); [lra|reflexivity|].
      change (inject_Z 1) with 1%Q. lra. }
    destruct prev as [p|]; [|apply One; reflexivity].
    destruct Hp as [Hp1 Hp2]. destruct Hc as [Hc1 Hc2].
    assert (S1 : segmentOf (Fin p) (Fin c)
                 = if Qltb c p then (Fin c, Fin (p - c)%Q)
                   else if Qltb p c then (Fin p, Fin (c - p)%Q)
                   else (Fin c, ofZ 1)) by reflexivity.
    assert (S2 : segmentRows (Fin p) (Fin c)
                 = if Qltb c p then (Qfloor c, Qceiling (p - c))
                   else if Qltb p c then (Qfloor p, Qceiling (c - p))
                   else (Qfloor c, 1)) by reflexivity.
    destruct (Qltb c p) eqn:E1; [|destruct (Qltb p c) eqn:E2].
    + apply Qltb_lt in E1. rewrite S1, S2. simpl fst. simpl snd.
      apply run_rows; lra.
    + apply Qltb_lt in E2. rewrite S1, S2. simpl fst. simpl snd.
      apply run_rows; lra.
    + apply One; assumption.
  - assert (E1 : segmentOf prev NaN = (NaN, ofZ 1))
      by (destruct prev; reflexivity).
    assert (E2 : segmentRows prev NaN = (0, 0))
      by (destruct prev; reflexivity).
    rewrite E1, E2. simpl. split; [reflexivity|lia].
Qed.

Lemma getByte_bufSetBit_low (buf : list Z) (x y j : Z) :
  0 <= x -> 16 <= y -> j <= 256 ->
  getByte (bufSetBit buf x y) j = getByte buf j.
Proof.
  intros Hx Hy Hj. unfold bufSetBit. apply getByte_setByte_ne.
  rewrite Z.shiftr_div_pow2 by lia. change (2 ^ 3) with 8.
  pose proof (Z.div_le_lower_bound y 8 2 ltac:(lia) ltac:(lia)). lia.
Qed.

Lemma getByte_bufClearBit_low (buf : list Z) (x y j : Z) :
  0 <= x -> 16 <= y -> j <= 256 ->
  getByte (bufClearBit buf x y) j = getByte buf j.
Proof.
  intros Hx Hy Hj. unfold bufClearBit. apply getByte_setByte_ne.
  rewrite Z.shiftr_div_pow2 by lia. change (2 ^ 3) with 8.
  pose proof (Z.div_le_lower_bound y 8 2 ltac:(lia) ltac:(lia)). lia.
Qed.

Lemma getByte_fold_low (f : list Z -> Z -> list Z) (ys : list Z) (j : Z) :
  (forall buf y, y ∈ ys -> getByte (f buf y) j = getByte buf j) ->
  forall buf, getByte (fold_left f ys buf) j = getByte buf j.
Proof.
  induction ys as [|y ys IH]; intros H buf; simpl; [reflexivity|].
  rewrite IH by (intros; apply H; now apply list_elem_of_further).
  apply H, list_elem_of_here.
Qed.

Lemma band_rows :
  forall r, r ∈ seqZ GRAPH_Y_MAX_LOCATION
                  (GRAPH_Y_MIN_LOCATION - GRAPH_Y_MAX_LOCATION + 1)
            <-> 20 <= r <= 63.
Proof.
  intros r. rewrite elem_of_seqZ.
  unfold GRAPH_Y_MAX_LOCATION, GRAPH_Y_MIN_LOCATION. lia.
Qed.

(** The two loops of a column leave the text rows alone. *)
Lemma drawSegment_low (prev cur : num) (x3 : Z) (buf : list Z) (j : Z) :
  inBand prev -> inBand cur -> 0 <= x3 -> j <= 256 ->
  getByte (drawSegment x3 (fst (segmentOf prev cur))
                       (snd (segmentOf prev cur)) buf) j
  = getByte buf j.
Proof.
  intros Hp Hc Hx Hj. unfold drawSegment.
  destruct (segment_draw prev cur x3
              (fold_left (fun buf pixel => bufClearBit buf x3 pixel)
                 (seqZ GRAPH_Y_MAX_LOCATION
                    (GRAPH_Y_MIN_LOCATION - GRAPH_Y_MAX_LOCATION + 1)) buf)
              Hp Hc) as [E Hr].
  rewrite E.
  rewrite getByte_fold_low.
  - apply getByte_fold_low. intros b y Hy. apply band_rows in Hy.
    apply getByte_bufClearBit_low; lia.
  - intros b y Hy. apply elem_of_seqZ, Hr in Hy.
    apply getByte_bufSetBit_low; lia.
Qed.



Lemma mappedRow_plotPart (s s' : state) (i : Z) :
  plotPart s' = plotPart s -> mappedRow s' i = mappedRow s i.
Proof.
  intros H. apply plotPart_eq in H. destruct H as (Ha & Hlo & Hhi).
  unfold mappedRow. now rewrite Ha, Hlo, Hhi.
Qed.

Lemma mappedRow_inBand (s : state) (i : Z) :
  plotOk s = true -> inBand (mappedRow s i).
Proof.
  intros H. apply plotOk_spec in H. destruct H as (Hlt & Hin & _).
  unfold mappedRow.
  destruct (plotArray s !! Z.to_nat i) as [v|] eqn:E; [|exact I].
  unfold inScale in Hin. rewrite Forall_forall in Hin.
  apply list_elem_of_lookup_2, Hin in E.
  destruct (mapped_band v (graphYMin s) (graphYMax s) E Hlt)
    as (q & Eq & Hq).
  unfold GRAPH_Y_MIN_LOCATION, GRAPH_Y_MAX_LOCATION. rewrite Eq. exact Hq.
Qed.

Lemma previousRow_inBand (s : state) (i : Z) :
  plotOk s = true -> inBand (previousRow s i).
Proof.
  intros H. unfold previousRow.
  destruct (i =? 0); now apply mappedRow_inBand.
Qed.

(** The fields of the state after one column. *)
Lemma plotColumn_fields (s : state) (i : Z) :
  let prev := if i =? 0 then mappedRow s i else previousYPlot s in
  screenBuf (plotColumn s i)
  = drawSegment i (fst (segmentOf prev (mappedRow s i)))
                (snd (segmentOf prev (mappedRow s i))) (screenBuf s)
  /\ previousYPlot (plotColumn s i) = mappedRow s i
  /\ initialised (plotColumn s i) = initialised s.
Proof.
  unfold plotColumn. destruct (i =? 0); simpl;
    destruct (segmentOf _ _) as [y3 len]; simpl; auto.
Qed.

(** The state after the first [k] columns of the redraw loop. *)
Lemma columns_state (s : state) (k : nat) :
  let s' := fold_left plotColumn (seqZ 0 (Z.of_nat k)) s in
  plotPart s' = plotPart s
  /\ initialised s' = initialised s
  /\ length (screenBuf s') = length (screenBuf s)
  /\ (0 < k -> previousYPlot s' = mappedRow s (Z.of_nat k - 1))%nat.
Proof.
  induction k as [|k IH].
  - simpl. repeat split. lia.
  - rewrite seqZ_S, fold_left_app. simpl fold_left.
    destruct IH as (Hp & Hi & Hl & _).
    set (sk := fold_left plotColumn (seqZ 0 (Z.of_nat k)) s) in *.
    destruct (plotColumn_fields sk (0 + Z.of_nat k)) as (Eb & Ep & Ei).
    split; [now rewrite plotPart_plotColumn|].
    split; [congruence|].
    split; [rewrite Eb, length_drawSegment; exact Hl|].
    intros _. rewrite Ep.
    replace (Z.of_nat (S k) - 1) with (0 + Z.of_nat k) by lia.
    now apply mappedRow_plotPart.
Qed.

(** The previous row each column starts from. *)
Lemma columns_step (s : state) (k : nat) :
  let sk := fold_left plotColumn (seqZ 0 (Z.of_nat k)) s in
  let prev := previousRow s (Z.of_nat k) in
  let cur := mappedRow s (Z.of_nat k) in
  screenBuf (fold_left plotColumn (seqZ 0 (Z.of_nat (S k))) s)
  = drawSegment (Z.of_nat k) (fst (segmentOf prev cur))
                (snd (segmentOf prev cur)) (screenBuf sk).
Proof.
  intros sk prev cur.
  rewrite seqZ_S, fold_left_app. simpl fold_left. fold sk.
  destruct (columns_state s k) as (Hp & _ & _ & Hprev). fold sk in Hp, Hprev.
  destruct (plotColumn_fields sk (0 + Z.of_nat k)) as (Eb & _).
  rewrite Eb. change (0 + Z.of_nat k) with (Z.of_nat k).
  rewrite (mappedRow_plotPart _ _ _ Hp). fold cur.
  replace (if Z.of_nat k =? 0 then cur else previousYPlot sk) with prev;
    [reflexivity|].
  unfold prev, previousRow, cur.
  destruct (Z.eqb_spec (Z.of_nat k) 0) as [E|E]; [now rewrite E|].
  symmetry. apply Hprev. lia.
Qed.

Lemma columns_low (s : state) (k : nat) (j : Z) :
  plotOk s = true -> j <= 256 ->
  getByte (screenBuf (fold_left plotColumn (seqZ 0 (Z.of_nat k)) s)) j
  = getByte (screenBuf s) j.
Proof.
  intros Hok Hj. induction k as [|k IH]; [reflexivity|].
  rewrite columns_step, drawSegment_low; try assumption; try lia.
  - now apply previousRow_inBand.
  - now apply mappedRow_inBand.
Qed.


Lemma segmentRows_integers (p c : Z) :
  segmentRows (ofZ p) (ofZ c)
  = if c <? p then (c, p - c)
    else if p <? c then (p, c - p)
    else (c, 1).
Proof.
  unfold segmentRows, ofZ, Qltb. rewrite !Qfloor_Z.
  assert (L : forall a b : Z,
             Qle_bool (inject_Z a) (inject_Z b) = (a <=? b)).
  { intros a b. destruct (Z.leb_spec a b) as [H|H].
    - apply Qle_bool_iff. now rewrite <- Zle_Qle.
    - destruct (Qle_bool _ _) eqn:E; [|reflexivity].
      apply Qle_bool_iff in E. rewrite <- Zle_Qle in E. lia. }
  rewrite !L.
  replace (negb (p <=? c)) with (c <? p)
    by (rewrite Z.ltb_antisym; reflexivity).
  replace (negb (c <=? p)) with (p <? c)
    by (rewrite Z.ltb_antisym; reflexivity).
  destruct (c <? p); [|destruct (p <? c); [|reflexivity]].
  - f_equal. unfold Qminus.
    rewrite <- inject_Z_opp, <- inject_Z_plus. apply Qceiling_Z.
  - f_equal. unfold Qminus.
    rewrite <- inject_Z_opp, <- inject_Z_plus. apply Qceiling_Z.
Qed.

Section Redraw.

Variable ack : nat -> Z -> Z.

Lemma length_screenBuf_lazyInit screen s :
  length (screenBuf (lazyInit ack screen s)) = length (screenBuf s).
Proof.
  unfold lazyInit, initDisplay.
  destruct (initialised s =? 0); [|reflexivity].
  destruct (_ =? -1010); [reflexivity|].
  simpl. rewrite length_setByte. unfold bufFill0. apply length_replicate.
Qed.

Lemma screenBuf_refresh screen s :
  initialised s <> 0 -> screenBuf (refresh ack screen s) = screenBuf s.
Proof.
  intros H. unfold refresh. rewrite lazyInit_done by exact H. reflexivity.
Qed.

Lemma redraw_columns plotLength s :
  redraw (Z.of_nat plotLength) s
  = fold_left plotColumn (seqZ 0 (Z.of_nat (S plotLength))) s.
Proof. unfold redraw. do 2 f_equal. lia. Qed.


(** C10, as the code has it.  On an initialised display a [plot] call
    with a finite argument leaves the marker byte and the bytes of
    pages 0 and 1 (indices 0 to 256) as they were. *)
Theorem plot_keeps_text_rows (s : state) (v : Q) (screen : option Z) :
  initialised s <> 0 ->
  plotOk s = true ->
  forall j,
    j <= 256 ->
    getByte (screenBuf (plot ack v screen s)) j = getByte (screenBuf s) j.
Proof.
  intros Hi Hok. set (s' := plot ack v screen s).
  set (s0 := withAddress (setScreenAddr screen) s).
  set (n := length (plotArray s0)).
  set (s1 := redraw (Z.of_nat n) (recordSample v s0)).
  assert (Es : s' = refresh ack None s1).
  { unfold s', plot. rewrite lazyInit_done by exact Hi. reflexivity. }
  assert (Hok1 : plotOk (recordSample v s0) = true)
    by (now apply plotOk_recordSample).
  assert (Hn : (n <= 127)%nat)
    by (apply plotOk_spec in Hok; unfold n; simpl; tauto).
  unfold s1 in *. rewrite redraw_columns in *.
  destruct (columns_state (recordSample v s0) (S n)) as (_ & Hi1 & _).
  rewrite Es, screenBuf_refresh by (rewrite Hi1; exact Hi).
  intros j Hj. now rewrite columns_low.
Qed.

End Redraw.



Lemma plot_keeps_text_rows_witness :
  let s := show alwaysPresent "HELLO" (Some 1) None None readyState in
  (initialised s <> 0 /\ plotOk s = true)
  /\ getByte (screenBuf (plot alwaysPresent (Qmake 7 2) None s)) 1
     = getByte (screenBuf s) 1.
Proof.
  intros s.
  assert (H1 : initialised s <> 0) by (vm_compute; discriminate).
  assert (H2 : plotOk s = true) by (vm_compute; reflexivity).
  split; [split; assumption|].
  exact (plot_keeps_text_rows alwaysPresent s (Qmake 7 2) None H1 H2
            1 ltac:(lia)).
Defined.

(** The claim of C10 fails for the first call of a program: the lazy
    initialisation inside [plot] writes the marker 0x40 into byte 0,
    which held 0. *)
Lemma plot_keeps_text_rows_counterexample :
  getByte (screenBuf (plot alwaysPresent 0 None initState)) 0
  <> getByte (screenBuf initState) 0.
Proof. vm_compute. discriminate. Qed.

(** * The drawing primitives, pixel by pixel *)

Section Shapes.

Variable ack : nat -> Z -> Z.

(** X1.  On an initialised display, [setPixel(x, y)] with [x] in 0..127
    and [y] in 0..63 turns that pixel on and leaves every other pixel
    of the framebuffer as it was. *)
Theorem setPixel_sets (s : state) (x y : Z) (screen : option Z) :
  ready s -> 0 <= x <= 127 -> 0 <= y <= 63 ->
  forall x' y', 0 <= x' <= 127 -> 0 <= y' <= 63 ->
    pixelOn (screenBuf (setPixel ack x y screen s)) x' y' = true
    <-> (x' = x /\ y' = y) \/ pixelOn (screenBuf s) x' y' = true.
Proof.
  intros [Hi Hl] Hx Hy x' y' Hx' Hy'.
  destruct (setPixel_ready ack x y screen s Hi) as [_ ->].
  rewrite pixelOn_bufSetBit by assumption. intuition lia.
Qed.

(** X2.  On an initialised display, [clearPixel(x, y)] with [x] in
    0..127 and [y] in 0..63 turns that pixel off and leaves every other
    pixel of the framebuffer as it was. *)
Theorem clearPixel_clears (s : state) (x y : Z) (screen : option Z) :
  ready s -> 0 <= x <= 127 -> 0 <= y <= 63 ->
  forall x' y', 0 <= x' <= 127 -> 0 <= y' <= 63 ->
    pixelOn (screenBuf (clearPixel ack x y screen s)) x' y' = true
    <-> ~ (x' = x /\ y' = y) /\ pixelOn (screenBuf s) x' y' = true.
Proof.
  intros [Hi Hl] Hx Hy x' y' Hx' Hy'.
  destruct (clearPixel_ready ack x y screen s Hi) as [_ ->].
  rewrite pixelOn_bufClearBit by assumption. intuition lia.
Qed.

Lemma bufSetBit_wrap (buf : list Z) (x y : Z) :
  0 <= y -> bufSetBit buf (x + 128) y = bufSetBit buf x (y + 8).
Proof.
  intros Hy. unfold bufSetBit.
  assert (E1 : Z.shiftr (y + 8) 3 = Z.shiftr y 3 + 1).
  { rewrite !Z.shiftr_div_pow2 by lia. change (2 ^ 3) with 8.
    replace (y + 8) with (y + 1 * 8) by lia. apply Z.div_add. lia. }
  assert (E2 : Z.rem (y + 8) 8 = Z.rem y 8).
  { rewrite !rem_8 by lia. replace (y + 8) with (y + 1 * 8) by lia.
    apply Z.mod_add. lia. }
  rewrite E1, E2.
  replace (x + (Z.shiftr y 3 + 1) * 128 + 1)
    with (x + 128 + Z.shiftr y 3 * 128 + 1) by lia.
  reflexivity.
Qed.

(** X3.  A column past the right edge is not refused: on an
    initialised display, for a column [x] of the panel (0..127) and a
    row [y] of 0..55, [setPixel] 128 columns further right leaves the
    framebuffer that [setPixel] eight rows further down leaves.  On
    these coordinates the 32-bit shift of the source and the index
    arithmetic are exact. *)
Theorem setPixel_wraps_row (s : state) (x y : Z) (screen : option Z) :
  ready s -> 0 <= x <= 127 -> 0 <= y <= 55 ->
  screenBuf (setPixel ack (x + 128) y screen s)
  = screenBuf (setPixel ack x (y + 8) screen s).
Proof.
  intros [Hi _] _ [Hy _].
  destruct (setPixel_ready ack (x + 128) y screen s Hi) as [_ ->].
  destruct (setPixel_ready ack x (y + 8) screen s Hi) as [_ ->].
  now apply bufSetBit_wrap.
Qed.

Lemma pixelOn_fold_points (pts : list (Z * Z)) :
  Forall (fun p => 0 <= fst p <= 127 /\ 0 <= snd p <= 63) pts ->
  forall (buf : list Z) (x' y' : Z),
    length buf = 1025%nat -> 0 <= x' <= 127 -> 0 <= y' <= 63 ->
    pixelOn (fold_left (fun b p => bufSetBit b (fst p) (snd p)) pts buf) x' y'
    = true
    <-> (x', y') ∈ pts \/ pixelOn buf x' y' = true.
Proof.
  induction 1 as [|[px py] pts [Hpx Hpy] Hpts IH]; intros buf x' y' Hl Hx' Hy';
    simpl.
  - split; [auto|]. intros [H|H]; [inversion H|exact H].
  - simpl in Hpx, Hpy.
    rewrite IH by (rewrite ?length_bufSetBit; assumption).
    rewrite pixelOn_bufSetBit by assumption.
    rewrite elem_of_cons. split.
    + intros [H|[[-> ->]|H]]; auto.
    + intros [[H|H]|H]; auto. injection H as -> ->. auto.
Qed.

Lemma fold_setPixel (screen : option Z) (pts : list (Z * Z)) :
  forall s, ready s ->
    let s' := fold_left (fun s p => setPixel ack (fst p) (snd p) screen s)
                pts s in
    ready s'
    /\ screenBuf s'
       = fold_left (fun b p => bufSetBit b (fst p) (snd p)) pts (screenBuf s).
Proof.
  induction pts as [|p pts IH]; intros s Hs; simpl; [auto|].
  pose proof (quiet_ready _ _ Hs (quiet_setPixel ack (fst p) (snd p) screen s Hs))
    as Hs1.
  destruct (IH _ Hs1) as [Hr Hb]. split; [exact Hr|].
  rewrite Hb. destruct Hs as [Hi _].
  now destruct (setPixel_ready ack (fst p) (snd p) screen s Hi) as [_ ->].
Qed.

Lemma drawLine_points d len x y screen s :
  drawLine ack d len x y screen s
  = fold_left (fun s p => setPixel ack (fst p) (snd p) screen s)
      (linePoints d len x y) s.
Proof.
  destruct d; simpl; rewrite fold_left_fmap; simpl; [reflexivity|].
  destruct (Z.geb_spec len 64) as [H|H].
  - now rewrite Z.min_r by lia.
  - now rewrite Z.min_l by lia.
Qed.

Lemma elem_of_linePoints d len x y x' y' :
  (x', y') ∈ linePoints d len x y
  <-> match d with
      | horizontal => y' = y /\ x <= x' < x + len
      | vertical => x' = x /\ y <= y' < y + Z.min len 63
      end.
Proof.
  destruct d; unfold linePoints; rewrite list_elem_of_fmap; split.
  - intros (h & E & Hh). injection E as -> ->.
    apply elem_of_seqZ in Hh. lia.
  - intros [-> H]. exists x'. split; [reflexivity|].
    apply elem_of_seqZ. lia.
  - intros (v & E & Hv). injection E as -> ->.
    apply elem_of_seqZ in Hv. lia.
  - intros [-> H]. exists y'. split; [reflexivity|].
    apply elem_of_seqZ. lia.
Qed.

(** A line whose pixels are all on the panel turns on its pixels and no
    other. *)
Lemma pixelOn_drawLine d len x y screen s :
  ready s ->
  (forall px py, (px, py) ∈ linePoints d len x y ->
                 0 <= px <= 127 /\ 0 <= py <= 63) ->
  forall x' y', 0 <= x' <= 127 -> 0 <= y' <= 63 ->
    pixelOn (screenBuf (drawLine ack d len x y screen s)) x' y' = true
    <-> (x', y') ∈ linePoints d len x y
        \/ pixelOn (screenBuf s) x' y' = true.
Proof.
  intros Hs Hpts x' y' Hx' Hy'. rewrite drawLine_points.
  destruct (fold_setPixel screen (linePoints d len x y) s Hs) as [_ ->].
  apply pixelOn_fold_points; try assumption; [|apply Hs].
  apply Forall_forall. intros [px py] Hp. now apply Hpts.
Qed.

(** X4.  A horizontal line that fits the panel turns on the [len]
    pixels from [x] on row [y] and no other pixel. *)
Theorem drawLine_horizontal_pixels (s : state) (len x y : Z)
    (screen : option Z) :
  ready s -> 0 <= x -> x + len <= 128 -> 0 <= y <= 63 ->
  forall x' y', 0 <= x' <= 127 -> 0 <= y' <= 63 ->
    pixelOn (screenBuf (drawLine ack horizontal len x y screen s)) x' y'
    = true
    <-> (y' = y /\ x <= x' < x + len) \/ pixelOn (screenBuf s) x' y' = true.
Proof.
  intros Hs Hx Hlen Hy x' y' Hx' Hy'.
  rewrite pixelOn_drawLine; try assumption.
  - now rewrite elem_of_linePoints.
  - intros px py Hp. apply elem_of_linePoints in Hp. lia.
Qed.

(** X5.  A vertical line turns on [len] pixels from [y] down column
    [x], but never more than 63: a length of 64 or more draws 63
    pixels, so a full-height line leaves the last row untouched. *)
Theorem drawLine_vertical_pixels (s : state) (len x y : Z)
    (screen : option Z) :
  ready s -> 0 <= x <= 127 -> 0 <= y -> y + Z.min len 63 <= 64 ->
  forall x' y', 0 <= x' <= 127 -> 0 <= y' <= 63 ->
    pixelOn (screenBuf (drawLine ack vertical len x y screen s)) x' y' = true
    <-> (x' = x /\ y <= y' < y + Z.min len 63)
        \/ pixelOn (screenBuf s) x' y' = true.
Proof.
  intros Hs Hx Hy Hlen x' y' Hx' Hy'.
  rewrite pixelOn_drawLine; try assumption.
  - now rewrite elem_of_linePoints.
  - intros px py Hp. apply elem_of_linePoints in Hp. lia.
Qed.

(** X6.  A rectangle that fits the panel turns on exactly the pixels of
    its border: the inside and the outside keep their pixels, and the
    border is complete also at the full height of 64, where the bottom
    line supplies the corners the capped vertical lines leave out. *)
Theorem drawRect_border (s : state) (width height x y : Z)
    (screen : option Z) :
  ready s ->
  1 <= width -> 1 <= height -> 0 <= x -> x + width <= 128 ->
  0 <= y -> y + height <= 64 ->
  forall x' y', 0 <= x' <= 127 -> 0 <= y' <= 63 ->
    pixelOn (screenBuf (drawRect ack width height x y screen s)) x' y' = true
    <-> onBorder width height x y x' y'
        \/ pixelOn (screenBuf s) x' y' = true.
Proof.
  intros Hs Hw Hh Hx Hxw Hy Hyh x' y' Hx' Hy'. unfold drawRect.
  pose proof (quiet_drawLine ack horizontal width x y screen s Hs) as Q1.
  pose proof (quiet_ready _ _ Hs Q1) as R1.
  pose proof (quiet_drawLine ack horizontal width x (y + height - 1) screen
                _ R1) as Q2.
  pose proof (quiet_ready _ _ R1 Q2) as R2.
  pose proof (quiet_drawLine ack vertical height x y screen _ R2) as Q3.
  pose proof (quiet_ready _ _ R2 Q3) as R3.
  assert (In : forall d len x0 y0,
             match d with
             | horizontal => 0 <= x0 /\ x0 + len <= 128 /\ 0 <= y0 <= 63
             | vertical => 0 <= x0 <= 127 /\ 0 <= y0
                           /\ y0 + Z.min len 63 <= 64
             end ->
             forall px py, (px, py) ∈ linePoints d len x0 y0 ->
                           0 <= px <= 127 /\ 0 <= py <= 63).
  { intros d len x0 y0 Hd px py Hp. apply elem_of_linePoints in Hp.
    destruct d; lia. }
  rewrite !pixelOn_drawLine
    by (try assumption; apply In; simpl; lia).
  rewrite !elem_of_linePoints.
  unfold onBorder. set (P := pixelOn _ _ _ = true). clearbody P.
  clear - Hw Hh Hx Hxw Hy Hyh Hx' Hy'.
  destruct (Z.min_spec height 63) as [[Hm ->]|[Hm ->]].
  - split.
    + intros [H|[H|[H|[H|H]]]]; [left; lia ..|now right].
    + intros [H|H]; [|tauto].
      destruct (Z.eq_dec x' x); [right; left; lia|].
      destruct (Z.eq_dec x' (x + width - 1)); [left; lia|].
      destruct (Z.eq_dec y' y); [do 3 right; left; lia|].
      do 2 right; left; lia.
  - assert (height = 63 \/ height = 64) as [-> | ->] by lia.
    + split.
      * intros [H|[H|[H|[H|H]]]]; [left; lia ..|now right].
      * intros [H|H]; [|tauto].
        destruct (Z.eq_dec x' x); [right; left; lia|].
        destruct (Z.eq_dec x' (x + width - 1)); [left; lia|].
        destruct (Z.eq_dec y' y); [do 3 right; left; lia|].
        do 2 right; left; lia.
    + split.
      * intros [H|[H|[H|[H|H]]]]; [left; lia ..|now right].
      * intros [H|H]; [|tauto].
        destruct (Z.eq_dec y' (y + 64 - 1)); [do 2 right; left; lia|].
        destruct (Z.eq_dec x' x); [right; left; lia|].
        destruct (Z.eq_dec x' (x + width - 1)); [left; lia|].
        do 3 right; left; lia.
Qed.

End Shapes.

Lemma setPixel_sets_witness :
  ready readyState
  /\ (pixelOn (screenBuf (setPixel alwaysPresent 3 10 None readyState)) 3 10
      = true
      <-> (3 = 3 /\ 10 = 10) \/ pixelOn (screenBuf readyState) 3 10 = true).
Proof.
  assert (R : ready readyState)
    by (split; [vm_compute; discriminate|vm_compute; reflexivity]).
  split; [exact R|].
  apply (setPixel_sets alwaysPresent readyState 3 10 None R); lia.
Defined.

Lemma clearPixel_clears_witness :
  ready readyState
  /\ (pixelOn (screenBuf (clearPixel alwaysPresent 3 10 None readyState)) 4 10
      = true
      <-> ~ (4 = 3 /\ 10 = 10) /\ pixelOn (screenBuf readyState) 4 10 = true).
Proof.
  assert (R : ready readyState)
    by (split; [vm_compute; discriminate|vm_compute; reflexivity]).
  split; [exact R|].
  apply (clearPixel_clears alwaysPresent readyState 3 10 None R); lia.
Defined.

Lemma setPixel_wraps_row_witness :
  (ready readyState /\ 0 <= 2 <= 127 /\ 0 <= 3 <= 55)
  /\ screenBuf (setPixel alwaysPresent (2 + 128) 3 None readyState)
     = screenBuf (setPixel alwaysPresent 2 (3 + 8) None readyState).
Proof.
  assert (R : ready readyState)
    by (split; [vm_compute; discriminate|vm_compute; reflexivity]).
  assert (Hx : 0 <= 2 <= 127) by lia.
  assert (Hy : 0 <= 3 <= 55) by lia.
  split; [exact (conj R (conj Hx Hy))|].
  exact (setPixel_wraps_row alwaysPresent readyState 2 3 None R Hx Hy).
Defined.

Lemma drawLine_horizontal_pixels_witness :
  ready readyState
  /\ (pixelOn (screenBuf (drawLine alwaysPresent horizontal 10 5 7 None
                            readyState)) 8 7 = true
      <-> (7 = 7 /\ 5 <= 8 < 5 + 10)
          \/ pixelOn (screenBuf readyState) 8 7 = true).
Proof.
  assert (R : ready readyState)
    by (split; [vm_compute; discriminate|vm_compute; reflexivity]).
  split; [exact R|].
  apply (drawLine_horizontal_pixels alwaysPresent readyState 10 5 7 None R);
    lia.
Defined.

Lemma drawLine_vertical_pixels_witness :
  ready readyState
  /\ (pixelOn (screenBuf (drawLine alwaysPresent vertical 64 0 0 None
                            readyState)) 0 63 = true
      <-> (0 = 0 /\ 0 <= 63 < 0 + Z.min 64 63)
          \/ pixelOn (screenBuf readyState) 0 63 = true).
Proof.
  assert (R : ready readyState)
    by (split; [vm_compute; discriminate|vm_compute; reflexivity]).
  split; [exact R|].
  apply (drawLine_vertical_pixels alwaysPresent readyState 64 0 0 None R);
    lia.
Defined.

Lemma drawRect_border_witness :
  ready readyState
  /\ (pixelOn (screenBuf (drawRect alwaysPresent 10 64 0 0 None readyState))
              9 63 = true
      <-> onBorder 10 64 0 0 9 63
          \/ pixelOn (screenBuf readyState) 9 63 = true).
Proof.
  assert (R : ready readyState)
    by (split; [vm_compute; discriminate|vm_compute; reflexivity]).
  split; [exact R|].
  apply (drawRect_border alwaysPresent readyState 10 64 0 0 None R); lia.
Defined.

(** * Clearing and first use *)

Section Frames.

Variable ack : nat -> Z -> Z.

Lemma screenBuf_clearBody (s : state) :
  length (screenBuf s) = 1025%nat ->
  screenBuf (clearBody s) = blankScreen
  /\ displayAddress (clearBody s) = displayAddress s
  /\ initialised (clearBody s) = initialised s
  /\ bus (clearBody s)
     = bus s ++ posEvents (displayAddress s) 0 0
             ++ [I2CWrite (displayAddress s) blankScreen].
Proof.
  intros Hl. unfold clearBody, bufFill0. rewrite Hl.
  change (setByte (replicate 1025 0) 0 64) with blankScreen.
  repeat split. simpl. now rewrite <- !app_assoc.
Qed.

(** What the initialisation test leaves, case by case. *)
Lemma lazyInit_cases (screen : option Z) (s : state) :
  length (screenBuf s) = 1025%nat ->
  let s' := lazyInit ack screen s in
  (initialised s <> 0 /\ s' = s)
  \/ (initialised s = 0
      /\ ack (length (bus s)) (setScreenAddr screen) = -1010
      /\ initialised s' = 0 /\ screenBuf s' = screenBuf s
      /\ displayAddress s' = setScreenAddr screen)
  \/ (initialised s = 0
      /\ ack (length (bus s)) (setScreenAddr screen) <> -1010
      /\ initialised s' = 1 /\ screenBuf s' = blankScreen
      /\ displayAddress s' = DISPLAY_ADDR_1).
Proof.
  intros Hl s'. subst s'. unfold lazyInit.
  destruct (Z.eqb_spec (initialised s) 0) as [E|E]; [right|left; auto].
  unfold initDisplay. simpl.
  destruct (Z.eqb_spec (ack (length (bus s)) (setScreenAddr screen)) (-1010))
    as [A|A]; [left|right]; repeat split; try assumption.
  unfold clearBody, bufFill0. simpl. rewrite Hl. reflexivity.
Qed.

Lemma screenBuf_clear (screen : option Z) (s : state) :
  length (screenBuf s) = 1025%nat ->
  screenBuf (clear ack screen s) = blankScreen.
Proof.
  intros Hl. unfold clear. apply screenBuf_clearBody.
  now rewrite length_screenBuf_lazyInit.
Qed.

(** X7.  In any state and whatever the probe answers, [clear] leaves
    the framebuffer blank and ends by sending all of it.  The display
    addressed is the selected one only when the display was already
    initialised: on first use the lazy initialisation has switched to
    display 1. *)
Theorem clear_blank (screen : option Z) (s : state) :
  length (screenBuf s) = 1025%nat ->
  let s' := clear ack screen s in
  screenBuf s' = blankScreen
  /\ displayAddress s'
     = (if initialised s =? 0 then DISPLAY_ADDR_1 else setScreenAddr screen)
  /\ last (bus s') = Some (I2CWrite (displayAddress s') blankScreen).
Proof.
  intros Hl s'. subst s'. unfold clear.
  set (s0 := withAddress (setScreenAddr screen) s).
  assert (Hl1 : length (screenBuf (lazyInit ack (Some 1) s0)) = 1025%nat)
    by now rewrite length_screenBuf_lazyInit.
  destruct (screenBuf_clearBody _ Hl1) as (Eb & Ea & _ & Ebus).
  split; [exact Eb|]. split.
  - rewrite Ea.
    destruct (lazyInit_cases (Some 1) s0 Hl)
      as [[Hi ->]|[(Hi & _ & _ & _ & ->)|(Hi & _ & _ & _ & ->)]];
      simpl in Hi; destruct (Z.eqb_spec (initialised s) 0); try reflexivity;
      contradiction.
  - rewrite Ebus, Ea, !app_assoc. apply last_snoc.
Qed.

Lemma getByte_blankScreen (i : Z) : 1 <= i -> getByte blankScreen i = 0.
Proof.
  intros Hi. unfold getByte, blankScreen.
  destruct (0 <=? i); [|reflexivity].
  replace (Z.to_nat i) with (S (Z.to_nat (i - 1))) by lia.
  change ((64 :: replicate 1024 0) !! S (Z.to_nat (i - 1)))
    with (replicate 1024 0 !! Z.to_nat (i - 1)).
  destruct (replicate 1024 0 !! Z.to_nat (i - 1)) as [v|] eqn:E;
    [|reflexivity].
  apply lookup_replicate in E. now destruct E.
Qed.

(** X8.  The first drawing call answered by the display starts from a
    blank framebuffer: after [setPixel(x, y)] on an uninitialised
    display that acknowledges the probe, pixel [(x, y)] is the only
    pixel on, whatever the framebuffer held before. *)
Theorem first_call_wipes (x y : Z) (screen : option Z) (s : state) :
  length (screenBuf s) = 1025%nat ->
  initialised s = 0 ->
  ack (length (bus s)) DISPLAY_ADDR_1 <> -1010 ->
  0 <= x <= 127 -> 0 <= y <= 63 ->
  forall x' y', 0 <= x' <= 127 -> 0 <= y' <= 63 ->
    pixelOn (screenBuf (setPixel ack x y screen s)) x' y' = true
    <-> x' = x /\ y' = y.
Proof.
  intros Hl Hi Ha Hx Hy x' y' Hx' Hy'. unfold setPixel.
  set (s0 := withAddress (setScreenAddr screen) s).
  destruct (lazyInit_cases None s0 Hl)
    as [[Hi' _]|[(_ & Ha' & _)|(_ & _ & _ & Eb & _)]];
    [contradiction|contradiction|].
  simpl. change (setByte ?b (x + Z.shiftr y 3 * 128 + 1) ?v)
    with (setByte b (bufIndex x y) v).
  fold (bufIndex x y).
  change (setByte _ _ _) with
    (bufSetBit (screenBuf (lazyInit ack None s0)) x y).
  rewrite Eb, pixelOn_bufSetBit by (assumption || reflexivity).
  assert (Hz : pixelOn blankScreen x' y' = false).
  { unfold pixelOn. pose proof (bufIndex_range x' y' Hx' Hy') as Hr.
    rewrite getByte_blankScreen by lia. apply Z.bits_0. }
  rewrite Hz. intuition (try discriminate; lia).
Qed.

End Frames.

Lemma clear_blank_witness :
  length (screenBuf initState) = 1025%nat
  /\ screenBuf (clear lateDisplay (Some 2) initState) = blankScreen.
Proof.
  split; [reflexivity|].
  exact (proj1 (clear_blank lateDisplay (Some 2) initState eq_refl)).
Defined.

Lemma first_call_wipes_witness :
  (length (screenBuf initState) = 1025%nat
   /\ initialised initState = 0
   /\ alwaysPresent (length (bus initState)) DISPLAY_ADDR_1 <> -1010)
  /\ (pixelOn (screenBuf (setPixel alwaysPresent 3 10 None initState)) 3 10
      = true
      <-> 3 = 3 /\ 10 = 10).
Proof.
  assert (A : alwaysPresent (length (bus initState)) DISPLAY_ADDR_1 <> -1010)
    by (vm_compute; discriminate).
  split; [split; [reflexivity|split; [reflexivity|exact A]]|].
  apply (first_call_wipes alwaysPresent 3 10 None initState eq_refl eq_refl A);
    lia.
Defined.

(** * Text rows *)

(** X9.  Whatever the glyph constant and the column, a glyph column
    byte uses bits 1 to 5 only: the top pixel row and the two bottom
    pixel rows of a character cell are never set by [show]. *)
Theorem glyphColumn_bits (charDisplayBytes k : Z) :
  Z.land (glyphColumn charDisplayBytes k) 62 = glyphColumn charDisplayBytes k.
Proof.
  unfold glyphColumn.
  change (seqZ 0 5) with [0; 1; 2; 3; 4]. simpl fold_left.
  change (jsShl 1 (0 + 1)) with 2. change (jsShl 1 (1 + 1)) with 4.
  change (jsShl 1 (2 + 1)) with 8. change (jsShl 1 (3 + 1)) with 16.
  change (jsShl 1 (4 + 1)) with 32.
  repeat match goal with
         | |- context [if ?c then _ else _] => destruct c
         end; reflexivity.
Qed.

Lemma rasterGlyph_outside g c x y st i :
  (i < (x + c) * 5 + y * 128 + 1 \/ (x + c) * 5 + y * 128 + 5 < i) ->
  getByte (snd (rasterGlyph g c x y st)) i = getByte (snd st) i.
Proof.
  intros Hi. unfold rasterGlyph. change (seqZ 0 5) with [0; 1; 2; 3; 4].
  simpl. rewrite !getByte_setByte_ne by lia. reflexivity.
Qed.

Lemma rasterChars_outside cs :
  forall c x y st i,
    (i < (x + c) * 5 + y * 128 + 1
     \/ (x + c + Z.of_nat (length cs)) * 5 + y * 128 < i) ->
    getByte (snd (rasterChars cs c x y st)) i = getByte (snd st) i.
Proof.
  induction cs as [|a cs IH]; intros c x y st i Hi; [reflexivity|].
  simpl rasterChars. rewrite IH by (simpl length in Hi; lia).
  apply rasterGlyph_outside. simpl length in Hi. lia.
Qed.

Lemma rasterGlyph_blank c x y st i :
  0 <= i ->
  getByte (snd st) i = 0 \/ ((x + c) * 5 + y * 128 + 1 <= i
                             <= (x + c) * 5 + y * 128 + 5) ->
  getByte (snd (rasterGlyph 0 c x y st)) i = 0.
Proof.
  intros H0 Hi. unfold rasterGlyph. change (seqZ 0 5) with [0; 1; 2; 3; 4].
  simpl. change (glyphColumn 0 _) with 0.
  assert (S : forall b j, getByte b i = 0 \/ j = i ->
                          getByte (setByte b j 0) i = 0).
  { intros b j Hb. destruct (Z.eq_dec j i) as [->|N].
    - unfold getByte, setByte.
      destruct (Z.leb_spec 0 i); [|reflexivity].
      destruct (decide (Z.to_nat i < length b)%nat) as [L|L].
      + now rewrite list_lookup_insert_eq.
      + rewrite list_insert_ge by lia. rewrite lookup_ge_None_2 by lia.
        reflexivity.
    - rewrite getByte_setByte_ne by exact N. destruct Hb; [assumption|lia]. }
  set (b := (x + c) * 5 + y * 128) in *.
  destruct (Z.eq_dec i (b + 4 + 1)); [apply S; right; lia|apply S; left].
  destruct (Z.eq_dec i (b + 3 + 1)); [apply S; right; lia|apply S; left].
  destruct (Z.eq_dec i (b + 2 + 1)); [apply S; right; lia|apply S; left].
  destruct (Z.eq_dec i (b + 1 + 1)); [apply S; right; lia|apply S; left].
  apply S. destruct Hi; [now left|right; lia].
Qed.

Lemma rasterChars_blank cs :
  Forall (fun a => fontAt (charCode a) = 0) cs ->
  forall c x y st i,
    0 <= i ->
    getByte (snd st) i = 0
    \/ ((x + c) * 5 + y * 128 + 1 <= i
        <= (x + c + Z.of_nat (length cs)) * 5 + y * 128) ->
    getByte (snd (rasterChars cs c x y st)) i = 0.
Proof.
  induction 1 as [|a cs Ha Hcs IH]; intros c x y st i H0 Hi.
  - simpl in *. destruct Hi; [assumption|lia].
  - simpl rasterChars. rewrite Ha. simpl length in Hi.
    apply IH; [exact H0|].
    destruct (Z_le_gt_dec ((x + (c + 1)) * 5 + y * 128 + 1) i);
      [destruct (Z_le_gt_dec i
                   ((x + (c + 1) + Z.of_nat (length cs)) * 5 + y * 128))|].
    + right. lia.
    + left. apply rasterGlyph_blank; [exact H0|]. destruct Hi; [now left|lia].
    + left. apply rasterGlyph_blank; [exact H0|].
      destruct Hi; [now left|right; lia].
Qed.

Section TextRows.

Variable ack : nat -> Z -> Z.

Lemma strLen_append (a b : string) :
  strLen (String.append a b) = strLen a + strLen b.
Proof.
  unfold strLen. induction a as [|c a IH]; [change (String.append EmptyString b) with b; simpl; lia|].
  change (String.append (String c a) b) with (String c (String.append a b)).
  change (String.length (String c (String.append a b)))
    with (S (String.length (String.append a b))).
  change (String.length (String c a)) with (S (String.length a)). lia.
Qed.

Lemma length_list_ascii (a : string) :
  Z.of_nat (length (String.list_ascii_of_string a)) = strLen a.
Proof.
  unfold strLen. induction a as [|c a IH]; simpl; [reflexivity|lia].
Qed.

Lemma alignColumn_first (inputString : string) (align : ShowAlign) :
  1 <= strLen inputString <= 25 ->
  let x := alignColumn inputString align 0 inputString 0 in
  0 <= x /\ x + strLen inputString <= 25.
Proof.
  intros Hm. unfold alignColumn, NUMBER_OF_CHAR_PER_LINE.
  destruct (Z.ltb_spec (strLen inputString) (26 - 1)); [|lia].
  destruct align; [lia| |lia].
  rewrite Math_round_half. split.
  - apply Z.div_pos; lia.
  - assert ((26 - strLen inputString + 1) / 2 * 2
            <= 26 - strLen inputString + 1)
      by (rewrite Z.mul_comm; apply Z.mul_div_le; lia).
    lia.
Qed.

(** X10.  On an initialised display, [show] of a text of at most 24
    characters changes no byte outside the first 125 columns of its
    own row, whatever the alignment; a row past the panel changes
    nothing. *)
Theorem show_short_row (inputData : string) (line : option Z)
    (align : option ShowAlign) (screen : option Z) (s : state) (i : Z) :
  ready s ->
  strLen inputData <= 24 ->
  ~ (startRow line * 128 + 1 <= i <= startRow line * 128 + 125) ->
  getByte (screenBuf (show ack inputData line align screen s)) i
  = getByte (screenBuf s) i.
Proof.
  intros Hs Hn Hi. unfold show. rewrite enter by exact Hs.
  set (inputString := String.append inputData " ").
  assert (Hm : 1 <= strLen inputString <= 25).
  { unfold inputString. rewrite strLen_append.
    change (strLen " ") with 1. unfold strLen in *. lia. }
  unfold showLines, NUMBER_OF_CHAR_PER_LINE.
  destruct (Z.gtb_spec (strLen inputString) 26); [lia|].
  simpl renderLines.
  match goal with
  | |- context [renderLine ?a ?b ?r ?t ?d] =>
      destruct (renderLine_effect a b r t d) as [_ ->]
  end.
  simpl r_x. simpl r_y. simpl r_ind. simpl r_state.
  pose proof (alignColumn_first inputString (default Left align) Hm)
    as [Hx0 Hx1].
  rewrite rasterChars_outside; [reflexivity|].
  rewrite length_list_ascii. lia.
Qed.

End TextRows.

Lemma show_short_row_witness :
  (ready readyState /\ strLen "HELLO" <= 24
   /\ ~ (startRow (Some 1) * 128 + 1 <= 200
         <= startRow (Some 1) * 128 + 125))
  /\ getByte (screenBuf (show alwaysPresent "HELLO" (Some 1) (Some Right)
                            None readyState)) 200
     = getByte (screenBuf readyState) 200.
Proof.
  assert (R : ready readyState)
    by (split; [vm_compute; discriminate|vm_compute; reflexivity]).
  assert (L : strLen "HELLO" <= 24) by (vm_compute; discriminate).
  assert (O : ~ (startRow (Some 1) * 128 + 1 <= 200
                 <= startRow (Some 1) * 128 + 125))
    by (change (startRow (Some 1)) with 0; lia).
  split; [exact (conj R (conj L O))|].
  exact (show_short_row alwaysPresent "HELLO" (Some 1) (Some Right) None
           readyState 200 R L O).
Defined.

(** * Graph orientation, line clearing and the screen selector *)

(** X11.  Within a scale of positive width whose ends lie between
    -2^46 and 2^46, the plotter maps a larger sample of the scale to a
    row that is not lower on the panel: the mapped row does not grow
    with the sample; the bottom of the scale maps to row 63 and the top
    of the scale to row 20.  Within these bounds the differences and the
    product by -43 that [pins.map] forms are integers below 2^53, so
    the two end rows come out exactly. *)
Theorem mappedRow_antitone (s : state) (i j v w : Z) :
  graphYMin s < graphYMax s ->
  - 2 ^ 46 <= graphYMin s -> graphYMax s <= 2 ^ 46 ->
  plotArray s !! Z.to_nat i = Some v ->
  plotArray s !! Z.to_nat j = Some w ->
  graphYMin s <= v -> v <= w -> w <= graphYMax s ->
  exists p q,
    mappedRow s i = Fin p /\ mappedRow s j = Fin q /\ (q <= p)%Q
    /\ (v = graphYMin s -> (p == 63)%Q)
    /\ (w = graphYMax s -> (q == 20)%Q).
Proof.
  intros Hlt _ _ Hv Hw _ Hvw _. unfold mappedRow. rewrite Hv, Hw.
  unfold pins_map, ofZ, GRAPH_Y_MIN_LOCATION, GRAPH_Y_MAX_LOCATION. simpl.
  assert (Hd : (0 < inject_Z (graphYMax s) - inject_Z (graphYMin s))%Q).
  { rewrite Zlt_Qlt in Hlt. lra. }
  destruct (Qeq_bool (inject_Z (graphYMax s) - inject_Z (graphYMin s)) 0)
    eqn:E.
  { apply Qeq_bool_iff in E. lra. }
  eexists. eexists. split; [reflexivity|]. split; [reflexivity|].
  set (d := (inject_Z (graphYMax s) - inject_Z (graphYMin s))%Q) in *.
  change (inject_Z 20) with 20%Q. change (inject_Z 63) with 63%Q.
  assert (Eq : forall a : Q,
             (a * (20 - 63) / d + 63 == 63 - 43 * (a / d))%Q).
  { intros a. field. lra. }
  rewrite !Eq. split; [|split].
  - rewrite Zle_Qle in Hvw.
    assert ((inject_Z v - inject_Z (graphYMin s)) / d
            <= (inject_Z w - inject_Z (graphYMin s)) / d)%Q.
    { apply Qmult_le_compat_r; [lra|]. apply Qlt_le_weak, Qinv_lt_0_compat.
      exact Hd. }
    lra.
  - intros ->.
    assert (Z0 : ((inject_Z (graphYMin s) - inject_Z (graphYMin s)) / d
                  == 0)%Q) by (field; lra).
    lra.
  - intros ->. fold d.
    assert (Z1 : (d / d == 1)%Q) by (field; lra).
    lra.
Qed.

Lemma mappedRow_antitone_witness :
  let s := mkState 60 1 (replicate 1025 0) [3; 7] 0 100 (ofZ 0) [] in
  (graphYMin s < graphYMax s
   /\ - 2 ^ 46 <= graphYMin s /\ graphYMax s <= 2 ^ 46
   /\ plotArray s !! Z.to_nat 0 = Some 3
   /\ plotArray s !! Z.to_nat 1 = Some 7
   /\ graphYMin s <= 3 /\ 3 <= 7 /\ 7 <= graphYMax s)
  /\ exists p q,
       mappedRow s 0 = Fin p /\ mappedRow s 1 = Fin q /\ (q <= p)%Q
       /\ (3 = graphYMin s -> (p == 63)%Q)
       /\ (7 = graphYMax s -> (q == 20)%Q).
Proof.
  intros s.
  assert (H1 : graphYMin s < graphYMax s) by (simpl; lia).
  assert (H2 : - 2 ^ 46 <= graphYMin s) by (simpl; lia).
  assert (H3 : graphYMax s <= 2 ^ 46) by (simpl; lia).
  assert (H4 : graphYMin s <= 3) by (simpl; lia).
  assert (H5 : 3 <= 7) by lia.
  assert (H6 : 7 <= graphYMax s) by (simpl; lia).
  split.
  - exact (conj H1 (conj H2 (conj H3 (conj eq_refl (conj eq_refl
             (conj H4 (conj H5 H6))))))).
  - exact (mappedRow_antitone s 0 1 3 7 H1 H2 H3 eq_refl eq_refl H4 H5 H6).
Defined.

Section Lines.

Variable ack : nat -> Z -> Z.

Lemma ready_withAddress a s : ready s -> ready (withAddress a s).
Proof. intros [Hi Hl]. split; assumption. Qed.

(** X12.  On an initialised display, [clearLine(line)] zeroes the
    framebuffer bytes of 130 columns from the start of the row, which
    is two columns into the next row, and on the last row (line 8) the
    bytes of 125 columns only, leaving its last three columns; every
    other byte is kept. *)
Theorem clearLine_bytes (line : Z) (screen : option Z) (s : state) (i : Z) :
  ready s ->
  let y := startRow (Some line) in
  getByte (screenBuf (clearLine ack line screen s)) i
  = if (y * 128 + 1 <=? i) && (i <=? y * 128 + clearedColumns line)
    then 0 else getByte (screenBuf s) i.
Proof.
  intros Hs y. unfold clearLine. rewrite enter by exact Hs.
  unfold show. rewrite enter by now apply ready_withAddress.
  fold y.
  set (inputString := String.append "                          " " ").
  assert (Hy : (y =? 7) = (line =? 8)).
  { unfold y, startRow. destruct (Z.eqb_spec line 0); lia. }
  assert (El : showLines inputString y
               = if line =? 8 then ["                         "%string]
                 else ["                          "%string]).
  { unfold showLines. rewrite Hy. destruct (line =? 8); vm_compute;
      reflexivity. }
  rewrite El. unfold clearedColumns.
  assert (Hspaces : forall n,
             Forall (fun a => fontAt (charCode a) = 0)
                    (replicate n " "%char)).
  { intros n. apply Forall_forall. intros a Ha.
    apply elem_of_replicate in Ha. destruct Ha as [-> _]. reflexivity. }
  destruct (line =? 8); simpl renderLines;
    match goal with
    | |- context [renderLine ?a ?b ?r ?t ?d] =>
        destruct (renderLine_effect a b r t d) as [_ ->]
    end;
    simpl r_x; simpl r_y; simpl r_ind; simpl r_state;
    change (alignColumn inputString _ 0 _ 0) with 0.
  - change (String.list_ascii_of_string "                         ")
      with (replicate 25 " "%char).
    destruct (Z.leb_spec (y * 128 + 1) i); simpl andb;
      [destruct (Z.leb_spec i (y * 128 + 125)); simpl andb|].
    + destruct (Z.leb_spec 0 i).
      * apply rasterChars_blank; [apply Hspaces|assumption|].
        right. rewrite length_replicate. lia.
      * unfold getByte. destruct (Z.leb_spec 0 i); [lia|reflexivity].
    + apply rasterChars_outside. rewrite length_replicate. lia.
    + apply rasterChars_outside. lia.
  - change (String.list_ascii_of_string "                          ")
      with (replicate 26 " "%char).
    destruct (Z.leb_spec (y * 128 + 1) i); simpl andb;
      [destruct (Z.leb_spec i (y * 128 + 130)); simpl andb|].
    + destruct (Z.leb_spec 0 i).
      * apply rasterChars_blank; [apply Hspaces|assumption|].
        right. rewrite length_replicate. lia.
      * unfold getByte. destruct (Z.leb_spec 0 i); [lia|reflexivity].
    + apply rasterChars_outside. rewrite length_replicate. lia.
    + apply rasterChars_outside. lia.
Qed.

(** Where the bytes of a call go. *)
Lemma sendsTo_refl a s : sendsTo a s s.
Proof. exists []. split; [now rewrite app_nil_r|constructor]. Qed.

Lemma sendsTo_trans a s1 s2 s3 :
  sendsTo a s1 s2 -> sendsTo a s2 s3 -> sendsTo a s1 s3.
Proof.
  intros (e1 & B1 & F1) (e2 & B2 & F2). exists (e1 ++ e2). split.
  - now rewrite B2, B1, app_assoc.
  - now apply Forall_app.
Qed.

Lemma sendsTo_emit a e s0 s :
  toAddress a e -> sendsTo a s0 s -> sendsTo a s0 (emit e s).
Proof.
  intros He H. apply (sendsTo_trans _ _ _ _ H).
  exists [e]. split; [reflexivity|]. constructor; [exact He|constructor].
Qed.

Lemma sendsTo_same a s0 s s' :
  bus s' = bus s -> sendsTo a s0 s -> sendsTo a s0 s'.
Proof.
  intros Hb (evs & B & F). exists evs. split; [congruence|exact F].
Qed.

Lemma sendsAt_i2cWrite a payload s0 s :
  sendsAt a s0 s -> sendsAt a s0 (i2cWrite payload s).
Proof.
  intros [H A]. split; [|exact A].
  unfold i2cWrite. apply sendsTo_emit; [exact A|exact H].
Qed.

Lemma sendsAt_writeOneByte a v s0 s :
  sendsAt a s0 s -> sendsAt a s0 (writeOneByte v s).
Proof. apply sendsAt_i2cWrite. Qed.

Lemma sendsAt_writeTwoByte a v w s0 s :
  sendsAt a s0 s -> sendsAt a s0 (writeTwoByte v w s).
Proof. apply sendsAt_i2cWrite. Qed.

Lemma sendsAt_writeThreeByte a u v w s0 s :
  sendsAt a s0 s -> sendsAt a s0 (writeThreeByte u v w s).
Proof. apply sendsAt_i2cWrite. Qed.

Lemma sendsAt_set_pos a col page s0 s :
  sendsAt a s0 s -> sendsAt a s0 (set_pos col page s).
Proof.
  intros H. unfold set_pos. now do 3 apply sendsAt_writeOneByte.
Qed.

Lemma sendsAt_withAddress a s0 s :
  sendsTo a s0 s -> sendsAt a s0 (withAddress a s).
Proof.
  intros H. split; [|reflexivity]. now apply (sendsTo_same _ _ s).
Qed.

Lemma sendsAt_withInitialised a i s0 s :
  sendsAt a s0 s -> sendsAt a s0 (withInitialised i s).
Proof.
  intros [H A]. split; [|exact A]. now apply (sendsTo_same _ _ s).
Qed.

Lemma sendsAt_withScreenBuf a b s0 s :
  sendsAt a s0 s -> sendsAt a s0 (withScreenBuf b s).
Proof.
  intros [H A]. split; [|exact A]. now apply (sendsTo_same _ _ s).
Qed.

Lemma sendsAt_clearBody a s0 s :
  sendsAt a s0 s -> sendsAt a s0 (clearBody s).
Proof.
  intros H. unfold clearBody.
  now apply sendsAt_i2cWrite, sendsAt_set_pos, sendsAt_withScreenBuf.
Qed.

Lemma sendsAt_initDisplay1 s0 s :
  sendsTo DISPLAY_ADDR_1 s0 s ->
  sendsAt DISPLAY_ADDR_1 s0 (initDisplay ack (Some 1) s).
Proof.
  intros H. unfold initDisplay.
  assert (H1 : sendsAt DISPLAY_ADDR_1 s0
                 (i2cWrite [0; 175]
                    (withAddress (setScreenAddr (Some 1)) s)))
    by now apply sendsAt_i2cWrite, sendsAt_withAddress.
  cbv zeta. destruct (_ =? -1010).
  - destruct H1 as [H1 A1]. split; [|exact A1].
    now apply sendsTo_emit.
  - apply sendsAt_clearBody.
    apply (sendsAt_withAddress DISPLAY_ADDR_1).
    apply sendsAt_withInitialised.
    repeat first [ apply sendsAt_writeOneByte
                 | apply sendsAt_writeTwoByte
                 | apply sendsAt_writeThreeByte ].
    exact H1.
Qed.

Lemma sendsTo_lazyInit1 s :
  let s' := lazyInit ack (Some 1) s in
  sendsTo DISPLAY_ADDR_1 s s'
  /\ (displayAddress s' = displayAddress s
      \/ displayAddress s' = DISPLAY_ADDR_1).
Proof.
  unfold lazyInit. destruct (initialised s =? 0).
  - destruct (sendsAt_initDisplay1 s s (sendsTo_refl _ _)) as [H A].
    split; [exact H|now right].
  - split; [apply sendsTo_refl|now left].
Qed.

Lemma sendsTo_i2cWrite payload s :
  sendsTo (displayAddress s) s (i2cWrite payload s).
Proof.
  apply sendsAt_i2cWrite. split; [apply sendsTo_refl|reflexivity].
Qed.

Lemma sendsTo_set_pos col page s :
  sendsTo (displayAddress s) s (set_pos col page s).
Proof.
  apply sendsAt_set_pos. split; [apply sendsTo_refl|reflexivity].
Qed.

Lemma sendsTo_renderLines inputString align lines :
  forall textLine r,
    sendsTo (displayAddress (r_state r)) (r_state r)
      (r_state (renderLines inputString align lines textLine r)).
Proof.
  intros textLine r.
  destruct (renderLines_bus inputString align lines textLine r)
    as (payloads & _ & _ & E).
  eexists. split; [exact E|]. clear E.
  generalize (startColumns inputString align lines textLine (r_x r)).
  generalize (r_y r). intros y cols. revert y payloads.
  induction cols as [|x cols IH]; intros y [|p ps]; simpl;
    try constructor; [reflexivity|]. repeat (constructor; [reflexivity|]).
  apply IH.
Qed.

Lemma sendsTo_show1 inputData line align s :
  sendsTo DISPLAY_ADDR_1 s (show ack inputData line align None s).
Proof.
  unfold show.
  set (s0 := withAddress (setScreenAddr None) s).
  destruct (sendsTo_lazyInit1 s0) as [S1 A1].
  assert (A : displayAddress (lazyInit ack (Some 1) s0) = DISPLAY_ADDR_1)
    by (destruct A1 as [->| ->]; reflexivity).
  apply sendsTo_trans with (lazyInit ack (Some 1) s0).
  - destruct S1 as (evs & B & F). exists evs. split; assumption.
  - rewrite <- A at 1.
    match goal with
    | |- sendsTo _ _ (r_state (renderLines ?a ?b ?c ?t ?r)) =>
        exact (sendsTo_renderLines a b c t r)
    end.
Qed.

Lemma bus_plotColumn s i :
  bus (plotColumn s i) = bus s
  /\ displayAddress (plotColumn s i) = displayAddress s.
Proof.
  unfold plotColumn. destruct (i =? 0); simpl;
    destruct (segmentOf _ _); split; reflexivity.
Qed.

Lemma bus_redraw n s :
  bus (redraw n s) = bus s.
Proof.
  unfold redraw. generalize (seqZ 0 (n + 1)). intros l. revert s.
  induction l as [|i l IH]; intros s; simpl; [reflexivity|].
  rewrite IH. apply bus_plotColumn.
Qed.

(** X13.  [clearLine] and [plot] send every byte to display 1, in any
    state, whatever the probe answers and whichever screen is selected:
    the first calls [show] and the second [refresh] without passing the
    selection on. *)
Theorem screen_selector_ignored (line : Z) (plotVariable : Q)
    (screen : option Z) (s : state) :
  Forall (toAddress DISPLAY_ADDR_1)
         (newEvents s (clearLine ack line screen s))
  /\ Forall (toAddress DISPLAY_ADDR_1)
            (newEvents s (plot ack plotVariable screen s)).
Proof.
  assert (N : forall s', sendsTo DISPLAY_ADDR_1 s s' ->
                         Forall (toAddress DISPLAY_ADDR_1) (newEvents s s')).
  { intros s' (evs & B & F). unfold newEvents.
    now rewrite B, drop_app_length. }
  split; apply N.
  - unfold clearLine.
    set (s0 := withAddress (setScreenAddr screen) s).
    destruct (sendsTo_lazyInit1 s0) as [S1 _].
    apply sendsTo_trans with (lazyInit ack (Some 1) s0).
    + destruct S1 as (evs & B & F). exists evs. split; assumption.
    + apply sendsTo_show1.
  - unfold plot.
    set (s0 := withAddress (setScreenAddr screen) s).
    destruct (sendsTo_lazyInit1 s0) as [S1 _].
    set (s1 := lazyInit ack (Some 1) s0) in *.
    apply sendsTo_trans with s1.
    + destruct S1 as (evs & B & F). exists evs. split; assumption.
    + set (s2 := redraw _ _).
      assert (B2 : bus s2 = bus s1) by (unfold s2; now rewrite bus_redraw).
      unfold refresh.
      set (s3 := withAddress (setScreenAddr None) s2).
      destruct (sendsTo_lazyInit1 s3) as [S3 A3].
      assert (A : displayAddress (lazyInit ack (Some 1) s3) = DISPLAY_ADDR_1)
        by (destruct A3 as [->| ->]; reflexivity).
      apply sendsTo_trans with (lazyInit ack (Some 1) s3).
      * destruct S3 as (evs & B & F). exists evs. split; [|assumption].
        rewrite B. simpl. now rewrite B2.
      * eapply sendsTo_trans.
        -- rewrite <- A at 1. apply sendsTo_set_pos.
        -- pose proof (sendsTo_i2cWrite
                         (screenBuf (set_pos 0 0 (lazyInit ack (Some 1) s3)))
                         (set_pos 0 0 (lazyInit ack (Some 1) s3))) as W.
           simpl displayAddress in W. rewrite A in W. exact W.
Qed.

End Lines.

Lemma clearLine_bytes_witness :
  ready readyState
  /\ getByte (screenBuf (clearLine alwaysPresent 2 None readyState)) 259
     = if (startRow (Some 2) * 128 + 1 <=? 259)
          && (259 <=? startRow (Some 2) * 128 + clearedColumns 2)
       then 0 else getByte (screenBuf readyState) 259.
Proof.
  assert (R : ready readyState)
    by (split; [vm_compute; discriminate|vm_compute; reflexivity]).
  split; [exact R|].
  exact (clearLine_bytes alwaysPresent 2 None readyState 259 R).
Defined.

(** * Clear, draw, refresh *)

Section Scenario.

Variable ack : nat -> Z -> Z.

Lemma refresh_ready (screen : option Z) (s : state) :
  ready s ->
  screenBuf (refresh ack screen s) = screenBuf s
  /\ bus (refresh ack screen s)
     = (bus s ++ posEvents (setScreenAddr screen) 0 0)
       ++ [I2CWrite (setScreenAddr screen) (screenBuf s)].
Proof.
  intros Hs. unfold refresh. rewrite enter by exact Hs.
  split; [reflexivity|].
  unfold i2cWrite, emit. cbn [bus]. rewrite bus_set_pos. reflexivity.
Qed.

(** X14.  On an initialised display, [clear], then [setPixel(x, y)],
    then [refresh] ends by sending the whole framebuffer to the
    selected display, and in that frame pixel [(x, y)] is the only
    pixel on. *)
Theorem clear_setPixel_refresh (s : state) (x y : Z) (screen : option Z) :
  ready s -> 0 <= x <= 127 -> 0 <= y <= 63 ->
  let s' := run ack [Clear screen; SetPixel x y screen; Refresh screen] s in
  last (bus s') = Some (I2CWrite (setScreenAddr screen) (screenBuf s'))
  /\ forall x' y', 0 <= x' <= 127 -> 0 <= y' <= 63 ->
       pixelOn (screenBuf s') x' y' = true <-> x' = x /\ y' = y.
Proof.
  intros Hs Hx Hy s'.
  assert (E : s' = refresh ack screen
                     (setPixel ack x y screen (clear ack screen s)))
    by reflexivity.
  clearbody s'. subst s'.
  pose proof (quiet_ready _ _ Hs (quiet_clear ack screen s Hs)) as R1.
  assert (B1 : screenBuf (clear ack screen s) = blankScreen)
    by apply screenBuf_clear, Hs.
  set (s1 := clear ack screen s) in *. clearbody s1.
  pose proof (quiet_ready _ _ R1 (quiet_setPixel ack x y screen s1 R1)) as R2.
  destruct (setPixel_ready ack x y screen s1 (proj1 R1)) as [_ B2].
  set (s2 := setPixel ack x y screen s1) in *. clearbody s2.
  destruct (refresh_ready screen s2 R2) as [B3 E3].
  rewrite B3, E3. split; [apply last_snoc|].
  intros x' y' Hx' Hy'. rewrite B2, B1.
  rewrite pixelOn_bufSetBit by (assumption || reflexivity).
  assert (Hz : pixelOn blankScreen x' y' = false).
  { unfold pixelOn. pose proof (bufIndex_range x' y' Hx' Hy') as Hr.
    rewrite getByte_blankScreen by lia. apply Z.bits_0. }
  rewrite Hz. intuition (try discriminate; lia).
Qed.

End Scenario.

Lemma clear_setPixel_refresh_witness :
  ready readyState
  /\ last (bus (run alwaysPresent
                    [Clear None; SetPixel 3 10 None; Refresh None]
                    readyState))
     = Some (I2CWrite (setScreenAddr None)
               (screenBuf (run alwaysPresent
                             [Clear None; SetPixel 3 10 None; Refresh None]
                             readyState))).
Proof.
  assert (R : ready readyState)
    by (split; [vm_compute; discriminate|vm_compute; reflexivity]).
  split; [exact R|].
  assert (Hx : 0 <= 3 <= 127) by lia.
  assert (Hy : 0 <= 10 <= 63) by lia.
  exact (proj1 (clear_setPixel_refresh alwaysPresent readyState 3 10 None R
                  Hx Hy)).
Defined.

(** * A display that never answers *)

Section Absent.

Variable ack : nat -> Z -> Z.

(** Every probe fails. *)
Hypothesis absent : forall n a, ack n a = -1010.

Lemma quiet_dark s s' : dark s -> quiet s s' -> dark s'.
Proof. intros [Hi Hl] (Hi' & Hl' & _). split; congruence. Qed.

Lemma dark_initDisplay screen s0 s :
  quiet s0 s -> quiet s0 (initDisplay ack screen s).
Proof.
  intros H. unfold initDisplay. rewrite absent. simpl.
  apply (quiet_trans _ _ _ H).
  split; [reflexivity|split; [reflexivity|]].
  eexists. split; [unfold i2cWrite, emit; simpl; rewrite <- app_assoc;
                   reflexivity|].
  repeat constructor.
Qed.

Lemma dark_enter screen screen' s :
  quiet s (lazyInit ack screen' (withAddress (setScreenAddr screen) s)).
Proof.
  unfold lazyInit. destruct (_ =? 0).
  - apply dark_initDisplay, quiet_withAddress, quiet_refl.
  - apply quiet_withAddress, quiet_refl.
Qed.

Lemma dark_fold {A : Type} (f : state -> A -> state) (l : list A) :
  (forall s a, dark s -> quiet s (f s a)) ->
  forall s, dark s -> quiet s (fold_left f l s).
Proof.
  intros Hf. induction l as [|a l IH]; intros s Hs; simpl;
    [apply quiet_refl|].
  apply (quiet_trans _ (f s a)); [now apply Hf|].
  apply IH. eapply quiet_dark; [exact Hs|now apply Hf].
Qed.

Lemma dark_clearBody s0 s :
  length (screenBuf s) = 1025%nat -> quiet s0 s -> quiet s0 (clearBody s).
Proof.
  intros Hl H. unfold clearBody.
  apply quiet_i2cWrite.
  - simpl. apply long_payload_quiet.
    rewrite length_setByte. unfold bufFill0. rewrite length_replicate. lia.
  - apply quiet_set_pos, quiet_withScreenBuf; [|exact H].
    rewrite length_setByte. unfold bufFill0. apply length_replicate.
Qed.

Lemma dark_setPixel x y screen s : quiet s (setPixel ack x y screen s).
Proof.
  unfold setPixel.
  apply quiet_i2cWrite; [reflexivity|].
  apply quiet_set_pos, quiet_withScreenBuf; [apply length_setByte|].
  apply dark_enter.
Qed.

Lemma dark_clearPixel x y screen s : quiet s (clearPixel ack x y screen s).
Proof.
  unfold clearPixel.
  apply quiet_i2cWrite; [reflexivity|].
  apply quiet_set_pos, quiet_withScreenBuf; [apply length_setByte|].
  apply dark_enter.
Qed.

Lemma dark_show inputData line align screen s :
  quiet s (show ack inputData line align screen s).
Proof.
  unfold show.
  eapply quiet_trans; [|apply quiet_renderLines]. simpl.
  apply dark_enter.
Qed.

Lemma dark_clearLine line screen s : quiet s (clearLine ack line screen s).
Proof.
  unfold clearLine.
  eapply quiet_trans; [apply dark_enter|]. apply dark_show.
Qed.

Lemma dark_drawLine d len x y screen s :
  dark s -> quiet s (drawLine ack d len x y screen s).
Proof.
  intros Hs. destruct d; simpl; apply dark_fold; try exact Hs;
    intros; apply dark_setPixel.
Qed.

Lemma dark_drawRect w h x y screen s :
  dark s -> quiet s (drawRect ack w h x y screen s).
Proof.
  intros Hs. unfold drawRect.
  pose proof (dark_drawLine horizontal w x y screen s Hs) as H1.
  pose proof (quiet_dark _ _ Hs H1) as R1.
  pose proof (dark_drawLine horizontal w x (y + h - 1) screen _ R1) as H2.
  pose proof (quiet_dark _ _ R1 H2) as R2.
  pose proof (dark_drawLine vertical h x y screen _ R2) as H3.
  pose proof (quiet_dark _ _ R2 H3) as R3.
  pose proof (dark_drawLine vertical h (x + w - 1) y screen _ R3) as H4.
  eauto using quiet_trans.
Qed.

Lemma dark_clear screen s : dark s -> quiet s (clear ack screen s).
Proof.
  intros Hs. unfold clear.
  pose proof (dark_enter screen (Some 1) s) as H.
  apply dark_clearBody; [|exact H].
  apply (quiet_dark _ _ Hs H).
Qed.

Lemma dark_controlDisplayOnOff b screen s :
  quiet s (controlDisplayOnOff ack b screen s).
Proof.
  unfold controlDisplayOnOff.
  destruct b; apply quiet_writeOneByte, dark_enter.
Qed.

Lemma dark_refresh screen s : dark s -> quiet s (refresh ack screen s).
Proof.
  intros Hs. unfold refresh.
  pose proof (dark_enter screen (Some 1) s) as H.
  apply quiet_i2cWrite.
  - apply long_payload_quiet. simpl.
    destruct (quiet_dark _ _ Hs H) as [_ ->]. lia.
  - apply quiet_set_pos. exact H.
Qed.

Lemma dark_invert b screen s : quiet s (invert ack b screen s).
Proof.
  unfold invert. apply quiet_writeOneByte, dark_enter.
Qed.

Lemma dark_plot v screen s : dark s -> quiet s (plot ack v screen s).
Proof.
  intros Hs. unfold plot.
  pose proof (dark_enter screen (Some 1) s) as H0.
  set (s0 := lazyInit ack (Some 1) (withAddress (setScreenAddr screen) s))
    in *.
  assert (H1 : quiet s (recordSample v s0))
    by (unfold recordSample; apply quiet_withPlot; exact H0).
  assert (H2 : quiet s (redraw (Z.of_nat (length (plotArray s0)))
                               (recordSample v s0))).
  { apply (quiet_trans _ _ _ H1). unfold redraw.
    generalize (seqZ 0 (Z.of_nat (length (plotArray s0)) + 1)).
    intros l. generalize (recordSample v s0). induction l as [|i l IH];
      intros st; simpl; [apply quiet_refl|].
    eapply quiet_trans; [apply quiet_plotColumn|apply IH]. }
  apply (quiet_trans _ _ _ H2), dark_refresh, (quiet_dark _ _ Hs H2).
Qed.

Lemma dark_exec c s : dark s -> quiet s (exec ack c s).
Proof.
  intros Hs. destruct c; simpl;
    auto using dark_setPixel, dark_clearPixel, dark_show,
      dark_clearLine, dark_drawLine, dark_drawRect, dark_clear,
      dark_controlDisplayOnOff, dark_plot, dark_refresh, dark_invert.
  apply dark_initDisplay, quiet_refl.
Qed.

Lemma dark_run cs : forall s, dark s -> quiet s (run ack cs s).
Proof.
  induction cs as [|c cs IH]; intros s Hs; [apply quiet_refl|].
  rewrite run_cons.
  pose proof (dark_exec c s Hs) as H1.
  apply (quiet_trans _ _ _ H1), IH, (quiet_dark _ _ Hs H1).
Qed.

End Absent.

(** X15.  While no display answers the probe, no sequence of calls
    initialises: the flag stays 0 and nothing of the init sequence is
    sent, although every call still draws into the framebuffer and
    writes to the bus. *)
Theorem absent_display_stays_uninitialised (ack : nat -> Z -> Z)
    (cs : list call) (s : state) :
  (forall n a, ack n a = -1010) ->
  initialised s = 0 -> length (screenBuf s) = 1025%nat ->
  initialised (run ack cs s) = 0
  /\ Forall (fun e => isConfigWrite e = false) (newEvents s (run ack cs s)).
Proof.
  intros Ha Hi Hl.
  pose proof (dark_run ack Ha cs s (conj Hi Hl)) as Q. split.
  - destruct Q as [-> _]. exact Hi.
  - apply quiet_newEvents, Q.
Qed.

Lemma absent_display_stays_uninitialised_witness :
  ((forall n a, neverPresent n a = -1010)
   /\ initialised initState = 0
   /\ length (screenBuf initState) = 1025%nat)
  /\ initialised (run neverPresent [SetPixel 1 1 None; Refresh None]
                      initState) = 0.
Proof.
  assert (A : forall n a, neverPresent n a = -1010) by reflexivity.
  split; [exact (conj A (conj eq_refl eq_refl))|].
  exact (proj1 (absent_display_stays_uninitialised neverPresent
                  [SetPixel 1 1 None; Refresh None] initState A
                  eq_refl eq_refl)).
Defined.

(** * Colours of the ZIP LEDs *)

Lemma wrap32_mod (z : Z) : wrap32 z mod 2 ^ 32 = z mod 2 ^ 32.
Proof.
  unfold wrap32. rewrite Zminus_mod_idemp_l. f_equal. lia.
Qed.

Lemma testbit_wrap32 (z n : Z) :
  0 <= n < 32 -> Z.testbit (wrap32 z) n = Z.testbit z n.
Proof.
  intros Hn.
  rewrite <- (Z.mod_pow2_bits_low (wrap32 z) 32 n) by lia.
  rewrite wrap32_mod. apply Z.mod_pow2_bits_low. lia.
Qed.

Lemma testbit_land_255 (x n : Z) :
  0 <= n -> Z.testbit (Z.land x 255) n = Z.testbit x n && (n <? 8).
Proof. intros Hn. now rewrite Z.land_spec, testbit_255. Qed.

Lemma land_255_range (x : Z) : 0 <= Z.land x 255 < 256.
Proof.
  change 255 with (Z.ones 8). rewrite Z.land_ones by lia.
  apply Z.mod_pos_bound. lia.
Qed.

Lemma jsShl_byte (x k : Z) :
  0 <= x < 256 -> 0 <= k <= 16 -> jsShl x k = Z.shiftl x k.
Proof.
  intros Hx Hk. unfold jsShl.
  replace (Z.land k 31) with k.
  - apply wrap32_small. rewrite Z.shiftl_mul_pow2 by lia.
    assert (2 ^ k <= 2 ^ 16) by (apply Z.pow_le_mono_r; lia).
    assert (0 < 2 ^ k) by (apply Z.pow_pos_nonneg; lia).
    change (2 ^ 16) with 65536 in *. change (2 ^ 31) with 2147483648. nia.
  - change 31 with (Z.ones 5). rewrite Z.land_ones by lia.
    symmetry. apply Z.mod_small. change (2 ^ 5) with 32. lia.
Qed.

Ltac bool_clean :=
  repeat (rewrite andb_true_r || rewrite andb_false_r || rewrite orb_false_r
          || rewrite orb_false_l || rewrite andb_true_l).

Lemma packRGB_bits (a b c : num) (n : Z) :
  0 <= n ->
  Z.testbit (packRGB a b c) n
  = (Z.testbit (toInt a) (n - 16) && (n - 16 <? 8))
    || (Z.testbit (toInt b) (n - 8) && (n - 8 <? 8))
    || (Z.testbit (toInt c) n && (n <? 8)).
Proof.
  intros Hn. unfold packRGB.
  rewrite !jsShl_byte by (try apply land_255_range; lia).
  rewrite !Z.lor_spec, !Z.shiftl_spec by lia.
  rewrite (testbit_land_255 (toInt c)) by lia.
  f_equal. f_equal.
  - destruct (Z.leb_spec 0 (n - 16)).
    + now apply testbit_land_255.
    + rewrite !Z.testbit_neg_r by lia. reflexivity.
  - destruct (Z.leb_spec 0 (n - 8)).
    + now apply testbit_land_255.
    + rewrite !Z.testbit_neg_r by lia. reflexivity.
Qed.

Lemma unpack_bits (rgb k n : Z) :
  0 <= n -> 0 <= k <= 16 ->
  Z.testbit (Z.land (Z.shiftr (wrap32 rgb) k) 255) n
  = Z.testbit rgb (n + k) && (n <? 8).
Proof.
  intros Hn Hk. rewrite testbit_land_255, Z.shiftr_spec by lia.
  destruct (Z.ltb_spec n 8); [|now rewrite !andb_false_r].
  now rewrite testbit_wrap32 by lia.
Qed.

(** X16.  Unpacking a packed colour gives back the low eight bits of
    each channel, whatever numbers were packed. *)
Theorem unpack_packRGB (a b c : num) :
  unpackR (packRGB a b c) = Z.land (toInt a) 255
  /\ unpackG (packRGB a b c) = Z.land (toInt b) 255
  /\ unpackB (packRGB a b c) = Z.land (toInt c) 255.
Proof.
  unfold unpackR, unpackG, unpackB.
  replace (wrap32 (packRGB a b c)) with (Z.shiftr (wrap32 (packRGB a b c)) 0)
    at 3 by apply Z.shiftr_0_r.
  repeat split; apply Z.bits_inj'; intros n Hn;
    rewrite unpack_bits, packRGB_bits, testbit_land_255 by lia;
    destruct (Z.ltb_spec n 8); rewrite ?andb_false_r; try reflexivity;
    rewrite ?andb_true_r.
  - replace (n + 16 - 16) with n by lia.
    destruct (Z.ltb_spec n 8); [|lia].
    destruct (Z.ltb_spec (n + 16 - 8) 8); [lia|].
    destruct (Z.ltb_spec (n + 16) 8); [lia|].
    now bool_clean.
  - replace (n + 8 - 8) with n by lia.
    rewrite (Z.testbit_neg_r _ (n + 8 - 16)) by lia.
    destruct (Z.ltb_spec n 8); [|lia].
    destruct (Z.ltb_spec (n + 8) 8); [lia|].
    now bool_clean.
  - replace (n + 0) with n by lia.
    rewrite (Z.testbit_neg_r _ (n - 16)), (Z.testbit_neg_r _ (n - 8)) by lia.
    destruct (Z.ltb_spec n 8); [|lia]. now bool_clean.
Qed.

Lemma toInt_ofZ (z : Z) : toInt (ofZ z) = wrap32 z.
Proof.
  unfold toInt, ofZ, Qtrunc. destruct (Qltb (inject_Z z) 0).
  - now rewrite Qceiling_Z.
  - now rewrite Qfloor_Z.
Qed.

(** X17.  Packing the three channels of a colour gives back its low
    24 bits: a colour of the palette, or any value below [2 ^ 24],
    survives the round trip. *)
Theorem packRGB_unpack (rgb : Z) :
  packRGB (ofZ (unpackR rgb)) (ofZ (unpackG rgb)) (ofZ (unpackB rgb))
  = Z.land rgb 0xFFFFFF.
Proof.
  apply Z.bits_inj'. intros n Hn.
  rewrite packRGB_bits, !toInt_ofZ by lia.
  unfold unpackR, unpackG, unpackB.
  replace (Z.land (wrap32 rgb) 255) with (Z.land (Z.shiftr (wrap32 rgb) 0) 255)
    by now rewrite Z.shiftr_0_r.
  rewrite Z.land_spec. change 16777215 with (Z.ones 24).
  destruct (Z.ltb_spec n 8); [|destruct (Z.ltb_spec n 16);
                                [|destruct (Z.ltb_spec n 24)]].
  - rewrite (Z.testbit_neg_r _ (n - 16)), (Z.testbit_neg_r _ (n - 8)) by lia.
    rewrite testbit_wrap32, unpack_bits by lia.
    rewrite Z.ones_spec_low by lia. simpl.
    replace (n + 0) with n by lia.
    destruct (Z.ltb_spec n 8); [|lia]. now bool_clean.
  - rewrite (Z.testbit_neg_r _ (n - 16)) by lia.
    rewrite testbit_wrap32, unpack_bits by lia.
    rewrite Z.ones_spec_low by lia. simpl.
    replace (n - 8 + 8) with n by lia.
    destruct (Z.ltb_spec (n - 8) 8); [|lia].
    now bool_clean.
  - rewrite testbit_wrap32, unpack_bits by lia.
    rewrite Z.ones_spec_low by lia.
    replace (n - 16 + 16) with n by lia.
    destruct (Z.ltb_spec (n - 16) 8); [|lia].
    destruct (Z.ltb_spec (n - 8) 8); [lia|].
    now bool_clean.
  - rewrite Z.ones_spec_high by lia.
    destruct (Z.ltb_spec (n - 16) 8); [lia|].
    destruct (Z.ltb_spec (n - 8) 8); [lia|].
    now bool_clean.
Qed.

Lemma sameChannels_eq a b : sameChannels a b = true -> a = b.
Proof.
  destruct a as [[r g] b0], b as [[r' g'] b']. unfold sameChannels.
  intros H. apply andb_prop in H. destruct H as [H H3].
  apply andb_prop in H. destruct H as [H1 H2].
  apply Z.eqb_eq in H1, H2, H3. congruence.
Qed.

Lemma forallb_seqZ (P : Z -> bool) (lo n : Z) :
  forallb P (seqZ lo n) = true ->
  forall z, lo <= z < lo + n -> P z = true.
Proof.
  intros H z Hz. rewrite forallb_forall in H. apply H.
  apply list_elem_of_In, elem_of_seqZ. lia.
Qed.

(** X18.  For a whole number of degrees, [hueToRGB] gives the ramps of
    [hueChannels]; within 0..359 the three channels add up to 255; any
    other hue, 360 included, gives black. *)
Theorem hueToRGB_channels (hue : Z) :
  channels (hueToRGB hue) = hueChannels hue
  /\ (0 <= hue < 360 ->
      unpackR (hueToRGB hue) + unpackG (hueToRGB hue)
      + unpackB (hueToRGB hue) = 255)
  /\ (hue < 0 \/ 360 <= hue -> hueToRGB hue = 0).
Proof.
  assert (In360 : forall h, 0 <= h < 0 + 360 ->
            sameChannels (channels (hueToRGB h)) (hueChannels h)
            && (unpackR (hueToRGB h) + unpackG (hueToRGB h)
                + unpackB (hueToRGB h) =? 255) = true).
  { apply forallb_seqZ. vm_compute. reflexivity. }
  assert (Out : hue < 0 \/ 360 <= hue -> hueToRGB hue = 0
                                         /\ hueChannels hue = (0, 0, 0)).
  { intros H. unfold hueToRGB, hueChannels.
    destruct (Z.geb_spec hue 0), (Z.leb_spec 0 hue), (Z.ltb_spec hue 120),
      (Z.geb_spec hue 120), (Z.leb_spec 120 hue), (Z.ltb_spec hue 240),
      (Z.geb_spec hue 240), (Z.leb_spec 240 hue), (Z.ltb_spec hue 360);
      try lia; split; reflexivity. }
  destruct (Z_lt_le_dec hue 0) as [L|L];
    [|destruct (Z_lt_le_dec hue 360) as [U|U]].
  - destruct Out as [E1 E2]; [lia|]. rewrite E1, E2.
    split; [reflexivity|]. split; [lia|]. reflexivity.
  - specialize (In360 hue ltac:(lia)). apply andb_prop in In360.
    destruct In360 as [C S]. apply sameChannels_eq in C. apply Z.eqb_eq in S.
    split; [exact C|]. split; [intros _; exact S|lia].
  - destruct Out as [E1 E2]; [lia|]. rewrite E1, E2.
    split; [reflexivity|]. split; [lia|]. reflexivity.
Qed.

(** X19.  For a whole number of nanometres, [wavelength] gives the
    channels of [wavelengthChannels]: blue to green from 470 up to 525,
    green to red from 525 to 625, and black outside 470..625. *)
Theorem wavelength_channels (w : Z) :
  channels (wavelength w) = wavelengthChannels w.
Proof.
  assert (In : forall v, 470 <= v < 470 + 156 ->
            sameChannels (channels (wavelength v)) (wavelengthChannels v)
            = true).
  { apply forallb_seqZ. vm_compute. reflexivity. }
  destruct (Z_lt_le_dec w 470) as [L|L];
    [|destruct (Z_lt_le_dec w 626) as [U|U]].
  - unfold wavelength, wavelengthChannels.
    destruct (Z.geb_spec w 470), (Z.leb_spec 470 w), (Z.geb_spec w 525),
      (Z.leb_spec 525 w); try lia; reflexivity.
  - apply sameChannels_eq, In. lia.
  - unfold wavelength, wavelengthChannels.
    destruct (Z.geb_spec w 470), (Z.leb_spec 470 w), (Z.ltb_spec w 525),
      (Z.geb_spec w 525), (Z.leb_spec 525 w), (Z.leb_spec w 625);
      try lia; reflexivity.
Qed.

(** * The strip and its ranges *)

Lemma unpack_byte (rgb : Z) :
  Z.land (unpackR rgb) 255 = unpackR rgb
  /\ Z.land (unpackG rgb) 255 = unpackG rgb
  /\ Z.land (unpackB rgb) 255 = unpackB rgb.
Proof.
  unfold unpackR, unpackG, unpackB.
  repeat split; rewrite <- Z.land_assoc; reflexivity.
Qed.

Lemma length_setBufferRGB buf o r g b :
  length (ZIP.setBufferRGB buf o r g b) = length buf.
Proof. unfold ZIP.setBufferRGB. now rewrite !length_setByte. Qed.

Lemma ledBytes_setBufferRGB (buf : list Z) (i r g b led : Z) :
  0 <= i -> i * 3 + 2 < Z.of_nat (length buf) ->
  ledBytes (ZIP.setBufferRGB buf (i * 3) r g b) led
  = if led =? i then (Z.land g 255, Z.land r 255, Z.land b 255)
    else ledBytes buf led.
Proof.
  intros Hi Hl. unfold ledBytes, ZIP.setBufferRGB.
  destruct (Z.eqb_spec led i) as [->|N].
  - rewrite getByte_setByte_eq by (rewrite !length_setByte; lia).
    rewrite (getByte_setByte_ne _ (i * 3 + 2) (i * 3 + 1)) by lia.
    rewrite getByte_setByte_eq by (rewrite !length_setByte; lia).
    rewrite !(getByte_setByte_ne _ _ (i * 3)) by lia.
    replace (i * 3 + 0) with (i * 3) by lia.
    rewrite getByte_setByte_eq by lia. reflexivity.
  - rewrite !getByte_setByte_ne by lia. reflexivity.
Qed.

(** X20.  [setPixelRGB] stores green, red, blue, in this order, in the
    three bytes of LED [n] of the range and changes no other LED; an
    offset outside the range changes nothing. *)
Theorem setPixelRGB_led (this : ZIP.airQualityZIPLEDs) (n rgb : Z)
    (buf : list Z) (led : Z) :
  0 <= ZIP.start this ->
  (ZIP.start this + ZIP._length this) * 3 <= Z.of_nat (length buf) ->
  ledBytes (ZIP.setPixelRGB this n rgb buf) led
  = if (0 <=? n) && (n <? ZIP._length this) && (led =? n + ZIP.start this)
    then (unpackG rgb, unpackR rgb, unpackB rgb)
    else ledBytes buf led.
Proof.
  intros Hs Hb. unfold ZIP.setPixelRGB.
  destruct (Z.ltb_spec n 0); simpl; [destruct (0 <=? n) eqn:E;
                                     [lia|reflexivity]|].
  destruct (Z.geb_spec n (ZIP._length this)); simpl.
  - destruct (Z.leb_spec 0 n), (Z.ltb_spec n (ZIP._length this)); try lia;
      reflexivity.
  - destruct (Z.leb_spec 0 n), (Z.ltb_spec n (ZIP._length this)); try lia.
    simpl. rewrite ledBytes_setBufferRGB by lia.
    destruct (unpack_byte rgb) as (-> & -> & ->). reflexivity.
Qed.

Lemma setPixelRGB_led_witness :
  (0 <= ZIP.start (ZIP.mkZIP 128 0 3)
   /\ (ZIP.start (ZIP.mkZIP 128 0 3) + ZIP._length (ZIP.mkZIP 128 0 3)) * 3
      <= Z.of_nat (length (replicate 9 0)))
  /\ ledBytes (ZIP.setPixelRGB (ZIP.mkZIP 128 0 3) 1 0xFFA500
                                (replicate 9 0)) 1
     = if (0 <=? 1) && (1 <? ZIP._length (ZIP.mkZIP 128 0 3))
          && (1 =? 1 + ZIP.start (ZIP.mkZIP 128 0 3))
       then (unpackG 0xFFA500, unpackR 0xFFA500, unpackB 0xFFA500)
       else ledBytes (replicate 9 0) 1.
Proof.
  assert (H1 : 0 <= ZIP.start (ZIP.mkZIP 128 0 3)) by (simpl; lia).
  assert (H2 : (ZIP.start (ZIP.mkZIP 128 0 3)
                + ZIP._length (ZIP.mkZIP 128 0 3)) * 3
               <= Z.of_nat (length (replicate 9 0))) by (simpl; lia).
  split; [split; assumption|].
  exact (setPixelRGB_led (ZIP.mkZIP 128 0 3) 1 0xFFA500 (replicate 9 0) 1
           H1 H2).
Defined.

Lemma ledBytes_fold (r g b : Z) (l : list Z) :
  forall (buf : list Z) (led : Z),
    Forall (fun i => 0 <= i /\ i * 3 + 2 < Z.of_nat (length buf)) l ->
    ledBytes (fold_left (fun buf i => ZIP.setBufferRGB buf (i * 3) r g b)
                        l buf) led
    = if decide (led ∈ l) then (Z.land g 255, Z.land r 255, Z.land b 255)
      else ledBytes buf led.
Proof.
  induction l as [|i l IH]; intros buf led Hl; simpl.
  - destruct (decide (led ∈ [])) as [H|H]; [inversion H|reflexivity].
  - apply Forall_cons in Hl. destruct Hl as [[Hi Hb] Hl].
    rewrite IH by (rewrite length_setBufferRGB; exact Hl).
    rewrite ledBytes_setBufferRGB by assumption.
    destruct (decide (led ∈ l)) as [H|H].
    + destruct (decide (led ∈ i :: l)) as [H'|H']; [reflexivity|].
      exfalso. apply H'. now right.
    + destruct (Z.eqb_spec led i) as [->|N].
      * destruct (decide (i ∈ i :: l)) as [H'|H']; [reflexivity|].
        exfalso. apply H'. now left.
      * destruct (decide (led ∈ i :: l)) as [H'|H']; [|reflexivity].
        apply elem_of_cons in H'. destruct H'; contradiction.
Qed.

(** X21.  A range taken from a range of at least one LED lies within
    it, and what is written through it stays there: [setAllRGB] on the
    new range changes no LED outside the range it was taken from. *)
Theorem range_within_parent (this : ZIP.airQualityZIPLEDs)
    (start0 length0 rgb : Z) (buf : list Z) (led : Z) :
  0 <= ZIP.start this -> 1 <= ZIP._length this ->
  (ZIP.start this + ZIP._length this) * 3 <= Z.of_nat (length buf) ->
  let child := ZIP.range this start0 length0 in
  (ZIP.start this <= ZIP.start child
   /\ 0 <= ZIP._length child
   /\ ZIP.start child + ZIP._length child
      <= ZIP.start this + ZIP._length this)
  /\ (led < ZIP.start this \/ ZIP.start this + ZIP._length this <= led ->
      ledBytes (ZIP.setAllRGB child rgb buf) led = ledBytes buf led).
Proof.
  intros Hs Hl Hb child.
  assert (W : ZIP.start this <= ZIP.start child
              /\ 0 <= ZIP._length child
              /\ ZIP.start child + ZIP._length child
                 <= ZIP.start this + ZIP._length this)
    by (unfold child, ZIP.range, Math_clamp; simpl; lia).
  split; [exact W|]. intros Hout. unfold ZIP.setAllRGB.
  rewrite ledBytes_fold.
  - match goal with
    | |- context [decide ?P] => destruct (decide P) as [H|H]
    end; [|reflexivity].
    apply elem_of_seqZ in H. lia.
  - apply Forall_forall. intros i Hi. apply elem_of_seqZ in Hi. lia.
Qed.

Lemma range_within_parent_witness :
  (0 <= ZIP.start (ZIP.mkZIP 128 0 3)
   /\ 1 <= ZIP._length (ZIP.mkZIP 128 0 3)
   /\ (ZIP.start (ZIP.mkZIP 128 0 3) + ZIP._length (ZIP.mkZIP 128 0 3)) * 3
      <= Z.of_nat (length (replicate 12 0)))
  /\ ZIP.start (ZIP.mkZIP 128 0 3)
     <= ZIP.start (ZIP.range (ZIP.mkZIP 128 0 3) 1 5).
Proof.
  assert (H1 : 0 <= ZIP.start (ZIP.mkZIP 128 0 3)) by (simpl; lia).
  assert (H2 : 1 <= ZIP._length (ZIP.mkZIP 128 0 3)) by (simpl; lia).
  assert (H3 : (ZIP.start (ZIP.mkZIP 128 0 3)
                + ZIP._length (ZIP.mkZIP 128 0 3)) * 3
               <= Z.of_nat (length (replicate 12 0))) by (simpl; lia).
  split; [exact (conj H1 (conj H2 H3))|].
  exact (proj1 (proj1 (range_within_parent (ZIP.mkZIP 128 0 3) 1 5 0xFF0000
                         (replicate 12 0) 3 H1 H2 H3))).
Defined.

(** X22.  [setAllRGB] stores the colour in every LED of the range and
    changes no LED outside it. *)
Theorem setAllRGB_leds (this : ZIP.airQualityZIPLEDs) (rgb : Z)
    (buf : list Z) (led : Z) :
  0 <= ZIP.start this ->
  (ZIP.start this + ZIP._length this) * 3 <= Z.of_nat (length buf) ->
  ledBytes (ZIP.setAllRGB this rgb buf) led
  = if (ZIP.start this <=? led)
       && (led <? ZIP.start this + ZIP._length this)
    then (unpackG rgb, unpackR rgb, unpackB rgb)
    else ledBytes buf led.
Proof.
  intros Hs Hb. unfold ZIP.setAllRGB. rewrite ledBytes_fold.
  - destruct (unpack_byte rgb) as (-> & -> & ->).
    destruct (decide (led ∈ seqZ (ZIP.start this)
                        (ZIP.start this + ZIP._length this
                         - ZIP.start this))) as [H|H];
      rewrite elem_of_seqZ in H;
      destruct (Z.leb_spec (ZIP.start this) led),
        (Z.ltb_spec led (ZIP.start this + ZIP._length this));
      simpl; try reflexivity; lia.
  - apply Forall_forall. intros i Hi. apply elem_of_seqZ in Hi. lia.
Qed.

Lemma setAllRGB_leds_witness :
  (0 <= ZIP.start (ZIP.mkZIP 128 1 2)
   /\ (ZIP.start (ZIP.mkZIP 128 1 2) + ZIP._length (ZIP.mkZIP 128 1 2)) * 3
      <= Z.of_nat (length (replicate 9 0)))
  /\ ledBytes (ZIP.setAllRGB (ZIP.mkZIP 128 1 2) 0xFFA500 (replicate 9 0)) 0
     = if (ZIP.start (ZIP.mkZIP 128 1 2) <=? 0)
          && (0 <? ZIP.start (ZIP.mkZIP 128 1 2)
                   + ZIP._length (ZIP.mkZIP 128 1 2))
       then (unpackG 0xFFA500, unpackR 0xFFA500, unpackB 0xFFA500)
       else ledBytes (replicate 9 0) 0.
Proof.
  assert (H1 : 0 <= ZIP.start (ZIP.mkZIP 128 1 2)) by (simpl; lia).
  assert (H2 : (ZIP.start (ZIP.mkZIP 128 1 2)
                + ZIP._length (ZIP.mkZIP 128 1 2)) * 3
               <= Z.of_nat (length (replicate 9 0))) by (simpl; lia).
  split; [split; assumption|].
  exact (setAllRGB_leds (ZIP.mkZIP 128 1 2) 0xFFA500 (replicate 9 0) 0
           H1 H2).
Defined.

Lemma getByte_setByte_0 (buf : list Z) (i j : Z) :
  getByte (setByte buf i 0) j = if j =? i then 0 else getByte buf j.
Proof.
  destruct (Z.eqb_spec j i) as [->|N].
  - unfold getByte, setByte. destruct (Z.leb_spec 0 i); [|reflexivity].
    destruct (decide (Z.to_nat i < length buf)%nat) as [L|L].
    + now rewrite list_lookup_insert_eq.
    + rewrite list_insert_ge by lia. now rewrite lookup_ge_None_2 by lia.
  - apply getByte_setByte_ne. lia.
Qed.

Lemma getByte_fold_black (l : list Z) :
  forall (buf : list Z) (j : Z),
    getByte (fold_left (fun buf i => ZIP.setBufferRGB buf (i * 3) 0 0 0)
                       l buf) j
    = if decide (Exists (fun i => i * 3 <= j < i * 3 + 3) l) then 0
      else getByte buf j.
Proof.
  induction l as [|i l IH]; intros buf j; cbn [fold_left].
  - match goal with
    | |- context [decide ?P] => destruct (decide P) as [H|H]
    end; [inversion H|reflexivity].
  - rewrite IH. unfold ZIP.setBufferRGB. rewrite !getByte_setByte_0.
    destruct (decide (Exists (fun i => i * 3 <= j < i * 3 + 3) l)) as [H|H].
    + destruct (decide (Exists (fun i => i * 3 <= j < i * 3 + 3) (i :: l)))
        as [H'|H']; [reflexivity|].
      exfalso. apply H'. now right.
    + destruct (decide (Exists (fun i => i * 3 <= j < i * 3 + 3) (i :: l)))
        as [H'|H'].
      * apply Exists_cons in H'. destruct H' as [H'|H']; [|contradiction].
        destruct (Z.eqb_spec j (i * 3 + 2)); [reflexivity|].
        destruct (Z.eqb_spec j (i * 3 + 1)); [reflexivity|].
        destruct (Z.eqb_spec j (i * 3 + 0)); [reflexivity|lia].
      * assert (~ (i * 3 <= j < i * 3 + 3))
          by (intros C; apply H'; now left).
        destruct (Z.eqb_spec j (i * 3 + 2)); [lia|].
        destruct (Z.eqb_spec j (i * 3 + 1)); [lia|].
        destruct (Z.eqb_spec j (i * 3 + 0)); [lia|reflexivity].
Qed.

Lemma buffer_ext (a b : list Z) :
  length a = length b ->
  (forall j, 0 <= j < Z.of_nat (length a) -> getByte a j = getByte b j) ->
  a = b.
Proof.
  intros Hl H. apply list_eq. intros k.
  destruct (decide (k < length a)%nat) as [L|L].
  - specialize (H (Z.of_nat k) ltac:(lia)). unfold getByte in H.
    destruct (Z.leb_spec 0 (Z.of_nat k)); [|lia].
    rewrite Nat2Z.id in H.
    destruct (lookup_lt_is_Some_2 a k L) as [x Hx].
    destruct (lookup_lt_is_Some_2 b k ltac:(lia)) as [y Hy].
    rewrite Hx, Hy in *. simpl in H. now subst.
  - rewrite !lookup_ge_None_2 by lia. reflexivity.
Qed.

Lemma length_bufFill buf v o l : length (bufFill buf v o l) = length buf.
Proof.
  unfold bufFill. destruct (_ || _) eqn:E; [reflexivity|].
  apply orb_false_elim in E. destruct E as [E1 E2].
  apply Z.ltb_ge in E1. rewrite Z.gtb_ltb in E2. apply Z.ltb_ge in E2.
  rewrite !length_app, length_take, length_replicate, length_drop.
  destruct (Z.ltb_spec l 0); lia.
Qed.

Lemma getByte_bufFill (buf : list Z) (v o l j : Z) :
  0 <= o <= Z.of_nat (length buf) -> 0 <= l ->
  0 <= j < Z.of_nat (length buf) ->
  getByte (bufFill buf v o l) j
  = if (o <=? j) && (j <? o + l) then Z.land v 255 else getByte buf j.
Proof.
  intros Ho Hl Hj. unfold bufFill.
  destruct (Z.ltb_spec o 0); [lia|]. simpl.
  destruct (Z.gtb_spec o (Z.of_nat (length buf))); [lia|].
  destruct (Z.ltb_spec l 0); [lia|].
  set (m := Z.min l (Z.of_nat (length buf) - o)).
  unfold getByte. destruct (Z.leb_spec 0 j); [|lia].
  destruct (Z.leb_spec o j); simpl.
  - rewrite lookup_app_r by (rewrite length_take; lia).
    rewrite length_take.
    destruct (Z.ltb_spec j (o + l)).
    + rewrite lookup_app_l by (rewrite length_replicate; lia).
      rewrite lookup_replicate_2 by lia. reflexivity.
    + rewrite lookup_app_r by (rewrite length_replicate; lia).
      rewrite length_replicate, lookup_drop. do 2 f_equal. lia.
  - rewrite lookup_app_l by (rewrite length_take; lia).
    rewrite lookup_take_lt by lia. reflexivity.
Qed.

(** X23.  On the buffer, [clear] is [setColor] with black: filling the
    bytes of the range with zero and storing black in each of its LEDs
    give the same buffer, whatever its size. *)
Theorem clear_is_black (this : ZIP.airQualityZIPLEDs) (buf : list Z) :
  0 <= ZIP.start this -> 0 <= ZIP._length this ->
  ZIP.clear this buf = ZIP.setColor this 0 buf.
Proof.
  intros Hs Hl. unfold ZIP.clear, ZIP.setColor, ZIP.setAllRGB.
  change (unpackR (wrap32 0)) with 0. change (unpackG (wrap32 0)) with 0.
  change (unpackB (wrap32 0)) with 0.
  apply buffer_ext.
  - rewrite length_bufFill. symmetry. apply length_fold_buf.
    intros. apply length_setBufferRGB.
  - rewrite length_bufFill. intros j Hj. rewrite getByte_fold_black.
    destruct (Z_le_gt_dec (ZIP.start this * 3) (Z.of_nat (length buf)))
      as [Ho|Ho].
    + rewrite getByte_bufFill by lia. change (Z.land 0 255) with 0.
      match goal with
      | |- context [decide ?P] => destruct (decide P) as [H|H]
      end.
      * apply Exists_exists in H. destruct H as (i & Hi & Hr).
        apply elem_of_seqZ in Hi.
        destruct (Z.leb_spec (ZIP.start this * 3) j),
          (Z.ltb_spec j (ZIP.start this * 3 + ZIP._length this * 3));
          simpl; try reflexivity; lia.
      * destruct (Z.leb_spec (ZIP.start this * 3) j),
          (Z.ltb_spec j (ZIP.start this * 3 + ZIP._length this * 3));
          simpl; try reflexivity.
        exfalso. apply H. apply Exists_exists. exists (j / 3). split.
        -- apply elem_of_seqZ. split.
           ++ apply Z.div_le_lower_bound; lia.
           ++ apply Z.div_lt_upper_bound; lia.
        -- pose proof (Z.mul_div_le j 3 ltac:(lia)).
           pose proof (Z.mul_succ_div_gt j 3 ltac:(lia)). lia.
    + unfold bufFill.
      destruct (Z.gtb_spec (ZIP.start this * 3) (Z.of_nat (length buf)));
        [|lia].
      rewrite orb_true_r.
      match goal with
      | |- context [decide ?P] => destruct (decide P) as [E|E]
      end; [|reflexivity].
      apply Exists_exists in E. destruct E as (i & Hi & Hr).
      apply elem_of_seqZ in Hi. lia.
Qed.

Lemma clear_is_black_witness :
  (0 <= ZIP.start (ZIP.mkZIP 128 1 2) /\ 0 <= ZIP._length (ZIP.mkZIP 128 1 2))
  /\ ZIP.clear (ZIP.mkZIP 128 1 2) [1; 2; 3; 4; 5; 6; 7; 8; 9]
     = ZIP.setColor (ZIP.mkZIP 128 1 2) 0 [1; 2; 3; 4; 5; 6; 7; 8; 9].
Proof.
  assert (H1 : 0 <= ZIP.start (ZIP.mkZIP 128 1 2)) by (simpl; lia).
  assert (H2 : 0 <= ZIP._length (ZIP.mkZIP 128 1 2)) by (simpl; lia).
  split; [split; assumption|].
  exact (clear_is_black (ZIP.mkZIP 128 1 2) [1; 2; 3; 4; 5; 6; 7; 8; 9]
           H1 H2).
Defined.

(** * The day sent to the clock *)

(** X24.  For a day in 1..31, a month in 1..12 and a year in 0..99,
    the day [setDate] sends to the clock is the requested day cut to
    the length of the month in the year 2000 plus [setYear] of the
    Gregorian calendar: a valid day is sent as it is. *)
Theorem setDate_day_valid (setDay setMonth setYear : Z) :
  1 <= setDay <= 31 -> 1 <= setMonth <= 12 -> 0 <= setYear <= 99 ->
  setDate_day setDay setMonth setYear
  = Z.min setDay (daysInMonth setMonth (2000 + setYear)).
Proof.
  intros Hd Hm Hy. unfold setDate_day, daysInMonth, leapYear.
  rewrite Z.rem_mod_nonneg by lia.
  assert (E4 : (2000 + setYear) mod 4 = setYear mod 4).
  { replace (2000 + setYear) with (setYear + 500 * 4) by lia.
    apply Z.mod_add. lia. }
  assert (E100 : (2000 + setYear) mod 100 = setYear).
  { replace (2000 + setYear) with (setYear + 20 * 100) by lia.
    rewrite Z.mod_add by lia. apply Z.mod_small. lia. }
  assert (E400 : (2000 + setYear) mod 400 = setYear).
  { replace (2000 + setYear) with (setYear + 5 * 400) by lia.
    rewrite Z.mod_add by lia. apply Z.mod_small. lia. }
  rewrite E4, E100, E400.
  assert (L : ((setYear mod 4 =? 0) && negb (setYear =? 0)
               || (setYear =? 0)) = (setYear mod 4 =? 0)).
  { destruct (Z.eqb_spec setYear 0) as [->|N]; [reflexivity|].
    simpl. now rewrite andb_true_r, orb_false_r. }
  rewrite L.
  assert (M : setMonth = 1 \/ setMonth = 2 \/ setMonth = 3 \/ setMonth = 4
              \/ setMonth = 5 \/ setMonth = 6 \/ setMonth = 7
              \/ setMonth = 8 \/ setMonth = 9 \/ setMonth = 10
              \/ setMonth = 11 \/ setMonth = 12) by lia.
  repeat (destruct M as [->|M]); try subst setMonth; simpl;
    try (destruct (Z.eqb_spec setDay 31); lia);
    try lia.
  destruct (Z.geb_spec setDay 29); simpl;
    destruct (setYear mod 4 =? 0); lia.
Qed.

Lemma setDate_day_valid_witness :
  (1 <= 31 <= 31 /\ 1 <= 2 <= 12 /\ 0 <= 24 <= 99)
  /\ setDate_day 31 2 24 = Z.min 31 (daysInMonth 2 (2000 + 24)).
Proof.
  split; [lia|].
  apply (setDate_day_valid 31 2 24); lia.
Defined.

(** * The data logger *)

Lemma string_append_assoc (a b c : string) :
  String.append (String.append a b) c = String.append a (String.append b c).
Proof.
  induction a as [|x a IH]; [reflexivity|].
  change (String x (String.append (String.append a b) c)
          = String x (String.append a (String.append b c))).
  now rewrite IH.
Qed.

Lemma string_append_nil_r (a : string) : String.append a "" = a.
Proof.
  induction a as [|x a IH]; [reflexivity|].
  change (String x (String.append a "") = String x a). now rewrite IH.
Qed.

Lemma addField_append inc field s a b :
  addField inc field s (String.append a b)
  = String.append a (addField inc field s b).
Proof.
  unfold addField. destruct inc; [|reflexivity].
  now rewrite !string_append_assoc.
Qed.

Lemma entryText_same s s' r :
  sameSettings s s' -> entryText s' r = entryText s r.
Proof.
  intros (Hd & H1 & H2 & H3 & H4 & H5 & H6 & H7 & H8).
  unfold entryText, addField. now rewrite Hd, H1, H2, H3, H4, H5, H6, H7, H8.
Qed.

Lemma logData_titles (r : readings) (s : logger) :
  writeTitles s = false -> logData r s = logData r (storeTitles s).
Proof.
  intros W. unfold logData. rewrite W.
  change (writeTitles (storeTitles s)) with true. cbv iota. reflexivity.
Qed.

Lemma entry_chain (r : readings) (s : logger) :
  addField (incLight s) (logLight r) s
    (addField (incCO2 s) (logCO2 r) s
       (addField (incIAQ s) (logIAQ r) s
          (addField (incHumid s) (logHumid r) s
             (addField (incPress s) (logPress r) s
                (addField (incTemp s) (logTemp r) s
                   (addField (incTime s) (logTime r) s
                      (addField (incDate s) (logDate r) s
                         (dataEntry s))))))))
  = String.append (dataEntry s) (entryText s r).
Proof.
  unfold entryText. rewrite <- !addField_append.
  now rewrite string_append_nil_r.
Qed.

Lemma logData_titled (r : readings) (s : logger) :
  writeTitles s = true ->
  let s' := logData r s in
  sameSettings s s'
  /\ writeTitles s' = true
  /\ dataEntry s' = String.append (dataEntry s) (entryText s r)
  /\ entryNum s' = (if entryNum s =? 999 then 0 else entryNum s + 1)
  /\ dataFull s' = dataFull s || (entryNum s =? 999)
  /\ comms s' = comms s
  /\ requests s'
     = requests s
       ++ [WriteBlock (String.append (dataEntry s') CRLF)
                      (firstDataBlock + entryNum s);
           WriteByte (Z.shiftr (wrap32 (entryNum s)) 8) (12 * 128);
           WriteByte (Z.land (wrap32 (entryNum s)) 255) (12 * 128 + 1)].
Proof.
  intros W. unfold logData. rewrite W.
  pose proof (entry_chain r s) as T.
  destruct (entryNum s =? 999) eqn:E; cbn; rewrite E; cbn; rewrite T;
    rewrite <- !app_assoc; cbn; rewrite W, ?orb_true_r, ?orb_false_r;
    repeat split; reflexivity.
Qed.

(** What one call of [logData] does. *)
Lemma logData_step (r : readings) (s : logger) :
  let s' := logData r s in
  sameSettings s s'
  /\ writeTitles s' = true
  /\ dataEntry s' = String.append (dataEntry s) (entryText s r)
  /\ entryNum s' = (if entryNum s =? 999 then 0 else entryNum s + 1)
  /\ dataFull s' = dataFull s || (entryNum s =? 999)
  /\ comms s' = comms s
  /\ exists titles,
       blocksWritten titles = titleBlocks s [r]
       /\ (forall a, storedByte a (requests s ++ titles)
                     = storedByte a (requests s))
       /\ requests s'
          = (requests s ++ titles)
            ++ [WriteBlock (String.append (dataEntry s') CRLF)
                           (firstDataBlock + entryNum s);
                WriteByte (Z.shiftr (wrap32 (entryNum s)) 8) (12 * 128);
                WriteByte (Z.land (wrap32 (entryNum s)) 255) (12 * 128 + 1)].
Proof.
  destruct (writeTitles s) eqn:W.
  - destruct (logData_titled r s W) as (S & Wt & D & N & F & C & R).
    repeat (split; [assumption|]).
    exists []. unfold titleBlocks. rewrite W, app_nil_r. auto.
  - cbv zeta. rewrite (logData_titles r s W).
    destruct (logData_titled r (storeTitles s) eq_refl)
      as (S & Wt & D & N & F & C & R).
    split; [exact S|]. split; [exact Wt|]. split.
    { rewrite D. f_equal. }
    split; [exact N|]. split; [exact F|]. split; [exact C|].
    eexists [WriteBlock _ 21; WriteBlock _ 23].
    unfold titleBlocks. rewrite W. split; [reflexivity|]. split.
    { intros a. unfold storedByte. rewrite fold_left_app. reflexivity. }
    rewrite R. unfold storeTitles. cbn. rewrite <- !app_assoc. reflexivity.
Qed.

Lemma logAll_snoc rs r s : logAll (rs ++ [r]) s = logData r (logAll rs s).
Proof. unfold logAll. now rewrite fold_left_app. Qed.

Lemma sameSettings_refl s : sameSettings s s.
Proof. repeat split. Qed.

Lemma sameSettings_trans s1 s2 s3 :
  sameSettings s1 s2 -> sameSettings s2 s3 -> sameSettings s1 s3.
Proof.
  unfold sameSettings. intros H1 H2.
  destruct H1 as (? & ? & ? & ? & ? & ? & ? & ? & ?).
  destruct H2 as (? & ? & ? & ? & ? & ? & ? & ? & ?).
  repeat split; congruence.
Qed.

Lemma logAll_settings rs s : sameSettings s (logAll rs s).
Proof.
  induction rs as [|r rs IH] using rev_ind; [apply sameSettings_refl|].
  rewrite logAll_snoc. eapply sameSettings_trans; [exact IH|].
  apply logData_step.
Qed.

Lemma logAll_counter (rs : list readings) (s : logger) :
  0 <= entryNum s <= 999 ->
  let n := Z.of_nat (length rs) in
  entryNum (logAll rs s) = (entryNum s + n) mod 1000
  /\ dataFull (logAll rs s) = dataFull s || (1000 <=? entryNum s + n).
Proof.
  intros He. induction rs as [|r rs IH] using rev_ind.
  - simpl. rewrite Z.add_0_r, Z.mod_small by lia. split; [reflexivity|].
    destruct (Z.leb_spec 1000 (entryNum s)); [lia|].
    now rewrite orb_false_r.
  - cbv zeta in *. rewrite logAll_snoc, length_app. simpl length.
    destruct IH as [IHn IHf].
    destruct (logData_step r (logAll rs s)) as (_ & _ & _ & N & F & _).
    rewrite N, F, IHn, IHf. clear N F IHn IHf.
    set (n := Z.of_nat (length rs)).
    replace (Z.of_nat (length rs + 1)) with (n + 1) by lia.
    assert (Hn : 0 <= n) by lia.
    pose proof (Z.mod_pos_bound (entryNum s + n) 1000 ltac:(lia)) as Hm.
    pose proof (Z.div_mod (entryNum s + n) 1000 ltac:(lia)) as Hd.
    assert (Hq : 0 <= (entryNum s + n) / 1000)
      by (apply Z.div_pos; lia).
    destruct (Z.eqb_spec ((entryNum s + n) mod 1000) 999) as [E|E].
    + split.
      * apply Z.mod_unique with ((entryNum s + n) / 1000 + 1); lia.
      * rewrite orb_true_r.
        destruct (Z.leb_spec 1000 (entryNum s + (n + 1))); [|lia].
        now rewrite orb_true_r.
    + split.
      * apply Z.mod_unique with ((entryNum s + n) / 1000); lia.
      * rewrite orb_false_r.
        destruct (Z.leb_spec 1000 (entryNum s + n)),
          (Z.leb_spec 1000 (entryNum s + (n + 1))); try reflexivity; lia.
Qed.

(** X25.  After [n] calls of [logData] the entry counter is the count
    modulo 1000, so it stays within 0..999, and the log is marked full
    once the count reaches 1000. *)
Theorem logData_counter (rs : list readings) (s : logger) :
  0 <= entryNum s <= 999 ->
  let n := Z.of_nat (length rs) in
  entryNum (logAll rs s) = (entryNum s + n) mod 1000
  /\ 0 <= entryNum (logAll rs s) <= 999
  /\ dataFull (logAll rs s) = dataFull s || (1000 <=? entryNum s + n).
Proof.
  intros He n. destruct (logAll_counter rs s He) as [N F].
  fold n in N, F. split; [exact N|]. split; [|exact F].
  rewrite N.
  pose proof (Z.mod_pos_bound (entryNum s + n) 1000 ltac:(lia)). lia.
Qed.

Lemma logData_counter_witness :
  0 <= entryNum sampleLogger <= 999
  /\ entryNum (logAll [sampleReadings; sampleReadings] sampleLogger)
     = (entryNum sampleLogger + 2) mod 1000.
Proof.
  assert (H : 0 <= entryNum sampleLogger <= 999) by (simpl; lia).
  split; [exact H|].
  exact (proj1 (logData_counter [sampleReadings; sampleReadings] sampleLogger
                  H)).
Defined.

Lemma blocksWritten_app a b :
  blocksWritten (a ++ b) = blocksWritten a ++ blocksWritten b.
Proof. apply flat_map_app. Qed.

Lemma newRequests_app s s' evs :
  requests s' = requests s ++ evs -> newRequests s s' = evs.
Proof. intros H. unfold newRequests. now rewrite H, drop_app_length. Qed.

Lemma logAll_requests rs :
  forall s, exists evs, requests (logAll rs s) = requests s ++ evs.
Proof.
  induction rs as [|r rs IH] using rev_ind; intros s.
  - exists []. now rewrite app_nil_r.
  - rewrite logAll_snoc. destruct (IH s) as (evs & E).
    destruct (logData_step r (logAll rs s))
      as (_ & _ & _ & _ & _ & _ & titles & _ & _ & R).
    rewrite R, E. eexists. rewrite <- !app_assoc. reflexivity.
Qed.

Lemma logAll_writeTitles rs s :
  writeTitles (logAll rs s) = writeTitles s || negb (Nat.eqb (length rs) 0).
Proof.
  induction rs as [|r rs IH] using rev_ind.
  - simpl. now rewrite orb_false_r.
  - rewrite logAll_snoc.
    destruct (logData_step r (logAll rs s)) as (_ & -> & _).
    rewrite length_app. simpl. replace (length rs + 1)%nat with (S (length rs))
      by lia.
    simpl. now rewrite orb_true_r.
Qed.

(** X26.  The blocks [logData] writes: blocks 21 and 23 for the titles
    at the first call only, and for the [k]-th entry the block 24 plus
    the entry counter modulo 1000, so blocks 24 to 1023 and, from the
    1001st entry on, the blocks of the oldest entries again. *)
Theorem logData_blocks (rs : list readings) (s : logger) :
  0 <= entryNum s <= 999 ->
  blocksWritten (newRequests s (logAll rs s))
  = titleBlocks s rs
    ++ map (fun k => firstDataBlock + (entryNum s + k) mod 1000)
           (seqZ 0 (Z.of_nat (length rs))).
Proof.
  intros He. induction rs as [|r rs IH] using rev_ind.
  - unfold newRequests. simpl. now rewrite drop_all.
  - destruct (logAll_requests rs s) as (evs & E).
    rewrite (newRequests_app _ _ _ E) in IH.
    destruct (logData_step r (logAll rs s))
      as (_ & _ & _ & _ & _ & _ & titles & T & _ & R).
    rewrite logAll_snoc.
    rewrite E, <- !app_assoc in R.
    rewrite (newRequests_app _ _ _ R), !blocksWritten_app, IH, T.
    destruct (logAll_counter rs s He) as [N _]. cbv zeta in N. rewrite N.
    rewrite length_app. simpl length.
    replace (length rs + 1)%nat with (S (length rs)) by lia.
    rewrite seqZ_S, map_app. simpl map. simpl blocksWritten.
    unfold titleBlocks at 2. rewrite logAll_writeTitles.
    destruct rs as [|r0 rs'].
    + simpl. destruct (writeTitles s); simpl; reflexivity.
    + simpl length. simpl Nat.eqb. rewrite orb_true_r.
      destruct ((r0 :: rs') ++ [r]) eqn:Ers; [discriminate|].
      unfold titleBlocks. rewrite <- !app_assoc. reflexivity.
Qed.

Lemma logData_blocks_witness :
  0 <= entryNum sampleLogger <= 999
  /\ blocksWritten (newRequests sampleLogger
                      (logAll [sampleReadings; sampleReadings] sampleLogger))
     = titleBlocks sampleLogger [sampleReadings; sampleReadings]
       ++ map (fun k => firstDataBlock + (entryNum sampleLogger + k) mod 1000)
              (seqZ 0 (Z.of_nat (length [sampleReadings; sampleReadings]))).
Proof.
  assert (H : 0 <= entryNum sampleLogger <= 999) by (simpl; lia).
  split; [exact H|].
  exact (logData_blocks [sampleReadings; sampleReadings] sampleLogger H).
Defined.

Lemma entriesText_snoc s rs r text :
  entriesText s (rs ++ [r]) text
  = String.append (entriesText s rs text) (entryText s r).
Proof. unfold entriesText. now rewrite fold_left_app. Qed.

Lemma logAll_dataEntry rs s :
  dataEntry (logAll rs s) = entriesText s rs (dataEntry s).
Proof.
  induction rs as [|r rs IH] using rev_ind; [reflexivity|].
  rewrite logAll_snoc, entriesText_snoc.
  destruct (logData_step r (logAll rs s)) as (_ & _ & -> & _).
  rewrite IH. f_equal. apply entryText_same, logAll_settings.
Qed.

(** X27.  [dataEntry] is never emptied: the block a call of [logData]
    writes holds the text of every entry logged so far, the new one
    last, and not the new entry alone. *)
Theorem logData_accumulates (rs : list readings) (r : readings)
    (s : logger) :
  WriteBlock (String.append (entriesText s (rs ++ [r]) (dataEntry s)) CRLF)
             (firstDataBlock + entryNum (logAll rs s))
  ∈ newRequests (logAll rs s) (logData r (logAll rs s)).
Proof.
  destruct (logData_step r (logAll rs s))
    as (_ & _ & _ & _ & _ & _ & titles & _ & _ & R).
  assert (E : dataEntry (logData r (logAll rs s))
              = entriesText s (rs ++ [r]) (dataEntry s))
    by (rewrite <- logAll_snoc; apply logAll_dataEntry).
  rewrite E, <- app_assoc in R. rewrite (newRequests_app _ _ _ R).
  apply elem_of_app. right. left.
Qed.

Section TransferProofs.

Variable readBlock : Z -> string.
Variable readByte : Z -> Z.

Lemma blocksRead_app a b :
  blocksRead (a ++ b) = blocksRead a ++ blocksRead b.
Proof. apply flat_map_app. Qed.

Lemma sendBlock_fold (l : list Z) :
  forall s,
    dataFull (fold_left (sendBlock readBlock) l s) = dataFull s
    /\ exists evs,
         requests (fold_left (sendBlock readBlock) l s) = requests s ++ evs
         /\ blocksRead evs = l.
Proof.
  induction l as [|b l IH]; intros s; simpl.
  - split; [reflexivity|]. exists []. now rewrite app_nil_r.
  - destruct (IH (sendBlock readBlock s b)) as (F & evs & R & B).
    split; [rewrite F; reflexivity|].
    exists ([ReadBlock b; SerialWrite (readBlock b)] ++ evs). split.
    + rewrite R. simpl. rewrite <- !app_assoc. reflexivity.
    + rewrite blocksRead_app, B. reflexivity.
Qed.

Lemma sendAllData_reads (s : logger) :
  blocksRead (newRequests s (sendAllData readBlock readByte s))
  = [21; 22; 23]
    ++ (if dataFull s then seqZ firstDataBlock (1024 - firstDataBlock)
        else seqZ firstDataBlock
               (Z.lor (jsShl (readByte (12 * 128)) 8)
                      (wrap32 (readByte (12 * 128 + 1))))).
Proof.
  unfold sendAllData.
  set (s0 := if comms s =? NONE then setDataForUSB s else s).
  assert (H0 : dataFull s0 = dataFull s
               /\ exists evs, requests s0 = requests s ++ evs
                              /\ blocksRead evs = []).
  { unfold s0. destruct (comms s =? NONE).
    - split; [reflexivity|]. exists [RedirectToUSB]. split; reflexivity.
    - split; [reflexivity|]. exists []. now rewrite app_nil_r. }
  destruct H0 as (F0 & e0 & R0 & B0).
  set (s3 := sendBlock readBlock (sendBlock readBlock
               (sendBlock readBlock s0 21) 22) 23).
  assert (F3 : dataFull s3 = dataFull s) by (rewrite <- F0; reflexivity).
  assert (R3 : requests s3
               = requests s
                 ++ e0 ++ [ReadBlock 21; SerialWrite (readBlock 21);
                           ReadBlock 22; SerialWrite (readBlock 22);
                           ReadBlock 23; SerialWrite (readBlock 23)]).
  { unfold s3. simpl. rewrite R0, <- !app_assoc. reflexivity. }
  rewrite F3. clearbody s3. clear F3. destruct (dataFull s).
  - destruct (sendBlock_fold (seqZ firstDataBlock (1024 - firstDataBlock)) s3)
      as (_ & evs & R & B).
    rewrite R3, <- !app_assoc in R.
    rewrite (newRequests_app _ _ _ R), !blocksRead_app, B0, B. reflexivity.
  - match goal with
    | |- context [fold_left _ ?l ?st] =>
        destruct (sendBlock_fold l st) as (_ & evs & R & B)
    end.
    simpl requests in R. rewrite R3, <- !app_assoc in R.
    rewrite (newRequests_app _ _ _ R), !blocksRead_app, B0, B. reflexivity.
Qed.

(** The two index bytes of an entry number give it back. *)
Lemma index_bytes (e : Z) :
  0 <= e < 0 + 1000 ->
  Z.lor (jsShl (Z.shiftr (wrap32 e) 8) 8) (wrap32 (Z.land (wrap32 e) 255))
  = e.
Proof.
  intros H.
  apply Z.eqb_eq.
  apply (forallb_seqZ
           (fun e => Z.lor (jsShl (Z.shiftr (wrap32 e) 8) 8)
                           (wrap32 (Z.land (wrap32 e) 255)) =? e)
           0 1000); [vm_compute; reflexivity|exact H].
Qed.

Lemma logData_storedBytes (r : readings) (s : logger) :
  storedByte (12 * 128) (requests (logData r s))
  = Some (Z.shiftr (wrap32 (entryNum s)) 8)
  /\ storedByte (12 * 128 + 1) (requests (logData r s))
     = Some (Z.land (wrap32 (entryNum s)) 255).
Proof.
  destruct (logData_step r s)
    as (_ & _ & _ & _ & _ & _ & titles & _ & _ & R).
  rewrite R. unfold storedByte. rewrite !fold_left_app. split; reflexivity.
Qed.

(** X28.  What [sendAllData] transmits after [n] calls of [logData] on
    a new log: all 1000 data blocks once the log is full; before that,
    when the memory returns the entry number [logData] stored last, the
    title blocks and the first [n - 1] data blocks, so the newest entry
    is not sent. *)
Theorem sendAllData_blocks (rs : list readings) (s : logger) :
  entryNum s = 0 -> dataFull s = false ->
  let s' := logAll rs s in
  let n := Z.of_nat (length rs) in
  let sent :=
    blocksRead (newRequests s' (sendAllData readBlock readByte s')) in
  (1000 <= n -> sent = [21; 22; 23] ++ seqZ 24 1000)
  /\ (1 <= n < 1000 ->
      storedByte (12 * 128) (requests s') = Some (readByte (12 * 128)) ->
      storedByte (12 * 128 + 1) (requests s')
      = Some (readByte (12 * 128 + 1)) ->
      sent = [21; 22; 23] ++ seqZ 24 (n - 1)).
Proof.
  intros He Hf s' n sent. unfold sent. rewrite sendAllData_reads.
  destruct (logAll_counter rs s ltac:(lia)) as [N F].
  cbv zeta in N, F. fold s' in N, F. fold n in N, F.
  rewrite He, Hf in *. simpl in F. rewrite Z.add_0_l in F. rewrite F. split.
  - intros Hn. destruct (Z.leb_spec 1000 n); [reflexivity|lia].
  - intros Hn Hhi Hlo. destruct (Z.leb_spec 1000 n); [lia|].
    f_equal. f_equal.
    destruct rs as [|r rs] using rev_ind; [simpl in n; lia|].
    clear IHrs. unfold s' in Hhi, Hlo. rewrite logAll_snoc in Hhi, Hlo.
    destruct (logData_storedBytes r (logAll rs s)) as [Ehi Elo].
    rewrite Ehi in Hhi. rewrite Elo in Hlo.
    injection Hhi as <-. injection Hlo as <-.
    destruct (logAll_counter rs s ltac:(lia)) as [N' _].
    cbv zeta in N'. rewrite He in N'. simpl in N'.
    unfold n in *. rewrite length_app in *. simpl length in *.
    rewrite Z.mod_small in N' by lia. rewrite N'.
    rewrite index_bytes by lia. lia.
Qed.

End TransferProofs.

Lemma sendAllData_blocks_witness :
  let readByte := fun a : Z => if a =? 12 * 128 then 0 else 1 in
  let s' := logAll [sampleReadings; sampleReadings] sampleLogger in
  (entryNum sampleLogger = 0 /\ dataFull sampleLogger = false
   /\ 1 <= 2 < 1000
   /\ storedByte (12 * 128) (requests s') = Some (readByte (12 * 128))
   /\ storedByte (12 * 128 + 1) (requests s')
      = Some (readByte (12 * 128 + 1)))
  /\ blocksRead (newRequests s'
                   (sendAllData (fun _ => EmptyString) readByte s'))
     = [21; 22; 23] ++ seqZ 24 (2 - 1).
Proof.
  intros readByte s'.
  assert (H1 : storedByte (12 * 128) (requests s')
               = Some (readByte (12 * 128))) by (vm_compute; reflexivity).
  assert (H2 : storedByte (12 * 128 + 1) (requests s')
               = Some (readByte (12 * 128 + 1)))
    by (vm_compute; reflexivity).
  assert (H3 : 1 <= 2 < 1000) by lia.
  split; [exact (conj eq_refl (conj eq_refl (conj H3 (conj H1 H2))))|].
  exact (proj2 (sendAllData_blocks (fun _ => EmptyString) readByte
                  [sampleReadings; sampleReadings] sampleLogger
                  eq_refl eq_refl)
               H3 H1 H2).
Defined.
